(** * IPInt metadata generator (JavaScriptCore/wasm/WasmIPIntGenerator.cpp)

    A shallow embedding of the single-pass generator that walks a
    WebAssembly function body and emits the metadata stream read by the
    in-place interpreter, with the properties of its control-flow
    bookkeeping, its argument layout and its encoding of locals.

    Conventions.  Machine integers are [Z] with their wrap-around written
    out ([wrap_u], [wrap_s32]).  The metadata vector ([Vector<uint8_t>]) is
    a [list Z] of bytes.  Control entries live in the parser's control stack
    and reach the generator by reference ([ControlType&]); here they live in
    a store, [m_controlStack], and a reference is the index of the entry. *)

From Stdlib Require Import ZArith Lia.
From stdpp Require Import base decidable option list numbers.

Local Open Scope Z_scope.

(* ===================================================================== *)
(** ** Fixed-width integers and their little-endian byte images          *)
(* ===================================================================== *)

(** Conversion to an unsigned integer of [w] bits. *)
Definition wrap_u (w : Z) (v : Z) : Z := v mod 2 ^ w.

(** Conversion to [int32_t]. *)
Definition wrap_s32 (v : Z) : Z := (v + 2 ^ 31) mod 2 ^ 32 - 2 ^ 31.

(** The [n] bytes of [v], least significant first: what [memcpy] copies out
    of an [n]-byte temporary on a little-endian target. *)
Fixpoint le_bytes (n : nat) (v : Z) : list Z :=
  match n with
  | O => []
  | S n' => v mod 256 :: le_bytes n' (v / 256)
  end.

(** The unsigned value of a little-endian byte string. *)
Fixpoint le_value (bs : list Z) : Z :=
  match bs with
  | [] => 0
  | b :: bs' => b + 256 * le_value bs'
  end.

(** [roundUpToMultipleOf(8, x)] of WTF. *)
Definition roundUpToMultipleOf8 (x : Z) : Z := (x + 7) / 8 * 8.

(* ===================================================================== *)
(** ** Types, signatures and module information                          *)
(* ===================================================================== *)

(** Modelled from the spec: the declaration of [Type] is not among the
    sources.  The generator only asks a type whether it is [isI32], [isI64],
    [isF32], [isF64] or a reference type ([isRefType]); the value types of
    WebAssembly are the integer, floating-point, vector and reference
    types. *)
Inductive TypeKind : Type := I32 | I64 | F32 | F64 | V128 | Funcref | Externref.

#[global] Instance TypeKind_eq_dec : EqDecision TypeKind.
Proof. solve_decision. Defined.

Definition isI32 (t : TypeKind) : bool := bool_decide (t = I32).
Definition isI64 (t : TypeKind) : bool := bool_decide (t = I64).
Definition isF32 (t : TypeKind) : bool := bool_decide (t = F32).
Definition isF64 (t : TypeKind) : bool := bool_decide (t = F64).
Definition isRefType (t : TypeKind) : bool :=
  bool_decide (t = Funcref) || bool_decide (t = Externref).

(** [FunctionSignature]: the parameter and result types of a function or of
    a block. *)
Record FunctionSignature : Type := mkSignature {
  argumentTypes : list TypeKind;
  returnTypes : list TypeKind
}.

Definition argumentCount (sig : FunctionSignature) : Z :=
  Z.of_nat (length (argumentTypes sig)).
Definition returnCount (sig : FunctionSignature) : Z :=
  Z.of_nat (length (returnTypes sig)).

Inductive BindingMode : Type := EmbeddedInInstance | Portable.

Record GlobalInformation : Type := mkGlobal {
  bindingMode : BindingMode;
  globalType : TypeKind
}.

(** The part of [ModuleInformation] the generator reads. *)
Record ModuleInformation : Type := mkModuleInformation {
  globals : list GlobalInformation
}.

(** Opcode bytes the generator compares [currentOpcode] with. *)
Definition OpType_Else : Z := 5.
Definition OpType_End : Z := 11.

(* ===================================================================== *)
(** ** Control entries                                                    *)
(* ===================================================================== *)

Module BlockType.
Inductive t : Type := If | Block | Loop | TopLevel | Try | Catch.
#[global] Instance eq_dec : EqDecision t.
Proof. solve_decision. Defined.
End BlockType.

Module CatchKind.
Inductive t : Type := Catch | CatchAll.
#[global] Instance eq_dec : EqDecision t.
Proof. solve_decision. Defined.
End CatchKind.

(** [struct IPIntControlType].  [m_awaitingUpdate] is a [Vector<uint32_t>],
    the three offsets are [int32_t] with initial value -1. *)
Record IPIntControlType : Type := mkControl {
  m_signature : FunctionSignature;
  m_blockType : BlockType.t;
  m_catchKind : CatchKind.t;
  m_awaitingUpdate : list Z;
  m_pendingOffset : Z;
  m_pc : Z;
  m_mc : Z
}.

(** The constructor [IPIntControlType(signature, blockType, catchKind)],
    with the default member initialisers. *)
Definition ControlType (signature : FunctionSignature) (blockType : BlockType.t)
    (catchKind : CatchKind.t) : IPIntControlType :=
  {| m_signature := signature; m_blockType := blockType; m_catchKind := catchKind;
     m_awaitingUpdate := []; m_pendingOffset := -1; m_pc := -1; m_mc := -1 |}.

Definition set_awaitingUpdate (l : list Z) (b : IPIntControlType) : IPIntControlType :=
  {| m_signature := m_signature b; m_blockType := m_blockType b;
     m_catchKind := m_catchKind b; m_awaitingUpdate := l;
     m_pendingOffset := m_pendingOffset b; m_pc := m_pc b; m_mc := m_mc b |}.

Definition set_pendingOffset (v : Z) (b : IPIntControlType) : IPIntControlType :=
  {| m_signature := m_signature b; m_blockType := m_blockType b;
     m_catchKind := m_catchKind b; m_awaitingUpdate := m_awaitingUpdate b;
     m_pendingOffset := v; m_pc := m_pc b; m_mc := m_mc b |}.

Definition set_pc_mc (pc mc : Z) (b : IPIntControlType) : IPIntControlType :=
  {| m_signature := m_signature b; m_blockType := m_blockType b;
     m_catchKind := m_catchKind b; m_awaitingUpdate := m_awaitingUpdate b;
     m_pendingOffset := m_pendingOffset b; m_pc := pc; m_mc := mc |}.

Definition isIf (control : IPIntControlType) : bool :=
  bool_decide (m_blockType control = BlockType.If).
Definition isTry (control : IPIntControlType) : bool :=
  bool_decide (m_blockType control = BlockType.Try).
Definition isAnyCatch (control : IPIntControlType) : bool :=
  bool_decide (m_blockType control = BlockType.Catch).
Definition isTopLevel (control : IPIntControlType) : bool :=
  bool_decide (m_blockType control = BlockType.TopLevel).
Definition isLoop (control : IPIntControlType) : bool :=
  bool_decide (m_blockType control = BlockType.Loop).
Definition isBlock (control : IPIntControlType) : bool :=
  bool_decide (m_blockType control = BlockType.Block).
Definition isCatch (control : IPIntControlType) : bool :=
  if negb (isAnyCatch control) then false
  else bool_decide (m_catchKind control = CatchKind.Catch).

(** [branchTargetArity]: the parameter count for a loop, the result count
    for every other kind of scope. *)
Definition branchTargetArity (b : IPIntControlType) : Z :=
  if isLoop b then argumentCount (m_signature b) else returnCount (m_signature b).

(** [branchTargetType(i)], for [i < branchTargetArity()]. *)
Definition branchTargetType (b : IPIntControlType) (i : nat) : option TypeKind :=
  if bool_decide (m_blockType b = BlockType.Loop)
  then argumentTypes (m_signature b) !! i
  else returnTypes (m_signature b) !! i.

(** The types [branchTargetType(0)], ..., [branchTargetType(arity - 1)]. *)
Definition branchTargetTypes (b : IPIntControlType) : list TypeKind :=
  omap (branchTargetType b) (seq 0 (Z.to_nat (branchTargetArity b))).

(* ===================================================================== *)
(** ** The metadata object and the generator state                       *)
(* ===================================================================== *)

(** [FunctionIPIntMetadataGenerator]: the byte vector and the counters the
    generator fills in. *)
Record FunctionIPIntMetadataGenerator : Type := mkMetadata {
  m_metadata : list Z;
  m_bytecodeOffset : Z;
  m_bytecodeLength : Z;
  m_numLocals : Z;
  m_numArguments : Z;
  m_numArgumentsOnStack : Z;
  m_nonArgLocalOffset : Z;
  m_argumentLocations : list Z
}.

(** What the generator reads through [m_parser] during one callback. *)
Record FunctionParser : Type := mkParser {
  offset : Z;
  currentOpcodeStartingOffset : Z;
  currentOpcode : Z
}.

(** [class IPIntGenerator]: the metadata object (the member the source calls
    [m_metadata]), the module information, and the store of the control
    entries that the parser has created so far.  A scope keeps its index for
    the whole compilation; the parser decides which entry a callback gets. *)
Record IPIntGenerator : Type := mkGenerator {
  m_generator : FunctionIPIntMetadataGenerator;
  m_info : ModuleInformation;
  m_controlStack : list IPIntControlType
}.

Definition set_generator (md : FunctionIPIntMetadataGenerator) (s : IPIntGenerator)
    : IPIntGenerator :=
  {| m_generator := md; m_info := m_info s; m_controlStack := m_controlStack s |}.

Definition set_controlStack (cs : list IPIntControlType) (s : IPIntGenerator)
    : IPIntGenerator :=
  {| m_generator := m_generator s; m_info := m_info s; m_controlStack := cs |}.

Definition set_metadata (bytes : list Z) (md : FunctionIPIntMetadataGenerator)
    : FunctionIPIntMetadataGenerator :=
  {| m_metadata := bytes; m_bytecodeOffset := m_bytecodeOffset md;
     m_bytecodeLength := m_bytecodeLength md;
     m_numLocals := m_numLocals md; m_numArguments := m_numArguments md;
     m_numArgumentsOnStack := m_numArgumentsOnStack md;
     m_nonArgLocalOffset := m_nonArgLocalOffset md;
     m_argumentLocations := m_argumentLocations md |}.

(** The bytes emitted so far and [m_metadata->m_metadata.size()]. *)
Definition metadata (s : IPIntGenerator) : list Z := m_metadata (m_generator s).
Definition metadataSize (s : IPIntGenerator) : Z := Z.of_nat (length (metadata s)).

(** The bytecode cursor of the spec: the parser's offset relative to the
    first instruction, [m_parser->offset() - m_metadata->m_bytecodeOffset]. *)
Definition currentPC (p : FunctionParser) (s : IPIntGenerator) : Z :=
  offset p - m_bytecodeOffset (m_generator s).

(** [getCurrentInstructionLength()]. *)
Definition getCurrentInstructionLength (p : FunctionParser) : Z :=
  offset p - currentOpcodeStartingOffset p.

(** The empty generator of a function: what the constructor leaves. *)
Definition emptyMetadata : FunctionIPIntMetadataGenerator :=
  {| m_metadata := []; m_bytecodeOffset := 0; m_bytecodeLength := 0;
     m_numLocals := 0; m_numArguments := 0;
     m_numArgumentsOnStack := 0; m_nonArgLocalOffset := 0;
     m_argumentLocations := [] |}.

Definition newGenerator (info : ModuleInformation) : IPIntGenerator :=
  {| m_generator := emptyMetadata; m_info := info; m_controlStack := [] |}.

(* ===================================================================== *)
(** ** The metadata buffer                                                *)
(* ===================================================================== *)

(** Overwrite [length bs] bytes at offset [off].  A write that does not lie
    inside the vector is outside the contract of the buffer (in C++ it is
    undefined behaviour); the model leaves the vector as it is. *)
Definition writeBytes (buf : list Z) (off : Z) (bs : list Z) : list Z :=
  if decide (0 <= off /\ off + Z.of_nat (length bs) <= Z.of_nat (length buf))
  then take (Z.to_nat off) buf ++ bs ++ drop (Z.to_nat off + length bs) buf
  else buf.

(** The [n] bytes at offset [off], and the unsigned integer they hold. *)
Definition readBytes (buf : list Z) (off : Z) (n : nat) : list Z :=
  take n (drop (Z.to_nat off) buf).
Definition load (n : nat) (buf : list Z) (off : Z) : Z :=
  le_value (readBytes buf off n).

(** Modelled from the spec: the macro [WRITE_TO_METADATA(dst, src, type)] is
    defined in a header that is not among the sources.  The spec's
    [write(offset, value, width)] overwrites [width] bytes at an allocated
    offset with the value's representation and never grows the buffer. *)
Definition WRITE_TO_METADATA (off : Z) (src : Z) (width : nat) (s : IPIntGenerator)
    : IPIntGenerator :=
  set_generator
    (set_metadata (writeBytes (metadata s) off (le_bytes width src)) (m_generator s)) s.

(** Modelled from the spec: [addBlankSpace] belongs to the metadata object,
    whose source is not given.  The spec's [allocate(n)] appends [n]
    zero-initialised bytes. *)
Definition addBlankSpace (n : Z) (s : IPIntGenerator) : IPIntGenerator :=
  set_generator
    (set_metadata (metadata s ++ replicate (Z.to_nat n) 0) (m_generator s)) s.

(** Modelled from the spec: [addRawValue] belongs to the metadata object.
    It appends one entry holding the value in 8 bytes (the source comments
    its use as "8B PC of if"). *)
Definition addRawValue (value : Z) (s : IPIntGenerator) : IPIntGenerator :=
  let size := metadataSize s in
  WRITE_TO_METADATA size value 8 (addBlankSpace 8 s).

(** Modelled from the spec: [addLEB128ConstantInt32AndLength] belongs to the
    metadata object.  It appends one entry: the decoded 4-byte value, then
    the 4-byte length of the source instruction. *)
Definition addLEB128ConstantInt32AndLength (value length : Z) (s : IPIntGenerator)
    : IPIntGenerator :=
  let size := metadataSize s in
  WRITE_TO_METADATA (size + 4) length 4
    (WRITE_TO_METADATA size value 4 (addBlankSpace 8 s)).

(** Modelled from the spec: the tag byte of a returned value.  Neither the
    spec nor the sources give the numbers; the type codes of the WebAssembly
    binary format stand for them. *)
Definition returnTypeTag (t : TypeKind) : Z :=
  match t with
  | I32 => 127 | I64 => 126 | F32 => 125 | F64 => 124 | V128 => 123
  | Funcref => 112 | Externref => 111
  end.

(** Modelled from the spec: [addReturnData] belongs to the metadata object.
    The Return Data block is an entry rounded up to 8 bytes that holds a
    2-byte total size and then one byte for each returned value. *)
Definition addReturnData (types : list TypeKind) (s : IPIntGenerator) : IPIntGenerator :=
  let size := metadataSize s in
  let total := roundUpToMultipleOf8 (Z.of_nat (length types) + 2) in
  let s := addBlankSpace total s in
  let s := WRITE_TO_METADATA size total 2 s in
  set_generator
    (set_metadata (writeBytes (metadata s) (size + 2) (returnTypeTag <$> types))
       (m_generator s)) s.

(* ===================================================================== *)
(** ** Callbacks of the generator                                        *)
(* ===================================================================== *)

(** Every callback takes the state of the parser at the time of the call
    ([p]) and the state of the generator ([s]) and returns the new state.
    A callback that receives a control entry takes its index; an index that
    names no entry cannot come from the parser, and the callback then leaves
    the state as it is.  The operand stacks ([Stack&], [ExpressionType]) are
    the parser's: the generator only reads [stack.size()], which is an
    argument of the callbacks that use it. *)

Definition set_control (i : nat) (b : IPIntControlType) (s : IPIntGenerator)
    : IPIntGenerator :=
  set_controlStack (<[i := b]> (m_controlStack s)) s.

(** The parser appends the entry that a scope-opening callback fills in. *)
Definition push_control (b : IPIntControlType) (s : IPIntGenerator) : IPIntGenerator :=
  set_controlStack (m_controlStack s ++ [b]) s.

(** *** Arguments and locals *)

(** [didFinishParsingLocals]. *)
Definition didFinishParsingLocals (p : FunctionParser) (s : IPIntGenerator)
    : IPIntGenerator :=
  set_generator
    {| m_metadata := metadata s; m_bytecodeOffset := offset p;
       m_bytecodeLength := m_bytecodeLength (m_generator s);
       m_numLocals := m_numLocals (m_generator s);
       m_numArguments := m_numArguments (m_generator s);
       m_numArgumentsOnStack := m_numArgumentsOnStack (m_generator s);
       m_nonArgLocalOffset := m_nonArgLocalOffset (m_generator s);
       m_argumentLocations := m_argumentLocations (m_generator s) |} s.

(** The two assignments in the loop of [addArguments]:
    [m_argumentLocations[i] = loc], after [m_numArgumentsOnStack++] when
    the argument goes to the stack. *)
Definition assignArgument (i : nat) (loc : Z) (onStack : bool)
    (md : FunctionIPIntMetadataGenerator) : FunctionIPIntMetadataGenerator :=
  {| m_metadata := m_metadata md; m_bytecodeOffset := m_bytecodeOffset md;
     m_bytecodeLength := m_bytecodeLength md; m_numLocals := m_numLocals md;
     m_numArguments := m_numArguments md;
     m_numArgumentsOnStack :=
       if onStack then wrap_u 32 (m_numArgumentsOnStack md + 1)
       else m_numArgumentsOnStack md;
     m_nonArgLocalOffset := m_nonArgLocalOffset md;
     m_argumentLocations := <[i := loc]> (m_argumentLocations md) |}.

(** One turn of the loop of [addArguments]: the argument [arg] has index
    [i]; [numGPR], [numFPR] and [stackOffset] are the loop's [int] counters
    (at most one step per argument, so they stay far from [INT_MAX]). *)
Definition addArgumentsStep (arg : TypeKind) (i : nat) (numGPR numFPR stackOffset : Z)
    (md : FunctionIPIntMetadataGenerator)
    : Z * Z * Z * FunctionIPIntMetadataGenerator :=
  if isI32 arg || isI64 arg then
    if bool_decide (numGPR < 8)
    then (numGPR + 1, numFPR, stackOffset, assignArgument i numGPR false md)
    else (numGPR, numFPR, stackOffset + 1, assignArgument i stackOffset true md)
  else
    if bool_decide (numFPR < 8)
    then (numGPR, numFPR + 1, stackOffset, assignArgument i (8 + numFPR) false md)
    else (numGPR, numFPR, stackOffset + 1, assignArgument i stackOffset true md).

(** The loop [for (size_t i = 0; i < numArgs; ++i)]: [args] are the types
    of the arguments [i], [i + 1], ... *)
Fixpoint addArgumentsLoop (args : list TypeKind) (i : nat) (numGPR numFPR stackOffset : Z)
    (md : FunctionIPIntMetadataGenerator) : FunctionIPIntMetadataGenerator :=
  match args with
  | [] => md
  | arg :: rest =>
      let '(numGPR', numFPR', stackOffset', md') :=
        addArgumentsStep arg i numGPR numFPR stackOffset md in
      addArgumentsLoop rest (S i) numGPR' numFPR' stackOffset' md'
  end.

(** [addArguments]. *)
Definition addArguments (signature : FunctionSignature) (s : IPIntGenerator)
    : IPIntGenerator :=
  let md := m_generator s in
  let numArgs := argumentCount signature in
  let md :=
    {| m_metadata := m_metadata md; m_bytecodeOffset := m_bytecodeOffset md;
       m_bytecodeLength := m_bytecodeLength md;
       m_numLocals := wrap_u 32 (m_numLocals md + numArgs);
       m_numArguments := wrap_u 32 numArgs;
       m_numArgumentsOnStack := m_numArgumentsOnStack md;
       m_nonArgLocalOffset := m_nonArgLocalOffset md;
       m_argumentLocations := resize (Z.to_nat numArgs) 0 (m_argumentLocations md) |} in
  let md := addArgumentsLoop (argumentTypes signature) 0 0 0 16 md in
  set_generator
    {| m_metadata := m_metadata md; m_bytecodeOffset := m_bytecodeOffset md;
       m_bytecodeLength := m_bytecodeLength md; m_numLocals := m_numLocals md;
       m_numArguments := m_numArguments md;
       m_numArgumentsOnStack := m_numArgumentsOnStack md;
       m_nonArgLocalOffset :=
         wrap_u 32 (16 + m_numArgumentsOnStack md - m_numArguments md);
       m_argumentLocations := m_argumentLocations md |} s.

(** [addLocal]. *)
Definition addLocal (count : Z) (s : IPIntGenerator) : IPIntGenerator :=
  let md := m_generator s in
  set_generator
    {| m_metadata := m_metadata md; m_bytecodeOffset := m_bytecodeOffset md;
       m_bytecodeLength := m_bytecodeLength md;
       m_numLocals := wrap_u 32 (m_numLocals md + count);
       m_numArguments := m_numArguments md;
       m_numArgumentsOnStack := m_numArgumentsOnStack md;
       m_nonArgLocalOffset := m_nonArgLocalOffset md;
       m_argumentLocations := m_argumentLocations md |} s.

(** [m_argumentLocations[index]]. *)
Definition argumentLocation (s : IPIntGenerator) (index : Z) : Z :=
  default 0 (m_argumentLocations (m_generator s) !! Z.to_nat index).

(** [getLocal]. *)
Definition getLocal (index : Z) (p : FunctionParser) (s : IPIntGenerator)
    : IPIntGenerator :=
  if bool_decide (index >= m_numArguments (m_generator s))
  then addLEB128ConstantInt32AndLength
         (index + m_nonArgLocalOffset (m_generator s)) (getCurrentInstructionLength p) s
  else addLEB128ConstantInt32AndLength
         (argumentLocation s index) (getCurrentInstructionLength p) s.

(** [setLocal]. *)
Definition setLocal (index : Z) (p : FunctionParser) (s : IPIntGenerator)
    : IPIntGenerator :=
  if bool_decide (index >= m_numArguments (m_generator s))
  then addLEB128ConstantInt32AndLength
         (index + m_nonArgLocalOffset (m_generator s)) (getCurrentInstructionLength p) s
  else addLEB128ConstantInt32AndLength
         (argumentLocation s index) (getCurrentInstructionLength p) s.

(** *** Globals, tables, memory, references *)

(** [getGlobal]; the binding-mode tag takes two bytes. *)
Definition getGlobal (index : Z) (p : FunctionParser) (s : IPIntGenerator)
    : IPIntGenerator :=
  let size := metadataSize s in
  let s := addBlankSpace 8 s in
  let s := WRITE_TO_METADATA size index 4 s in
  let s := WRITE_TO_METADATA (size + 4) (getCurrentInstructionLength p) 2 s in
  match globals (m_info s) !! Z.to_nat index with
  | Some global =>
      match bindingMode global with
      | EmbeddedInInstance => WRITE_TO_METADATA (size + 6) 0 2 s
      | Portable => WRITE_TO_METADATA (size + 6) 1 2 s
      end
  | None => s
  end.

(** [setGlobal]; one byte for the binding mode, one for "is a reference". *)
Definition setGlobal (index : Z) (p : FunctionParser) (s : IPIntGenerator)
    : IPIntGenerator :=
  let size := metadataSize s in
  let s := addBlankSpace 8 s in
  let s := WRITE_TO_METADATA size index 4 s in
  let s := WRITE_TO_METADATA (size + 4) (getCurrentInstructionLength p) 2 s in
  match globals (m_info s) !! Z.to_nat index with
  | Some global =>
      let s :=
        match bindingMode global with
        | EmbeddedInInstance => WRITE_TO_METADATA (size + 6) 0 1 s
        | Portable => WRITE_TO_METADATA (size + 6) 1 1 s
        end in
      if isRefType (globalType global)
      then WRITE_TO_METADATA (size + 7) 1 1 s
      else WRITE_TO_METADATA (size + 7) 0 1 s
  | None => s
  end.

(** The callbacks whose body is one call of
    [addLEB128ConstantInt32AndLength(index, getCurrentInstructionLength())]:
    [addRefFunc], [addTableGet], [addTableSet], [addElemDrop],
    [addTableSize], [addTableGrow], [addTableFill], [load], [store],
    [addMemoryInit] and [addDataDrop]. *)
Definition addIndexAndLength (index : Z) (p : FunctionParser) (s : IPIntGenerator)
    : IPIntGenerator :=
  addLEB128ConstantInt32AndLength index (getCurrentInstructionLength p) s.

(** [addTableInit] and [addTableCopy]: two 4-byte indices and the 8-byte
    length of the instruction. *)
Definition addTableInit (elementIndex tableIndex : Z) (p : FunctionParser)
    (s : IPIntGenerator) : IPIntGenerator :=
  let size := metadataSize s in
  let s := addBlankSpace 16 s in
  let s := WRITE_TO_METADATA size elementIndex 4 s in
  let s := WRITE_TO_METADATA (size + 4) tableIndex 4 s in
  WRITE_TO_METADATA (size + 8) (getCurrentInstructionLength p) 8 s.

Definition addTableCopy (dstTableIndex srcTableIndex : Z) (p : FunctionParser)
    (s : IPIntGenerator) : IPIntGenerator :=
  let size := metadataSize s in
  let s := addBlankSpace 16 s in
  let s := WRITE_TO_METADATA size dstTableIndex 4 s in
  let s := WRITE_TO_METADATA (size + 4) srcTableIndex 4 s in
  WRITE_TO_METADATA (size + 8) (getCurrentInstructionLength p) 8 s.

(** [addSelect]. *)
Definition addSelect (p : FunctionParser) (s : IPIntGenerator) : IPIntGenerator :=
  addRawValue (getCurrentInstructionLength p) s.

(** *** Callbacks of the operand-free instructions

    Source lines 771-946: every one of these callbacks has the body
    [{ return { }; }].  Each is translated on its own; the operand values
    ([ExpressionType] is the empty struct [Value]) carry no information and
    are dropped. *)

(* Integer Arithmetic *)
Definition addI32Add (s : IPIntGenerator) : IPIntGenerator := s.
Definition addI64Add (s : IPIntGenerator) : IPIntGenerator := s.
Definition addI32Sub (s : IPIntGenerator) : IPIntGenerator := s.
Definition addI64Sub (s : IPIntGenerator) : IPIntGenerator := s.
Definition addI32Mul (s : IPIntGenerator) : IPIntGenerator := s.
Definition addI64Mul (s : IPIntGenerator) : IPIntGenerator := s.
Definition addI32DivS (s : IPIntGenerator) : IPIntGenerator := s.
Definition addI32DivU (s : IPIntGenerator) : IPIntGenerator := s.
Definition addI64DivS (s : IPIntGenerator) : IPIntGenerator := s.
Definition addI64DivU (s : IPIntGenerator) : IPIntGenerator := s.
Definition addI32RemS (s : IPIntGenerator) : IPIntGenerator := s.
Definition addI32RemU (s : IPIntGenerator) : IPIntGenerator := s.
Definition addI64RemS (s : IPIntGenerator) : IPIntGenerator := s.
Definition addI64RemU (s : IPIntGenerator) : IPIntGenerator := s.

(* Bitwise Operations *)
Definition addI32And (s : IPIntGenerator) : IPIntGenerator := s.
Definition addI64And (s : IPIntGenerator) : IPIntGenerator := s.
Definition addI32Xor (s : IPIntGenerator) : IPIntGenerator := s.
Definition addI64Xor (s : IPIntGenerator) : IPIntGenerator := s.
Definition addI32Or (s : IPIntGenerator) : IPIntGenerator := s.
Definition addI64Or (s : IPIntGenerator) : IPIntGenerator := s.
Definition addI32Shl (s : IPIntGenerator) : IPIntGenerator := s.
Definition addI32ShrU (s : IPIntGenerator) : IPIntGenerator := s.
Definition addI32ShrS (s : IPIntGenerator) : IPIntGenerator := s.
Definition addI64Shl (s : IPIntGenerator) : IPIntGenerator := s.
Definition addI64ShrU (s : IPIntGenerator) : IPIntGenerator := s.
Definition addI64ShrS (s : IPIntGenerator) : IPIntGenerator := s.
Definition addI32Rotl (s : IPIntGenerator) : IPIntGenerator := s.
Definition addI64Rotl (s : IPIntGenerator) : IPIntGenerator := s.
Definition addI32Rotr (s : IPIntGenerator) : IPIntGenerator := s.
Definition addI64Rotr (s : IPIntGenerator) : IPIntGenerator := s.
Definition addI32Popcnt (s : IPIntGenerator) : IPIntGenerator := s.
Definition addI64Popcnt (s : IPIntGenerator) : IPIntGenerator := s.
Definition addI32Clz (s : IPIntGenerator) : IPIntGenerator := s.
Definition addI64Clz (s : IPIntGenerator) : IPIntGenerator := s.
Definition addI32Ctz (s : IPIntGenerator) : IPIntGenerator := s.
Definition addI64Ctz (s : IPIntGenerator) : IPIntGenerator := s.

(* Floating-Point Arithmetic *)
Definition addF32Add (s : IPIntGenerator) : IPIntGenerator := s.
Definition addF64Add (s : IPIntGenerator) : IPIntGenerator := s.
Definition addF32Sub (s : IPIntGenerator) : IPIntGenerator := s.
Definition addF64Sub (s : IPIntGenerator) : IPIntGenerator := s.
Definition addF32Mul (s : IPIntGenerator) : IPIntGenerator := s.
Definition addF64Mul (s : IPIntGenerator) : IPIntGenerator := s.
Definition addF32Div (s : IPIntGenerator) : IPIntGenerator := s.
Definition addF64Div (s : IPIntGenerator) : IPIntGenerator := s.

(* Other Floating-Point Instructions *)
Definition addF32Min (s : IPIntGenerator) : IPIntGenerator := s.
Definition addF32Max (s : IPIntGenerator) : IPIntGenerator := s.
Definition addF64Min (s : IPIntGenerator) : IPIntGenerator := s.
Definition addF64Max (s : IPIntGenerator) : IPIntGenerator := s.
Definition addF32Nearest (s : IPIntGenerator) : IPIntGenerator := s.
Definition addF64Nearest (s : IPIntGenerator) : IPIntGenerator := s.
Definition addF32Floor (s : IPIntGenerator) : IPIntGenerator := s.
Definition addF64Floor (s : IPIntGenerator) : IPIntGenerator := s.
Definition addF32Ceil (s : IPIntGenerator) : IPIntGenerator := s.
Definition addF64Ceil (s : IPIntGenerator) : IPIntGenerator := s.
Definition addF32Copysign (s : IPIntGenerator) : IPIntGenerator := s.
Definition addF64Copysign (s : IPIntGenerator) : IPIntGenerator := s.
Definition addF32Sqrt (s : IPIntGenerator) : IPIntGenerator := s.
Definition addF64Sqrt (s : IPIntGenerator) : IPIntGenerator := s.
Definition addF32Neg (s : IPIntGenerator) : IPIntGenerator := s.
Definition addF64Neg (s : IPIntGenerator) : IPIntGenerator := s.
Definition addF32Abs (s : IPIntGenerator) : IPIntGenerator := s.
Definition addF64Abs (s : IPIntGenerator) : IPIntGenerator := s.

(* Integer Comparisons *)
Definition addI32Eq (s : IPIntGenerator) : IPIntGenerator := s.
Definition addI32Ne (s : IPIntGenerator) : IPIntGenerator := s.
Definition addI32LtS (s : IPIntGenerator) : IPIntGenerator := s.
Definition addI32LtU (s : IPIntGenerator) : IPIntGenerator := s.
Definition addI32LeS (s : IPIntGenerator) : IPIntGenerator := s.
Definition addI32LeU (s : IPIntGenerator) : IPIntGenerator := s.
Definition addI32GtS (s : IPIntGenerator) : IPIntGenerator := s.
Definition addI32GtU (s : IPIntGenerator) : IPIntGenerator := s.
Definition addI32GeU (s : IPIntGenerator) : IPIntGenerator := s.
Definition addI32GeS (s : IPIntGenerator) : IPIntGenerator := s.
Definition addI32Eqz (s : IPIntGenerator) : IPIntGenerator := s.
Definition addI64Eq (s : IPIntGenerator) : IPIntGenerator := s.
Definition addI64Ne (s : IPIntGenerator) : IPIntGenerator := s.
Definition addI64GtS (s : IPIntGenerator) : IPIntGenerator := s.
Definition addI64GtU (s : IPIntGenerator) : IPIntGenerator := s.
Definition addI64GeS (s : IPIntGenerator) : IPIntGenerator := s.
Definition addI64GeU (s : IPIntGenerator) : IPIntGenerator := s.
Definition addI64LtS (s : IPIntGenerator) : IPIntGenerator := s.
Definition addI64LtU (s : IPIntGenerator) : IPIntGenerator := s.
Definition addI64LeS (s : IPIntGenerator) : IPIntGenerator := s.
Definition addI64LeU (s : IPIntGenerator) : IPIntGenerator := s.
Definition addI64Eqz (s : IPIntGenerator) : IPIntGenerator := s.

(* Floating-Point Comparisons *)
Definition addF32Eq (s : IPIntGenerator) : IPIntGenerator := s.
Definition addF32Ne (s : IPIntGenerator) : IPIntGenerator := s.
Definition addF32Lt (s : IPIntGenerator) : IPIntGenerator := s.
Definition addF32Le (s : IPIntGenerator) : IPIntGenerator := s.
Definition addF32Gt (s : IPIntGenerator) : IPIntGenerator := s.
Definition addF32Ge (s : IPIntGenerator) : IPIntGenerator := s.
Definition addF64Eq (s : IPIntGenerator) : IPIntGenerator := s.
Definition addF64Ne (s : IPIntGenerator) : IPIntGenerator := s.
Definition addF64Lt (s : IPIntGenerator) : IPIntGenerator := s.
Definition addF64Le (s : IPIntGenerator) : IPIntGenerator := s.
Definition addF64Gt (s : IPIntGenerator) : IPIntGenerator := s.
Definition addF64Ge (s : IPIntGenerator) : IPIntGenerator := s.

(* Integer Extension *)
Definition addI64ExtendSI32 (s : IPIntGenerator) : IPIntGenerator := s.
Definition addI64ExtendUI32 (s : IPIntGenerator) : IPIntGenerator := s.
Definition addI32Extend8S (s : IPIntGenerator) : IPIntGenerator := s.
Definition addI32Extend16S (s : IPIntGenerator) : IPIntGenerator := s.
Definition addI64Extend8S (s : IPIntGenerator) : IPIntGenerator := s.
Definition addI64Extend16S (s : IPIntGenerator) : IPIntGenerator := s.
Definition addI64Extend32S (s : IPIntGenerator) : IPIntGenerator := s.

(* Truncation *)
Definition addF64Trunc (s : IPIntGenerator) : IPIntGenerator := s.
Definition addF32Trunc (s : IPIntGenerator) : IPIntGenerator := s.
Definition addI32TruncSF64 (s : IPIntGenerator) : IPIntGenerator := s.
Definition addI32TruncSF32 (s : IPIntGenerator) : IPIntGenerator := s.
Definition addI32TruncUF64 (s : IPIntGenerator) : IPIntGenerator := s.
Definition addI32TruncUF32 (s : IPIntGenerator) : IPIntGenerator := s.
Definition addI64TruncSF64 (s : IPIntGenerator) : IPIntGenerator := s.
Definition addI64TruncSF32 (s : IPIntGenerator) : IPIntGenerator := s.
Definition addI64TruncUF64 (s : IPIntGenerator) : IPIntGenerator := s.
Definition addI64TruncUF32 (s : IPIntGenerator) : IPIntGenerator := s.
Definition truncSaturated (s : IPIntGenerator) : IPIntGenerator := s.

(* Conversions *)
Definition addI32WrapI64 (s : IPIntGenerator) : IPIntGenerator := s.
Definition addF32DemoteF64 (s : IPIntGenerator) : IPIntGenerator := s.
Definition addF64PromoteF32 (s : IPIntGenerator) : IPIntGenerator := s.
Definition addF32ReinterpretI32 (s : IPIntGenerator) : IPIntGenerator := s.
Definition addI32ReinterpretF32 (s : IPIntGenerator) : IPIntGenerator := s.
Definition addF64ReinterpretI64 (s : IPIntGenerator) : IPIntGenerator := s.
Definition addI64ReinterpretF64 (s : IPIntGenerator) : IPIntGenerator := s.
Definition addF32ConvertSI32 (s : IPIntGenerator) : IPIntGenerator := s.
Definition addF32ConvertUI32 (s : IPIntGenerator) : IPIntGenerator := s.
Definition addF32ConvertSI64 (s : IPIntGenerator) : IPIntGenerator := s.
Definition addF32ConvertUI64 (s : IPIntGenerator) : IPIntGenerator := s.
Definition addF64ConvertSI32 (s : IPIntGenerator) : IPIntGenerator := s.
Definition addF64ConvertUI32 (s : IPIntGenerator) : IPIntGenerator := s.
Definition addF64ConvertSI64 (s : IPIntGenerator) : IPIntGenerator := s.
Definition addF64ConvertUI64 (s : IPIntGenerator) : IPIntGenerator := s.

(** The opcodes the parser dispatches to the callbacks above. *)
Inductive OperandFreeOp : Type :=
  | Op_I32Add | Op_I64Add | Op_I32Sub | Op_I64Sub | Op_I32Mul | Op_I64Mul
  | Op_I32DivS | Op_I32DivU | Op_I64DivS | Op_I64DivU | Op_I32RemS
  | Op_I32RemU | Op_I64RemS | Op_I64RemU | Op_I32And | Op_I64And | Op_I32Xor
  | Op_I64Xor | Op_I32Or | Op_I64Or | Op_I32Shl | Op_I32ShrU | Op_I32ShrS
  | Op_I64Shl | Op_I64ShrU | Op_I64ShrS | Op_I32Rotl | Op_I64Rotl
  | Op_I32Rotr | Op_I64Rotr | Op_I32Popcnt | Op_I64Popcnt | Op_I32Clz
  | Op_I64Clz | Op_I32Ctz | Op_I64Ctz | Op_F32Add | Op_F64Add | Op_F32Sub
  | Op_F64Sub | Op_F32Mul | Op_F64Mul | Op_F32Div | Op_F64Div | Op_F32Min
  | Op_F32Max | Op_F64Min | Op_F64Max | Op_F32Nearest | Op_F64Nearest
  | Op_F32Floor | Op_F64Floor | Op_F32Ceil | Op_F64Ceil | Op_F32Copysign
  | Op_F64Copysign | Op_F32Sqrt | Op_F64Sqrt | Op_F32Neg | Op_F64Neg
  | Op_F32Abs | Op_F64Abs | Op_I32Eq | Op_I32Ne | Op_I32LtS | Op_I32LtU
  | Op_I32LeS | Op_I32LeU | Op_I32GtS | Op_I32GtU | Op_I32GeU | Op_I32GeS
  | Op_I32Eqz | Op_I64Eq | Op_I64Ne | Op_I64GtS | Op_I64GtU | Op_I64GeS
  | Op_I64GeU | Op_I64LtS | Op_I64LtU | Op_I64LeS | Op_I64LeU | Op_I64Eqz
  | Op_F32Eq | Op_F32Ne | Op_F32Lt | Op_F32Le | Op_F32Gt | Op_F32Ge
  | Op_F64Eq | Op_F64Ne | Op_F64Lt | Op_F64Le | Op_F64Gt | Op_F64Ge
  | Op_I64ExtendSI32 | Op_I64ExtendUI32 | Op_I32Extend8S | Op_I32Extend16S
  | Op_I64Extend8S | Op_I64Extend16S | Op_I64Extend32S | Op_F64Trunc
  | Op_F32Trunc | Op_I32TruncSF64 | Op_I32TruncSF32 | Op_I32TruncUF64
  | Op_I32TruncUF32 | Op_I64TruncSF64 | Op_I64TruncSF32 | Op_I64TruncUF64
  | Op_I64TruncUF32 | Op_TruncSaturated | Op_I32WrapI64 | Op_F32DemoteF64
  | Op_F64PromoteF32 | Op_F32ReinterpretI32 | Op_I32ReinterpretF32
  | Op_F64ReinterpretI64 | Op_I64ReinterpretF64 | Op_F32ConvertSI32
  | Op_F32ConvertUI32 | Op_F32ConvertSI64 | Op_F32ConvertUI64
  | Op_F64ConvertSI32 | Op_F64ConvertUI32 | Op_F64ConvertSI64
  | Op_F64ConvertUI64.

Definition addOperandFree (op : OperandFreeOp) (s : IPIntGenerator) : IPIntGenerator :=
  match op with
  | Op_I32Add => addI32Add s
  | Op_I64Add => addI64Add s
  | Op_I32Sub => addI32Sub s
  | Op_I64Sub => addI64Sub s
  | Op_I32Mul => addI32Mul s
  | Op_I64Mul => addI64Mul s
  | Op_I32DivS => addI32DivS s
  | Op_I32DivU => addI32DivU s
  | Op_I64DivS => addI64DivS s
  | Op_I64DivU => addI64DivU s
  | Op_I32RemS => addI32RemS s
  | Op_I32RemU => addI32RemU s
  | Op_I64RemS => addI64RemS s
  | Op_I64RemU => addI64RemU s
  | Op_I32And => addI32And s
  | Op_I64And => addI64And s
  | Op_I32Xor => addI32Xor s
  | Op_I64Xor => addI64Xor s
  | Op_I32Or => addI32Or s
  | Op_I64Or => addI64Or s
  | Op_I32Shl => addI32Shl s
  | Op_I32ShrU => addI32ShrU s
  | Op_I32ShrS => addI32ShrS s
  | Op_I64Shl => addI64Shl s
  | Op_I64ShrU => addI64ShrU s
  | Op_I64ShrS => addI64ShrS s
  | Op_I32Rotl => addI32Rotl s
  | Op_I64Rotl => addI64Rotl s
  | Op_I32Rotr => addI32Rotr s
  | Op_I64Rotr => addI64Rotr s
  | Op_I32Popcnt => addI32Popcnt s
  | Op_I64Popcnt => addI64Popcnt s
  | Op_I32Clz => addI32Clz s
  | Op_I64Clz => addI64Clz s
  | Op_I32Ctz => addI32Ctz s
  | Op_I64Ctz => addI64Ctz s
  | Op_F32Add => addF32Add s
  | Op_F64Add => addF64Add s
  | Op_F32Sub => addF32Sub s
  | Op_F64Sub => addF64Sub s
  | Op_F32Mul => addF32Mul s
  | Op_F64Mul => addF64Mul s
  | Op_F32Div => addF32Div s
  | Op_F64Div => addF64Div s
  | Op_F32Min => addF32Min s
  | Op_F32Max => addF32Max s
  | Op_F64Min => addF64Min s
  | Op_F64Max => addF64Max s
  | Op_F32Nearest => addF32Nearest s
  | Op_F64Nearest => addF64Nearest s
  | Op_F32Floor => addF32Floor s
  | Op_F64Floor => addF64Floor s
  | Op_F32Ceil => addF32Ceil s
  | Op_F64Ceil => addF64Ceil s
  | Op_F32Copysign => addF32Copysign s
  | Op_F64Copysign => addF64Copysign s
  | Op_F32Sqrt => addF32Sqrt s
  | Op_F64Sqrt => addF64Sqrt s
  | Op_F32Neg => addF32Neg s
  | Op_F64Neg => addF64Neg s
  | Op_F32Abs => addF32Abs s
  | Op_F64Abs => addF64Abs s
  | Op_I32Eq => addI32Eq s
  | Op_I32Ne => addI32Ne s
  | Op_I32LtS => addI32LtS s
  | Op_I32LtU => addI32LtU s
  | Op_I32LeS => addI32LeS s
  | Op_I32LeU => addI32LeU s
  | Op_I32GtS => addI32GtS s
  | Op_I32GtU => addI32GtU s
  | Op_I32GeU => addI32GeU s
  | Op_I32GeS => addI32GeS s
  | Op_I32Eqz => addI32Eqz s
  | Op_I64Eq => addI64Eq s
  | Op_I64Ne => addI64Ne s
  | Op_I64GtS => addI64GtS s
  | Op_I64GtU => addI64GtU s
  | Op_I64GeS => addI64GeS s
  | Op_I64GeU => addI64GeU s
  | Op_I64LtS => addI64LtS s
  | Op_I64LtU => addI64LtU s
  | Op_I64LeS => addI64LeS s
  | Op_I64LeU => addI64LeU s
  | Op_I64Eqz => addI64Eqz s
  | Op_F32Eq => addF32Eq s
  | Op_F32Ne => addF32Ne s
  | Op_F32Lt => addF32Lt s
  | Op_F32Le => addF32Le s
  | Op_F32Gt => addF32Gt s
  | Op_F32Ge => addF32Ge s
  | Op_F64Eq => addF64Eq s
  | Op_F64Ne => addF64Ne s
  | Op_F64Lt => addF64Lt s
  | Op_F64Le => addF64Le s
  | Op_F64Gt => addF64Gt s
  | Op_F64Ge => addF64Ge s
  | Op_I64ExtendSI32 => addI64ExtendSI32 s
  | Op_I64ExtendUI32 => addI64ExtendUI32 s
  | Op_I32Extend8S => addI32Extend8S s
  | Op_I32Extend16S => addI32Extend16S s
  | Op_I64Extend8S => addI64Extend8S s
  | Op_I64Extend16S => addI64Extend16S s
  | Op_I64Extend32S => addI64Extend32S s
  | Op_F64Trunc => addF64Trunc s
  | Op_F32Trunc => addF32Trunc s
  | Op_I32TruncSF64 => addI32TruncSF64 s
  | Op_I32TruncSF32 => addI32TruncSF32 s
  | Op_I32TruncUF64 => addI32TruncUF64 s
  | Op_I32TruncUF32 => addI32TruncUF32 s
  | Op_I64TruncSF64 => addI64TruncSF64 s
  | Op_I64TruncSF32 => addI64TruncSF32 s
  | Op_I64TruncUF64 => addI64TruncUF64 s
  | Op_I64TruncUF32 => addI64TruncUF32 s
  | Op_TruncSaturated => truncSaturated s
  | Op_I32WrapI64 => addI32WrapI64 s
  | Op_F32DemoteF64 => addF32DemoteF64 s
  | Op_F64PromoteF32 => addF64PromoteF32 s
  | Op_F32ReinterpretI32 => addF32ReinterpretI32 s
  | Op_I32ReinterpretF32 => addI32ReinterpretF32 s
  | Op_F64ReinterpretI64 => addF64ReinterpretI64 s
  | Op_I64ReinterpretF64 => addI64ReinterpretF64 s
  | Op_F32ConvertSI32 => addF32ConvertSI32 s
  | Op_F32ConvertUI32 => addF32ConvertUI32 s
  | Op_F32ConvertSI64 => addF32ConvertSI64 s
  | Op_F32ConvertUI64 => addF32ConvertUI64 s
  | Op_F64ConvertSI32 => addF64ConvertSI32 s
  | Op_F64ConvertUI32 => addF64ConvertUI32 s
  | Op_F64ConvertSI64 => addF64ConvertSI64 s
  | Op_F64ConvertUI64 => addF64ConvertUI64 s
  end.

(** *** Control-flow blocks *)

(** [addTopLevel]. *)
Definition addTopLevel (signature : FunctionSignature) (s : IPIntGenerator)
    : IPIntGenerator :=
  push_control (ControlType signature BlockType.TopLevel CatchKind.Catch) s.

(** [addBlock]: one entry, the PC after the block header. *)
Definition addBlock (signature : FunctionSignature) (p : FunctionParser)
    (s : IPIntGenerator) : IPIntGenerator :=
  let block := ControlType signature BlockType.Block CatchKind.Catch in
  let s := addRawValue (currentPC p s) s in
  push_control block s.

(** [addLoop]: one entry, and the branch-back target is fixed at once. *)
Definition addLoop (signature : FunctionSignature) (p : FunctionParser)
    (s : IPIntGenerator) : IPIntGenerator :=
  let block := ControlType signature BlockType.Loop CatchKind.Catch in
  let block := set_pendingOffset (-1) block in
  let s := addRawValue (currentPC p s) s in
  let block := set_pc_mc (wrap_s32 (currentPC p s)) (wrap_s32 (metadataSize s)) block in
  push_control block s.

(** [addIf]: an 8-byte placeholder for the target of a false condition,
    then the PC after the header. *)
Definition addIf (signature : FunctionSignature) (p : FunctionParser)
    (s : IPIntGenerator) : IPIntGenerator :=
  let block := ControlType signature BlockType.If CatchKind.Catch in
  let block := set_pendingOffset (wrap_s32 (metadataSize s)) block in
  let s := addBlankSpace 8 s in
  let s := addRawValue (currentPC p s) s in
  push_control block s.

(** [addElseToUnreachable]. *)
Definition addElseToUnreachable (block : nat) (p : FunctionParser) (s : IPIntGenerator)
    : IPIntGenerator :=
  match m_controlStack s !! block with
  | None => s
  | Some b =>
      let s := WRITE_TO_METADATA (m_pendingOffset b) (currentPC p s) 4 s in
      if bool_decide (currentOpcode p = OpType_End) then
        let s := WRITE_TO_METADATA (m_pendingOffset b + 4) (metadataSize s) 4 s in
        let b' := ControlType (m_signature b) BlockType.Block CatchKind.Catch in
        let b' := set_pendingOffset (-1) b' in
        set_control block b' s
      else
        let s := WRITE_TO_METADATA (m_pendingOffset b + 4) (metadataSize s + 8) 4 s in
        let b' := ControlType (m_signature b) BlockType.Block CatchKind.Catch in
        let b' := set_pendingOffset (wrap_s32 (metadataSize s)) b' in
        let s := set_control block b' s in
        addBlankSpace 8 s
  end.

(** [addElse] resets the parser's stack and calls [addElseToUnreachable]. *)
Definition addElse (block : nat) (p : FunctionParser) (s : IPIntGenerator)
    : IPIntGenerator :=
  addElseToUnreachable block p s.

(** *** Exception handling *)

Definition addTry (signature : FunctionSignature) (s : IPIntGenerator) : IPIntGenerator :=
  push_control (ControlType signature BlockType.Try CatchKind.Catch) s.

Definition addCatchToUnreachable (block : nat) (s : IPIntGenerator) : IPIntGenerator :=
  match m_controlStack s !! block with
  | None => s
  | Some b =>
      set_control block (ControlType (m_signature b) BlockType.Catch CatchKind.Catch) s
  end.

Definition addCatch (block : nat) (s : IPIntGenerator) : IPIntGenerator :=
  addCatchToUnreachable block s.

Definition addCatchAllToUnreachable (block : nat) (s : IPIntGenerator) : IPIntGenerator :=
  match m_controlStack s !! block with
  | None => s
  | Some b =>
      set_control block (ControlType (m_signature b) BlockType.Catch CatchKind.CatchAll) s
  end.

Definition addCatchAll (block : nat) (s : IPIntGenerator) : IPIntGenerator :=
  addCatchAllToUnreachable block s.

Definition addDelegate (s : IPIntGenerator) : IPIntGenerator := s.
Definition addDelegateToUnreachable (s : IPIntGenerator) : IPIntGenerator := s.
Definition addThrow (s : IPIntGenerator) : IPIntGenerator := s.
Definition addRethrow (s : IPIntGenerator) : IPIntGenerator := s.

(** *** Control-flow branches *)

Definition addReturn (s : IPIntGenerator) : IPIntGenerator := s.

(** [addBranch], for [br] and [br_if]: [block] is the target scope and
    [stackSize] is [stack.size()]. *)
Definition addBranch (block : nat) (stackSize : Z) (p : FunctionParser)
    (s : IPIntGenerator) : IPIntGenerator :=
  match m_controlStack s !! block with
  | None => s
  | Some b =>
      let size := metadataSize s in
      let s := set_control block
                 (set_awaitingUpdate (m_awaitingUpdate b ++ [wrap_u 32 size]) b) s in
      let s := addBlankSpace 16 s in
      let s := WRITE_TO_METADATA (size + 8) (stackSize - branchTargetArity b) 2 s in
      let s := WRITE_TO_METADATA (size + 10) (branchTargetArity b) 2 s in
      WRITE_TO_METADATA (size + 12) (currentPC p s) 4 s
  end.

(** One target of [addSwitch]: the body of the loop over [jumps], which is
    repeated after the loop for [defaultJump]. *)
Definition addSwitchTarget (stackSize : Z) (p : FunctionParser) (s : IPIntGenerator)
    (block : nat) : IPIntGenerator :=
  match m_controlStack s !! block with
  | None => s
  | Some b =>
      let jumpBase := metadataSize s in
      let s := addBlankSpace 16 s in
      let s := set_control block
                 (set_awaitingUpdate (m_awaitingUpdate b ++ [wrap_u 32 jumpBase]) b) s in
      let s := WRITE_TO_METADATA (jumpBase + 8) (stackSize - branchTargetArity b) 2 s in
      let s := WRITE_TO_METADATA (jumpBase + 10) (branchTargetArity b) 2 s in
      WRITE_TO_METADATA (jumpBase + 12) (currentPC p s) 4 s
  end.

(** [addSwitch], for [br_table]: the targets in [jumps] and [defaultJump]
    are references into the control stack and may name the same entry. *)
Definition addSwitch (jumps : list nat) (defaultJump : nat) (stackSize : Z)
    (p : FunctionParser) (s : IPIntGenerator) : IPIntGenerator :=
  let size := metadataSize s in
  let s := addBlankSpace 8 s in
  let s := WRITE_TO_METADATA size (Z.of_nat (length jumps) + 1) 8 s in
  let s := fold_left (addSwitchTarget stackSize p) jumps s in
  addSwitchTarget stackSize p s defaultJump.

(** Write the pair (PC, MC) of a resolved target at offset [x]. *)
Definition patchTarget (pc mc : Z) (s : IPIntGenerator) (x : Z) : IPIntGenerator :=
  let s := WRITE_TO_METADATA x pc 4 s in
  WRITE_TO_METADATA (x + 4) mc 4 s.

(** [addEndToUnreachable].  The values it appends to the entry's enclosed
    stack belong to the parser. *)
Definition addEndToUnreachable (entry : nat) (p : FunctionParser) (s : IPIntGenerator)
    : IPIntGenerator :=
  match m_controlStack s !! entry with
  | None => s
  | Some block =>
      if isIf block then
        patchTarget (currentPC p s - 1) (metadataSize s) s (m_pendingOffset block)
      else if isBlock block then
        if bool_decide (m_pendingOffset block <> -1) then
          patchTarget (currentPC p s - 1) (metadataSize s) s (m_pendingOffset block)
        else
          fold_left (fun s x => patchTarget (currentPC p s - 1) (metadataSize s) s x)
            (m_awaitingUpdate block) s
      else if isLoop block then
        fold_left (fun s x => patchTarget (m_pc block) (m_mc block) s x)
          (m_awaitingUpdate block) s
      else if isTopLevel block then
        let s :=
          fold_left (fun s x => patchTarget (currentPC p s - 1) (metadataSize s) s x)
            (m_awaitingUpdate block) s in
        let md := m_generator s in
        let s :=
          set_generator
            {| m_metadata := m_metadata md; m_bytecodeOffset := m_bytecodeOffset md;
               m_bytecodeLength := offset p; m_numLocals := m_numLocals md;
               m_numArguments := m_numArguments md;
               m_numArgumentsOnStack := m_numArgumentsOnStack md;
               m_nonArgLocalOffset := m_nonArgLocalOffset md;
               m_argumentLocations := m_argumentLocations md |} s in
        addReturnData (branchTargetTypes block) s
      else s
  end.

(** [endBlock]. *)
Definition endBlock (entry : nat) (p : FunctionParser) (s : IPIntGenerator)
    : IPIntGenerator :=
  addEndToUnreachable entry p s.

(** *** Callbacks that emit nothing in this version

    The SIMD, reference, memory, atomic, GC, exception and trap callbacks
    whose body is [{ return { }; }], with [addConstant(v128_t)] and
    [addCallRef], which only fills the parser's result list. *)

Definition addDrop (s : IPIntGenerator) : IPIntGenerator := s.
Definition addSIMDLoad (s : IPIntGenerator) : IPIntGenerator := s.
Definition addSIMDStore (s : IPIntGenerator) : IPIntGenerator := s.
Definition addSIMDSplat (s : IPIntGenerator) : IPIntGenerator := s.
Definition addSIMDShuffle (s : IPIntGenerator) : IPIntGenerator := s.
Definition addSIMDShift (s : IPIntGenerator) : IPIntGenerator := s.
Definition addSIMDExtmul (s : IPIntGenerator) : IPIntGenerator := s.
Definition addSIMDLoadSplat (s : IPIntGenerator) : IPIntGenerator := s.
Definition addSIMDLoadLane (s : IPIntGenerator) : IPIntGenerator := s.
Definition addSIMDStoreLane (s : IPIntGenerator) : IPIntGenerator := s.
Definition addSIMDLoadExtend (s : IPIntGenerator) : IPIntGenerator := s.
Definition addSIMDLoadPad (s : IPIntGenerator) : IPIntGenerator := s.
Definition addExtractLane (s : IPIntGenerator) : IPIntGenerator := s.
Definition addReplaceLane (s : IPIntGenerator) : IPIntGenerator := s.
Definition addSIMDI_V (s : IPIntGenerator) : IPIntGenerator := s.
Definition addSIMDV_V (s : IPIntGenerator) : IPIntGenerator := s.
Definition addSIMDBitwiseSelect (s : IPIntGenerator) : IPIntGenerator := s.
Definition addSIMDRelOp (s : IPIntGenerator) : IPIntGenerator := s.
Definition addSIMDV_VV (s : IPIntGenerator) : IPIntGenerator := s.
Definition addRefIsNull (s : IPIntGenerator) : IPIntGenerator := s.
Definition addRefAsNonNull (s : IPIntGenerator) : IPIntGenerator := s.
Definition addRefEq (s : IPIntGenerator) : IPIntGenerator := s.
Definition addGrowMemory (s : IPIntGenerator) : IPIntGenerator := s.
Definition addCurrentMemory (s : IPIntGenerator) : IPIntGenerator := s.
Definition addMemoryFill (s : IPIntGenerator) : IPIntGenerator := s.
Definition addMemoryCopy (s : IPIntGenerator) : IPIntGenerator := s.
Definition atomicLoad (s : IPIntGenerator) : IPIntGenerator := s.
Definition atomicStore (s : IPIntGenerator) : IPIntGenerator := s.
Definition atomicBinaryRMW (s : IPIntGenerator) : IPIntGenerator := s.
Definition atomicCompareExchange (s : IPIntGenerator) : IPIntGenerator := s.
Definition atomicWait (s : IPIntGenerator) : IPIntGenerator := s.
Definition atomicNotify (s : IPIntGenerator) : IPIntGenerator := s.
Definition atomicFence (s : IPIntGenerator) : IPIntGenerator := s.
Definition addI31New (s : IPIntGenerator) : IPIntGenerator := s.
Definition addI31GetS (s : IPIntGenerator) : IPIntGenerator := s.
Definition addI31GetU (s : IPIntGenerator) : IPIntGenerator := s.
Definition addArrayNew (s : IPIntGenerator) : IPIntGenerator := s.
Definition addArrayNewData (s : IPIntGenerator) : IPIntGenerator := s.
Definition addArrayNewElem (s : IPIntGenerator) : IPIntGenerator := s.
Definition addArrayNewFixed (s : IPIntGenerator) : IPIntGenerator := s.
Definition addArrayNewDefault (s : IPIntGenerator) : IPIntGenerator := s.
Definition addArrayGet (s : IPIntGenerator) : IPIntGenerator := s.
Definition addArraySet (s : IPIntGenerator) : IPIntGenerator := s.
Definition addArrayLen (s : IPIntGenerator) : IPIntGenerator := s.
Definition addStructNew (s : IPIntGenerator) : IPIntGenerator := s.
Definition addStructNewDefault (s : IPIntGenerator) : IPIntGenerator := s.
Definition addStructGet (s : IPIntGenerator) : IPIntGenerator := s.
Definition addStructSet (s : IPIntGenerator) : IPIntGenerator := s.
Definition addRefTest (s : IPIntGenerator) : IPIntGenerator := s.
Definition addRefCast (s : IPIntGenerator) : IPIntGenerator := s.
Definition addExternInternalize (s : IPIntGenerator) : IPIntGenerator := s.
Definition addExternExternalize (s : IPIntGenerator) : IPIntGenerator := s.
Definition addUnreachable (s : IPIntGenerator) : IPIntGenerator := s.
Definition addCrash (s : IPIntGenerator) : IPIntGenerator := s.
Definition addConstantV128 (s : IPIntGenerator) : IPIntGenerator := s.
Definition addCallRef (s : IPIntGenerator) : IPIntGenerator := s.

Inductive SilentOp : Type :=
  | Nop_Drop | Nop_SIMDLoad | Nop_SIMDStore | Nop_SIMDSplat | Nop_SIMDShuffle
  | Nop_SIMDShift | Nop_SIMDExtmul | Nop_SIMDLoadSplat | Nop_SIMDLoadLane
  | Nop_SIMDStoreLane | Nop_SIMDLoadExtend | Nop_SIMDLoadPad
  | Nop_ExtractLane | Nop_ReplaceLane | Nop_SIMDI_V | Nop_SIMDV_V
  | Nop_SIMDBitwiseSelect | Nop_SIMDRelOp | Nop_SIMDV_VV | Nop_RefIsNull
  | Nop_RefAsNonNull | Nop_RefEq | Nop_GrowMemory | Nop_CurrentMemory
  | Nop_MemoryFill | Nop_MemoryCopy | Nop_AtomicLoad | Nop_AtomicStore
  | Nop_AtomicBinaryRMW | Nop_AtomicCompareExchange | Nop_AtomicWait
  | Nop_AtomicNotify | Nop_AtomicFence | Nop_I31New | Nop_I31GetS
  | Nop_I31GetU | Nop_ArrayNew | Nop_ArrayNewData | Nop_ArrayNewElem
  | Nop_ArrayNewFixed | Nop_ArrayNewDefault | Nop_ArrayGet | Nop_ArraySet
  | Nop_ArrayLen | Nop_StructNew | Nop_StructNewDefault | Nop_StructGet
  | Nop_StructSet | Nop_RefTest | Nop_RefCast | Nop_ExternInternalize
  | Nop_ExternExternalize | Nop_Delegate | Nop_DelegateToUnreachable
  | Nop_Throw | Nop_Rethrow | Nop_Return | Nop_Unreachable | Nop_Crash
  | Nop_ConstantV128 | Nop_CallRef.

Definition addSilent (op : SilentOp) (s : IPIntGenerator) : IPIntGenerator :=
  match op with
  | Nop_Drop => addDrop s
  | Nop_SIMDLoad => addSIMDLoad s
  | Nop_SIMDStore => addSIMDStore s
  | Nop_SIMDSplat => addSIMDSplat s
  | Nop_SIMDShuffle => addSIMDShuffle s
  | Nop_SIMDShift => addSIMDShift s
  | Nop_SIMDExtmul => addSIMDExtmul s
  | Nop_SIMDLoadSplat => addSIMDLoadSplat s
  | Nop_SIMDLoadLane => addSIMDLoadLane s
  | Nop_SIMDStoreLane => addSIMDStoreLane s
  | Nop_SIMDLoadExtend => addSIMDLoadExtend s
  | Nop_SIMDLoadPad => addSIMDLoadPad s
  | Nop_ExtractLane => addExtractLane s
  | Nop_ReplaceLane => addReplaceLane s
  | Nop_SIMDI_V => addSIMDI_V s
  | Nop_SIMDV_V => addSIMDV_V s
  | Nop_SIMDBitwiseSelect => addSIMDBitwiseSelect s
  | Nop_SIMDRelOp => addSIMDRelOp s
  | Nop_SIMDV_VV => addSIMDV_VV s
  | Nop_RefIsNull => addRefIsNull s
  | Nop_RefAsNonNull => addRefAsNonNull s
  | Nop_RefEq => addRefEq s
  | Nop_GrowMemory => addGrowMemory s
  | Nop_CurrentMemory => addCurrentMemory s
  | Nop_MemoryFill => addMemoryFill s
  | Nop_MemoryCopy => addMemoryCopy s
  | Nop_AtomicLoad => atomicLoad s
  | Nop_AtomicStore => atomicStore s
  | Nop_AtomicBinaryRMW => atomicBinaryRMW s
  | Nop_AtomicCompareExchange => atomicCompareExchange s
  | Nop_AtomicWait => atomicWait s
  | Nop_AtomicNotify => atomicNotify s
  | Nop_AtomicFence => atomicFence s
  | Nop_I31New => addI31New s
  | Nop_I31GetS => addI31GetS s
  | Nop_I31GetU => addI31GetU s
  | Nop_ArrayNew => addArrayNew s
  | Nop_ArrayNewData => addArrayNewData s
  | Nop_ArrayNewElem => addArrayNewElem s
  | Nop_ArrayNewFixed => addArrayNewFixed s
  | Nop_ArrayNewDefault => addArrayNewDefault s
  | Nop_ArrayGet => addArrayGet s
  | Nop_ArraySet => addArraySet s
  | Nop_ArrayLen => addArrayLen s
  | Nop_StructNew => addStructNew s
  | Nop_StructNewDefault => addStructNewDefault s
  | Nop_StructGet => addStructGet s
  | Nop_StructSet => addStructSet s
  | Nop_RefTest => addRefTest s
  | Nop_RefCast => addRefCast s
  | Nop_ExternInternalize => addExternInternalize s
  | Nop_ExternExternalize => addExternExternalize s
  | Nop_Delegate => addDelegate s
  | Nop_DelegateToUnreachable => addDelegateToUnreachable s
  | Nop_Throw => addThrow s
  | Nop_Rethrow => addRethrow s
  | Nop_Return => addReturn s
  | Nop_Unreachable => addUnreachable s
  | Nop_Crash => addCrash s
  | Nop_ConstantV128 => addConstantV128 s
  | Nop_CallRef => addCallRef s
  end.

(** *** Constants *)

(** Modelled from the spec: [addLEB128ConstantAndLengthForType] belongs to
    the metadata object.  The entry of [i32.const] holds the 4-byte value
    and the 4-byte length of the instruction, that of [i64.const] the
    8-byte value and the 8-byte length; no entry is described for a
    constant of another type. *)
Definition addLEB128ConstantAndLengthForType (type : TypeKind) (value length : Z)
    (s : IPIntGenerator) : IPIntGenerator :=
  let size := metadataSize s in
  if isI32 type then
    WRITE_TO_METADATA (size + 4) length 4
      (WRITE_TO_METADATA size value 4 (addBlankSpace 8 s))
  else if isI64 type then
    WRITE_TO_METADATA (size + 8) length 8
      (WRITE_TO_METADATA size value 8 (addBlankSpace 16 s))
  else s.

(** [addConstant(Type, uint64_t)]. *)
Definition addConstant (type : TypeKind) (value : Z) (p : FunctionParser)
    (s : IPIntGenerator) : IPIntGenerator :=
  addLEB128ConstantAndLengthForType type value (getCurrentInstructionLength p) s.

(** *** Calls *)

(** The target the engine is built for decides [maxGPRs]. *)
Inductive CPU : Type := X86_64 | ARM64 | OtherCPU.

Definition maxGPRs (cpu : CPU) : Z :=
  match cpu with X86_64 => 6 | ARM64 => 8 | OtherCPU => 0 end.
Definition maxFPRs : Z := 8.

(** The first loop of [addCallCommonData]: [args] are the types of the
    arguments still to place, [stackOffset] is a [uint16_t], [gprsUsed] and
    [fprsUsed] are [uint8_t], and [signatureMetadata] is the offset of the
    32-byte block. *)
Fixpoint addCallCommonDataLoop (cpu : CPU) (signatureMetadata : Z) (args : list TypeKind)
    (stackOffset gprsUsed fprsUsed : Z) (locations : list Z) (s : IPIntGenerator)
    : list Z * IPIntGenerator :=
  match args with
  | [] => (locations, s)
  | argType :: rest =>
      if (isI32 argType || isI64 argType) && negb (bool_decide (gprsUsed = maxGPRs cpu))
      then addCallCommonDataLoop cpu signatureMetadata rest
             (wrap_u 16 (stackOffset - 1)) (wrap_u 8 (gprsUsed + 1)) fprsUsed locations
             (WRITE_TO_METADATA (signatureMetadata + 2 * gprsUsed) stackOffset 2 s)
      else if (isF32 argType || isF64 argType) && negb (bool_decide (fprsUsed = maxFPRs))
      then addCallCommonDataLoop cpu signatureMetadata rest
             (wrap_u 16 (stackOffset - 1)) gprsUsed (wrap_u 8 (fprsUsed + 1)) locations
             (WRITE_TO_METADATA (signatureMetadata + 16 + 2 * fprsUsed) stackOffset 2 s)
      else addCallCommonDataLoop cpu signatureMetadata rest
             (wrap_u 16 (stackOffset - 1)) gprsUsed fprsUsed (locations ++ [stackOffset]) s
  end.

(** The second loop: [locations[i]] goes to [extraMetadata + 6 + i * 2]. *)
Fixpoint writeStackLocations (extraMetadata : Z) (i : Z) (locations : list Z)
    (s : IPIntGenerator) : IPIntGenerator :=
  match locations with
  | [] => s
  | loc :: rest =>
      writeStackLocations extraMetadata (i + 1) rest
        (WRITE_TO_METADATA (extraMetadata + 6 + i * 2) loc 2 s)
  end.

(** [addCallCommonData]. *)
Definition addCallCommonData (cpu : CPU) (signature : FunctionSignature)
    (s : IPIntGenerator) : IPIntGenerator :=
  let size := metadataSize s in
  let s := addBlankSpace 32 s in
  let signatureMetadata := size in
  let stackOffset := wrap_u 16 (argumentCount signature - 1) in
  let s := WRITE_TO_METADATA signatureMetadata 0 8 s in
  let s := WRITE_TO_METADATA (signatureMetadata + 8) 0 8 s in
  let s := WRITE_TO_METADATA (signatureMetadata + 16) 0 8 s in
  let s := WRITE_TO_METADATA (signatureMetadata + 24) 0 8 s in
  let '(locations, s) :=
    addCallCommonDataLoop cpu signatureMetadata (argumentTypes signature)
      stackOffset 0 0 [] s in
  let extraSize := roundUpToMultipleOf8 (Z.of_nat (length locations) * 2 + 6) in
  let size := metadataSize s in
  let s := addBlankSpace extraSize s in
  let extraMetadata := size in
  let s := WRITE_TO_METADATA extraMetadata extraSize 2 s in
  let s := WRITE_TO_METADATA (extraMetadata + 2) (argumentCount signature) 2 s in
  let s := WRITE_TO_METADATA (extraMetadata + 4) (Z.of_nat (length locations)) 2 s in
  let s := writeStackLocations extraMetadata 0 locations s in
  addReturnData (returnTypes signature) s.

(** [addCall]: the function index, the PC after the call, and the common
    data of the call. *)
Definition addCall (cpu : CPU) (index : Z) (signature : FunctionSignature)
    (p : FunctionParser) (s : IPIntGenerator) : IPIntGenerator :=
  let newPC := currentPC p s in
  let size := metadataSize s in
  let s := addBlankSpace 8 s in
  let s := WRITE_TO_METADATA size index 4 s in
  let s := WRITE_TO_METADATA (size + 4) newPC 4 s in
  addCallCommonData cpu signature s.

(** [addCallIndirect]; [typeIndex] is what [m_metadata->addSignature(type)]
    returns, a function of the metadata object that is not among the
    sources. *)
Definition addCallIndirect (cpu : CPU) (tableIndex typeIndex : Z)
    (signature : FunctionSignature) (p : FunctionParser) (s : IPIntGenerator)
    : IPIntGenerator :=
  let newPC := currentPC p s in
  let size := metadataSize s in
  let s := addBlankSpace 16 s in
  let s := WRITE_TO_METADATA size tableIndex 4 s in
  let s := WRITE_TO_METADATA (size + 4) typeIndex 4 s in
  let s := WRITE_TO_METADATA (size + 12) newPC 4 s in
  addCallCommonData cpu signature s.

(** *** Layout of a branch entry

    The 16 bytes of the entry of one branch target: the (PC, MC) pair still
    to be resolved, the number of values to pop, the arity of the target,
    and the PC after the branch instruction. *)
Definition branchEntry (b : IPIntControlType) (stackSize pc : Z) : list Z :=
  replicate 8 0 ++ le_bytes 2 (stackSize - branchTargetArity b)
    ++ le_bytes 2 (branchTargetArity b) ++ le_bytes 4 pc.

(** The entry of the target with index [block], as [addBranch] and
    [addSwitch] lay it out in state [s]. *)
Definition targetEntry (s : IPIntGenerator) (stackSize : Z) (p : FunctionParser)
    (block : nat) : list Z :=
  match m_controlStack s !! block with
  | Some b => branchEntry b stackSize (currentPC p s)
  | None => []
  end.

(** The bytes of a resolved (PC, MC) pair. *)
Definition targetBytes (pc mc : Z) : list Z := le_bytes 4 pc ++ le_bytes 4 mc.

(** *** The callbacks as the parser issues them *)

Inductive Callback : Type :=
| CbOperandFree (op : OperandFreeOp)
| CbSilent (op : SilentOp)
| CbConstant (type : TypeKind) (value : Z)
| CbCall (cpu : CPU) (index : Z) (signature : FunctionSignature)
| CbCallIndirect (cpu : CPU) (tableIndex typeIndex : Z) (signature : FunctionSignature)
| CbAddLocal (count : Z)
| CbGetLocal (index : Z)
| CbSetLocal (index : Z)
| CbGetGlobal (index : Z)
| CbSetGlobal (index : Z)
| CbIndexAndLength (index : Z)
| CbTableInit (elementIndex tableIndex : Z)
| CbTableCopy (dstTableIndex srcTableIndex : Z)
| CbSelect
| CbBlock (signature : FunctionSignature)
| CbLoop (signature : FunctionSignature)
| CbIf (signature : FunctionSignature)
| CbElse (block : nat)
| CbTry (signature : FunctionSignature)
| CbCatch (block : nat)
| CbCatchAll (block : nat)
| CbBranch (block : nat) (stackSize : Z)
| CbSwitch (jumps : list nat) (defaultJump : nat) (stackSize : Z)
| CbEnd (entry : nat).

Definition invoke (cb : Callback) (p : FunctionParser) (s : IPIntGenerator)
    : IPIntGenerator :=
  match cb with
  | CbOperandFree op => addOperandFree op s
  | CbSilent op => addSilent op s
  | CbConstant type value => addConstant type value p s
  | CbCall cpu index signature => addCall cpu index signature p s
  | CbCallIndirect cpu tableIndex typeIndex signature =>
      addCallIndirect cpu tableIndex typeIndex signature p s
  | CbAddLocal count => addLocal count s
  | CbGetLocal index => getLocal index p s
  | CbSetLocal index => setLocal index p s
  | CbGetGlobal index => getGlobal index p s
  | CbSetGlobal index => setGlobal index p s
  | CbIndexAndLength index => addIndexAndLength index p s
  | CbTableInit e t => addTableInit e t p s
  | CbTableCopy d t => addTableCopy d t p s
  | CbSelect => addSelect p s
  | CbBlock signature => addBlock signature p s
  | CbLoop signature => addLoop signature p s
  | CbIf signature => addIf signature p s
  | CbElse block => addElseToUnreachable block p s
  | CbTry signature => addTry signature s
  | CbCatch block => addCatchToUnreachable block s
  | CbCatchAll block => addCatchAllToUnreachable block s
  | CbBranch block stackSize => addBranch block stackSize p s
  | CbSwitch jumps defaultJump stackSize => addSwitch jumps defaultJump stackSize p s
  | CbEnd entry => addEndToUnreachable entry p s
  end.

(** Modelled from the spec: the validating parser is not among the sources.
    It rejects malformed nesting before a callback runs: [else] is only
    accepted for an entry that [isIf], and a catch clause only for an entry
    that [isTry] or [isAnyCatch]. *)
Definition accepts (cb : Callback) (s : IPIntGenerator) : bool :=
  match cb with
  | CbElse block =>
      match m_controlStack s !! block with
      | Some b => isIf b
      | None => false
      end
  | CbCatch block | CbCatchAll block =>
      match m_controlStack s !! block with
      | Some b => isTry b || isAnyCatch b
      | None => false
      end
  | _ => true
  end.

(** A run of the parser over a function body: the callbacks in program
    order, each with the parser's state at the call.  [None] when the
    parser rejects the body. *)
Fixpoint run (calls : list (FunctionParser * Callback)) (s : IPIntGenerator)
    : option IPIntGenerator :=
  match calls with
  | [] => Some s
  | (p, cb) :: rest => if accepts cb s then run rest (invoke cb p s) else None
  end.

(* ===================================================================== *)
(** ** What a run keeps                                                   *)
(* ===================================================================== *)

(** The fields fixed before the first instruction: the argument layout, the
    offset of the first instruction, and the module information. *)
Definition layoutOf (s : IPIntGenerator)
    : Z * Z * Z * list Z * Z * ModuleInformation :=
  (m_numArguments (m_generator s), m_numArgumentsOnStack (m_generator s),
   m_nonArgLocalOffset (m_generator s), m_argumentLocations (m_generator s),
   m_bytecodeOffset (m_generator s), m_info s).

(** [spaced lo l hi]: the offsets in [l] are those of 16-byte entries laid
    out in order between [lo] and [hi]. *)
Fixpoint spaced (lo : Z) (l : list Z) (hi : Z) : Prop :=
  match l with
  | [] => lo <= hi
  | x :: l' => lo <= x /\ spaced (x + 16) l' hi
  end.

(** [quiet s s']: the step from [s] to [s'] has kept the layout fields and
    the control entries and has not shrunk the metadata. *)
Definition quiet (s s' : IPIntGenerator) : Prop :=
  layoutOf s' = layoutOf s /\ m_controlStack s' = m_controlStack s /\
  metadataSize s <= metadataSize s'.

(** [grows cs cs']: the store [cs'] has the entries of [cs], each with the
    same signature, kind and loop target, and with an awaiting list that
    extends the one it had. *)
Definition grows (cs cs' : list IPIntControlType) : Prop :=
  forall (i : nat) (b : IPIntControlType),
    cs !! i = Some b ->
    exists b', cs' !! i = Some b' /\
      m_signature b' = m_signature b /\ m_blockType b' = m_blockType b /\
      m_pc b' = m_pc b /\ m_mc b' = m_mc b /\
      exists new, m_awaitingUpdate b' = m_awaitingUpdate b ++ new.

(** [keepsLoop L s s']: from [s] to [s'] the metadata has not shrunk, and
    if entry [L] was a loop it still is, with the target it had, and the
    offsets added to its awaiting list are those of 16-byte entries
    allocated in between (as long as the offsets fit in the 32 bits of an
    element of the list). *)
Definition keepsLoop (L : nat) (s s' : IPIntGenerator) : Prop :=
  metadataSize s <= metadataSize s' /\
  (metadataSize s' < 2 ^ 32 ->
   forall b, m_controlStack s !! L = Some b -> m_blockType b = BlockType.Loop ->
     exists b' new,
       m_controlStack s' !! L = Some b' /\ m_blockType b' = BlockType.Loop /\
       m_pc b' = m_pc b /\ m_mc b' = m_mc b /\
       m_awaitingUpdate b' = m_awaitingUpdate b ++ new /\
       spaced (metadataSize s) new (metadataSize s')).

(* ===================================================================== *)
(** ** The argument layout in words                                       *)
(* ===================================================================== *)

Definition isIntegerType (t : TypeKind) : bool := isI32 t || isI64 t.
Definition isFloatType (t : TypeKind) : bool := isF32 t || isF64 t.

(** The layout as the spec words it: a parameter goes to the next integer
    register slot if it is integer-typed and one remains, else to the next
    float register slot if it is float-typed and one remains, else to the
    next stack slot.  Integer register [k] is slot [k], float register [k]
    is slot [8 + k], and there are eight of each. *)
Fixpoint specLayout (args : list TypeKind) (numGPR numFPR stackOffset : Z) : list Z :=
  match args with
  | [] => []
  | arg :: rest =>
      if isIntegerType arg && bool_decide (numGPR < 8)
      then numGPR :: specLayout rest (numGPR + 1) numFPR stackOffset
      else if isFloatType arg && bool_decide (numFPR < 8)
      then 8 + numFPR :: specLayout rest numGPR (numFPR + 1) stackOffset
      else stackOffset :: specLayout rest numGPR numFPR (stackOffset + 1)
  end.

(** The layout with the float path taken by every parameter that is not
    integer-typed. *)
Fixpoint argumentLayout (args : list TypeKind) (numGPR numFPR stackOffset : Z) : list Z :=
  match args with
  | [] => []
  | arg :: rest =>
      if isIntegerType arg then
        if bool_decide (numGPR < 8)
        then numGPR :: argumentLayout rest (numGPR + 1) numFPR stackOffset
        else stackOffset :: argumentLayout rest numGPR numFPR (stackOffset + 1)
      else
        if bool_decide (numFPR < 8)
        then 8 + numFPR :: argumentLayout rest numGPR (numFPR + 1) stackOffset
        else stackOffset :: argumentLayout rest numGPR numFPR (stackOffset + 1)
  end.

(** The slots of a layout that are stack slots. *)
Definition stackSlots (locations : list Z) : list Z :=
  filter (fun loc => 16 <= loc) locations.

(* ===================================================================== *)
(** ** Sample function bodies                                             *)
(* ===================================================================== *)

(** The generator as the parser leaves it before the first instruction of a
    function of type [signature] whose body starts at offset 3:
    [addArguments], [didFinishParsingLocals], [addTopLevel]. *)
Definition functionStart (signature : FunctionSignature) : IPIntGenerator :=
  addTopLevel signature
    (didFinishParsingLocals (mkParser 3 3 0)
       (addArguments signature (newGenerator (mkModuleInformation [])))).

Definition sig_void : FunctionSignature := mkSignature [] [].
Definition sig_i32_i32 : FunctionSignature := mkSignature [I32] [I32].

(** The parser after an instruction of [len] bytes that ends at [pos]. *)
Definition parserAt (pos len opcode : Z) : FunctionParser :=
  mkParser pos (pos - len) opcode.

(** The body [local.get 0; if; else; br 0; end; end] of a function of type
    [(i32) -> ()], up to the [br], and the two [end]s that close it.  The
    [br 0] is in the else arm and targets the scope of the [if]. *)
Definition sig_i32_void : FunctionSignature := mkSignature [I32] [].

Definition body_if_else_br : list (FunctionParser * Callback) :=
  [(parserAt 5 2 32, CbGetLocal 0); (parserAt 7 2 4, CbIf sig_void);
   (parserAt 8 1 OpType_Else, CbElse 1); (parserAt 10 2 12, CbBranch 1 0)].

Definition body_two_ends : list (FunctionParser * Callback) :=
  [(parserAt 11 1 OpType_End, CbEnd 1); (parserAt 12 1 OpType_End, CbEnd 0)].

(** The body [local.get 0; if; br 0; else; end; end]: the [br 0] is in the
    then arm. *)
Definition body_if_br : list (FunctionParser * Callback) :=
  [(parserAt 5 2 32, CbGetLocal 0); (parserAt 7 2 4, CbIf sig_void);
   (parserAt 9 2 12, CbBranch 1 0)].

Definition body_else_two_ends : list (FunctionParser * Callback) :=
  [(parserAt 10 1 OpType_Else, CbElse 1); (parserAt 11 1 OpType_End, CbEnd 1);
   (parserAt 12 1 OpType_End, CbEnd 0)].

(** The body [local.get 0; block; br 0; end; end]. *)
Definition body_block_br : list (FunctionParser * Callback) :=
  [(parserAt 5 2 32, CbGetLocal 0); (parserAt 7 2 2, CbBlock sig_void);
   (parserAt 9 2 12, CbBranch 1 0)].

Definition body_block_two_ends : list (FunctionParser * Callback) :=
  [(parserAt 10 1 OpType_End, CbEnd 1); (parserAt 11 1 OpType_End, CbEnd 0)].

(** The awaiting list of the entry with index [i]. *)
Definition awaitingOf (i : nat) (s : IPIntGenerator) : option (list Z) :=
  m_awaitingUpdate <$> m_controlStack s !! i.

(* ===================================================================== *)
(** ** Further vocabulary                                                 *)
(* ===================================================================== *)

(** The kinds of scope that no callback converts: [else] only applies to an
    [If] entry and a catch clause to a [Try] or [Catch] entry. *)
Definition stableKind (k : BlockType.t) : bool :=
  match k with
  | BlockType.Block | BlockType.Loop | BlockType.TopLevel => true
  | _ => false
  end.

(** [keepsScope i s s']: from [s] to [s'] the metadata has not shrunk, and
    if entry [i] was of a stable kind it has kept its kind, signature,
    pending offset and loop target, and the offsets added to its awaiting
    list are those of 16-byte entries allocated in between. *)
Definition keepsScope (i : nat) (s s' : IPIntGenerator) : Prop :=
  metadataSize s <= metadataSize s' /\
  (metadataSize s' < 2 ^ 32 ->
   forall b, m_controlStack s !! i = Some b -> stableKind (m_blockType b) = true ->
     exists b' new,
       m_controlStack s' !! i = Some b' /\ m_blockType b' = m_blockType b /\
       m_signature b' = m_signature b /\ m_pendingOffset b' = m_pendingOffset b /\
       m_pc b' = m_pc b /\ m_mc b' = m_mc b /\
       m_awaitingUpdate b' = m_awaitingUpdate b ++ new /\
       spaced (metadataSize s) new (metadataSize s')).

(** [agreeBelow base buf buf']: the two vectors hold the same bytes at every
    offset below [base]. *)
Definition agreeBelow (base : Z) (buf buf' : list Z) : Prop :=
  forall i : nat, Z.of_nat i < base -> buf' !! i = buf !! i.

(** [appends s s']: the step from [s] to [s'] has kept every byte that was
    in the vector and has not shrunk it. *)
Definition appends (s s' : IPIntGenerator) : Prop :=
  agreeBelow (metadataSize s) (metadata s) (metadata s') /\
  metadataSize s <= metadataSize s'.

(** [growsByEntries s s']: the vector has grown by a whole number of 8-byte
    entries. *)
Definition growsByEntries (s s' : IPIntGenerator) : Prop :=
  exists k, 0 <= k /\ metadataSize s' = metadataSize s + 8 * k.

(** The callbacks that overwrite bytes emitted earlier. *)
Definition patches (cb : Callback) : bool :=
  match cb with
  | CbElse _ | CbEnd _ => true
  | _ => false
  end.

(** The offsets at which the end of a scope writes a resolved target: the
    pending offset of an [if] or of the block an [else] opened, the awaiting
    offsets of any other block, of a loop and of the function. *)
Definition patchSites (b : IPIntControlType) : list Z :=
  if isIf b then [m_pendingOffset b]
  else if isBlock b then
    if bool_decide (m_pendingOffset b <> -1) then [m_pendingOffset b]
    else m_awaitingUpdate b
  else if isLoop b || isTopLevel b then m_awaitingUpdate b
  else [].

(** The callbacks that emit nothing whatever the state. *)
Definition emitsNothing (call : FunctionParser * Callback) : bool :=
  match call.2 with
  | CbOperandFree _ | CbSilent _ => true
  | _ => false
  end.

(** The tag [getGlobal] and [setGlobal] write for the binding mode of a
    global. *)
Definition bindingModeTag (mode : BindingMode) : Z :=
  match mode with EmbeddedInInstance => 0 | Portable => 1 end.

(** Where [addCallCommonData] records the arguments of a call: the stack
    offsets it writes in the slots of the integer registers, those it writes
    in the slots of the float registers, and those it collects in
    [locations], each in the order of the arguments.  The tests are those
    of the loop over the arguments. *)
Fixpoint callLayout (cpu : CPU) (args : list TypeKind) (stackOffset gprsUsed fprsUsed : Z)
    : list Z * list Z * list Z :=
  match args with
  | [] => ([], [], [])
  | argType :: rest =>
      if (isI32 argType || isI64 argType) && negb (bool_decide (gprsUsed = maxGPRs cpu))
      then
        let '(gprs, fprs, locations) :=
          callLayout cpu rest (wrap_u 16 (stackOffset - 1))
            (wrap_u 8 (gprsUsed + 1)) fprsUsed in
        (stackOffset :: gprs, fprs, locations)
      else if (isF32 argType || isF64 argType) && negb (bool_decide (fprsUsed = maxFPRs))
      then
        let '(gprs, fprs, locations) :=
          callLayout cpu rest (wrap_u 16 (stackOffset - 1))
            gprsUsed (wrap_u 8 (fprsUsed + 1)) in
        (gprs, stackOffset :: fprs, locations)
      else
        let '(gprs, fprs, locations) :=
          callLayout cpu rest (wrap_u 16 (stackOffset - 1)) gprsUsed fprsUsed in
        (gprs, fprs, stackOffset :: locations)
  end.

(** The 16 bytes of the slots of one kind of register: 2 bytes for each
    offset written, zero in the slots that are left. *)
Definition registerSlots (offsets : list Z) : list Z :=
  concat (le_bytes 2 <$> offsets) ++ replicate (16 - 2 * length offsets) 0.

(** The values the [uint16_t stackOffset] takes in the loop over [n]
    arguments, from its initial value on. *)
Fixpoint stackOffsetsFrom (stackOffset : Z) (n : nat) : list Z :=
  match n with
  | O => []
  | S n' => stackOffset :: stackOffsetsFrom (wrap_u 16 (stackOffset - 1)) n'
  end.

(* ===================================================================== *)
(** * Properties                                                          *)
(* ===================================================================== *)

(** ** Byte images *)

Section bits.

Lemma length_le_bytes n v : length (le_bytes n v) = n.
Proof. revert v; induction n as [|n IH]; intros v; simpl; [done|]. by rewrite IH. Qed.

Lemma le_value_le_bytes n v : le_value (le_bytes n v) = v mod 256 ^ Z.of_nat n.
Proof.
  revert v; induction n as [|n IH]; intros v.
  - simpl. by rewrite Z.mod_1_r.
  - cbn [le_bytes le_value]. rewrite IH.
    rewrite Nat2Z.inj_succ, Z.pow_succ_r by lia.
    assert (Hp : 0 < 256 ^ Z.of_nat n) by (apply Z.pow_pos_nonneg; lia).
    rewrite Z.rem_mul_r by lia. lia.
Qed.

Lemma le_value_le_bytes_small n v :
  0 <= v < 256 ^ Z.of_nat n -> le_value (le_bytes n v) = v.
Proof. intros H. rewrite le_value_le_bytes. by apply Z.mod_small. Qed.

(** Only the low [8 * n] bits of the source reach the buffer. *)
Lemma le_bytes_mod n v : le_bytes n (v mod 256 ^ Z.of_nat n) = le_bytes n v.
Proof.
  revert v; induction n as [|n IH]; intros v; [done|].
  cbn [le_bytes].
  rewrite Nat2Z.inj_succ, Z.pow_succ_r by lia.
  assert (Hp : 0 < 256 ^ Z.of_nat n) by (apply Z.pow_pos_nonneg; lia).
  rewrite Z.rem_mul_r by lia.
  f_equal.
  - rewrite (Z.mul_comm 256), Z.mod_add by lia. apply Z.mod_mod; lia.
  - rewrite <- (IH (v / 256)). f_equal.
    rewrite (Z.add_comm (v mod 256)), (Z.mul_comm 256).
    rewrite Z.div_add_l by lia.
    rewrite (Z.div_small (v mod 256) 256) by (apply Z.mod_pos_bound; lia). lia.
Qed.

Lemma le_bytes_4_wrap v : le_bytes 4 (wrap_u 32 v) = le_bytes 4 v.
Proof. apply (le_bytes_mod 4 v). Qed.

Lemma wrap_u_small w v : 0 <= v < 2 ^ w -> wrap_u w v = v.
Proof. intros H. by apply Z.mod_small. Qed.

Lemma wrap_s32_small v : - 2 ^ 31 <= v < 2 ^ 31 -> wrap_s32 v = v.
Proof. intros H. unfold wrap_s32. rewrite Z.mod_small; lia. Qed.

(** Storing an [int32_t] through a [uint32_t] temporary keeps the bits. *)
Lemma wrap_u_wrap_s32 v : wrap_u 32 (wrap_s32 v) = wrap_u 32 v.
Proof.
  unfold wrap_u, wrap_s32.
  rewrite <- Zminus_mod_idemp_l.
  rewrite Z.mod_mod by lia.
  rewrite Zminus_mod_idemp_l.
  replace (v + 2 ^ 31 - 2 ^ 31) with v by lia. done.
Qed.

Lemma le_bytes_4_wrap_s32 v : le_bytes 4 (wrap_s32 v) = le_bytes 4 v.
Proof. by rewrite <- le_bytes_4_wrap, wrap_u_wrap_s32, le_bytes_4_wrap. Qed.

End bits.

(** ** The buffer: reads after writes *)

Section buffer.

Implicit Types (buf bs : list Z) (off : Z).

Lemma length_writeBytes buf off bs : length (writeBytes buf off bs) = length buf.
Proof.
  unfold writeBytes. case_decide as H; [|done].
  rewrite !length_app, length_take, length_drop. lia.
Qed.

(** A write into the tail of the vector, over bytes of the same length. *)
Lemma writeBytes_app buf old new post off :
  off = Z.of_nat (length buf) -> length old = length new ->
  writeBytes (buf ++ old ++ post) off new = buf ++ new ++ post.
Proof.
  intros -> Hlen. unfold writeBytes.
  rewrite decide_True by (rewrite !length_app; lia).
  rewrite Nat2Z.id, take_app_length. f_equal. f_equal.
  rewrite drop_app_ge by lia.
  replace (length buf + length new - length buf)%nat with (length old) by lia.
  by rewrite drop_app_length.
Qed.

(** The same, deeper in the tail. *)
Lemma writeBytes_app_mid buf pre old new post off :
  off = Z.of_nat (length buf) + Z.of_nat (length pre) -> length old = length new ->
  writeBytes (buf ++ pre ++ old ++ post) off new = buf ++ pre ++ new ++ post.
Proof.
  intros Hoff Hlen.
  rewrite !(app_assoc buf pre). apply writeBytes_app; [|done].
  rewrite length_app. lia.
Qed.

Lemma readBytes_writeBytes_eq buf off bs :
  0 <= off -> off + Z.of_nat (length bs) <= Z.of_nat (length buf) ->
  readBytes (writeBytes buf off bs) off (length bs) = bs.
Proof.
  intros H0 H1. unfold readBytes, writeBytes. rewrite decide_True by done.
  rewrite drop_app_length' by (rewrite length_take; lia).
  by rewrite take_app_length.
Qed.

Lemma lookup_writeBytes_outside buf off bs (i : nat) :
  (Z.of_nat i < off \/ off + Z.of_nat (length bs) <= Z.of_nat i) ->
  writeBytes buf off bs !! i = buf !! i.
Proof.
  intros Hi. unfold writeBytes. case_decide as H; [|done].
  destruct Hi as [Hi|Hi].
  - rewrite lookup_app_l by (rewrite length_take; lia).
    apply lookup_take_lt. lia.
  - rewrite lookup_app_r by (rewrite length_take; lia).
    rewrite lookup_app_r by (rewrite length_take; lia).
    rewrite lookup_drop, length_take. f_equal. lia.
Qed.

Lemma readBytes_ext buf buf' off n :
  0 <= off ->
  (forall i : nat, Z.to_nat off <= i < Z.to_nat off + n -> buf' !! i = buf !! i)%nat ->
  readBytes buf' off n = readBytes buf off n.
Proof.
  intros H0 Hext. unfold readBytes. apply list_eq. intros i.
  destruct (decide (i < n)%nat) as [Hi|Hi].
  - rewrite !lookup_take_lt, !lookup_drop by done. apply Hext. lia.
  - by rewrite !lookup_take_ge by lia.
Qed.

(** A write does not disturb a read of bytes it does not cover. *)
Lemma readBytes_writeBytes_disjoint buf off bs off' n :
  0 <= off' ->
  (off' + Z.of_nat n <= off \/ off + Z.of_nat (length bs) <= off') ->
  readBytes (writeBytes buf off bs) off' n = readBytes buf off' n.
Proof.
  intros H0 Hd. apply readBytes_ext; [done|].
  intros i Hi. apply lookup_writeBytes_outside. lia.
Qed.

(** Appending does not disturb a read inside the old vector. *)
Lemma readBytes_app_l buf ext off n :
  0 <= off -> off + Z.of_nat n <= Z.of_nat (length buf) ->
  readBytes (buf ++ ext) off n = readBytes buf off n.
Proof.
  intros H0 H1. apply readBytes_ext; [done|].
  intros i Hi. apply lookup_app_l. lia.
Qed.

Lemma readBytes_app_r buf bs rest off :
  off = Z.of_nat (length buf) ->
  readBytes (buf ++ bs ++ rest) off (length bs) = bs.
Proof.
  intros ->. unfold readBytes. rewrite Nat2Z.id, drop_app_length.
  by rewrite take_app_length.
Qed.

(** Eight bytes read as two words. *)
Lemma readBytes_split buf off (n m : nat) :
  0 <= off ->
  readBytes buf off (n + m) = readBytes buf off n ++ readBytes buf (off + Z.of_nat n) m.
Proof.
  intros H0. unfold readBytes.
  rewrite <- take_take_drop, drop_drop.
  do 3 f_equal. lia.
Qed.

End buffer.

(** ** The callbacks in closed form *)

Arguments writeBytes : simpl never.
Arguments readBytes : simpl never.
Arguments le_bytes : simpl never.
Arguments wrap_u : simpl never.
Arguments wrap_s32 : simpl never.
Arguments branchEntry : simpl never.
Arguments targetBytes : simpl never.

(** Side conditions on concrete inputs are settled by evaluation. *)
Ltac by_evaluation :=
  vm_compute; repeat split; first [reflexivity | intros; discriminate].

Section closed_forms.

Implicit Types (s : IPIntGenerator) (p : FunctionParser) (b : IPIntControlType).

(** A state is its three components. *)
Lemma generator_eq s s' :
  m_generator s = m_generator s' -> m_info s = m_info s' ->
  m_controlStack s = m_controlStack s' -> s = s'.
Proof. destruct s, s'; simpl; intros; by subst. Qed.

Lemma set_metadata_id s : set_metadata (metadata s) (m_generator s) = m_generator s.
Proof. unfold metadata. by destruct (m_generator s). Qed.

Lemma metadata_set_metadata bytes md : m_metadata (set_metadata bytes md) = bytes.
Proof. done. Qed.

Lemma set_metadata_twice bytes bytes' md :
  set_metadata bytes (set_metadata bytes' md) = set_metadata bytes md.
Proof. done. Qed.

Lemma metadataSize_nonneg s : 0 <= metadataSize s.
Proof. unfold metadataSize. lia. Qed.

(** [WRITE_TO_METADATA] and [addBlankSpace] touch the byte vector only. *)
Lemma WRITE_TO_METADATA_eq off v w s :
  WRITE_TO_METADATA off v w s =
  {| m_generator := set_metadata (writeBytes (metadata s) off (le_bytes w v)) (m_generator s);
     m_info := m_info s; m_controlStack := m_controlStack s |}.
Proof. done. Qed.

Lemma addBlankSpace_eq n s :
  addBlankSpace n s =
  {| m_generator := set_metadata (metadata s ++ replicate (Z.to_nat n) 0) (m_generator s);
     m_info := m_info s; m_controlStack := m_controlStack s |}.
Proof. done. Qed.

Lemma addRawValue_eq v s :
  addRawValue v s =
  {| m_generator := set_metadata (metadata s ++ le_bytes 8 v) (m_generator s);
     m_info := m_info s; m_controlStack := m_controlStack s |}.
Proof.
  unfold addRawValue. rewrite WRITE_TO_METADATA_eq, addBlankSpace_eq. cbn.
  rewrite set_metadata_twice. f_equal. f_equal.
  rewrite <- (app_nil_r (replicate _ _)), <- (app_nil_r (le_bytes 8 v)).
  apply writeBytes_app; [done|]. by rewrite length_le_bytes.
Qed.

Lemma addLEB128ConstantInt32AndLength_eq v len s :
  addLEB128ConstantInt32AndLength v len s =
  {| m_generator :=
       set_metadata (metadata s ++ le_bytes 4 v ++ le_bytes 4 len) (m_generator s);
     m_info := m_info s; m_controlStack := m_controlStack s |}.
Proof.
  unfold addLEB128ConstantInt32AndLength.
  rewrite !WRITE_TO_METADATA_eq, addBlankSpace_eq. cbn.
  rewrite !set_metadata_twice. f_equal. f_equal.
  change (replicate (Z.to_nat 8) 0) with (replicate 4 0 ++ replicate 4 0 ++ @nil Z).
  rewrite (writeBytes_app (metadata s) (replicate 4 0) (le_bytes 4 v)); [|done..].
  rewrite <- (app_nil_r (le_bytes 4 len)).
  apply writeBytes_app_mid; [|done].
  rewrite length_le_bytes. unfold metadataSize. lia.
Qed.

(** [addBranch] appends one branch entry and registers its offset. *)
Lemma addBranch_eq s block b stackSize p :
  m_controlStack s !! block = Some b ->
  addBranch block stackSize p s =
  {| m_generator :=
       set_metadata (metadata s ++ branchEntry b stackSize (currentPC p s)) (m_generator s);
     m_info := m_info s;
     m_controlStack :=
       <[block := set_awaitingUpdate (m_awaitingUpdate b ++ [wrap_u 32 (metadataSize s)]) b]>
         (m_controlStack s) |}.
Proof.
  intros Hb. unfold addBranch. rewrite Hb.
  rewrite !WRITE_TO_METADATA_eq, addBlankSpace_eq. cbn.
  rewrite !set_metadata_twice. f_equal. f_equal. unfold branchEntry.
  change (replicate (Z.to_nat 16) 0)
    with (replicate 8 0 ++ replicate 2 0 ++ replicate 2 0 ++ replicate 4 0 ++ @nil Z).
  rewrite (writeBytes_app_mid (metadata s) (replicate 8 0) (replicate 2 0)
             (le_bytes 2 (stackSize - branchTargetArity b)));
    [|unfold metadataSize; simpl; lia|done].
  rewrite (app_assoc (replicate 8 0)).
  rewrite (writeBytes_app_mid (metadata s) _ (replicate 2 0)
             (le_bytes 2 (branchTargetArity b)));
    [|rewrite length_app, length_le_bytes; unfold metadataSize; simpl; lia|done].
  rewrite (app_assoc (replicate 8 0 ++ _)).
  rewrite (writeBytes_app_mid (metadata s) _ (replicate 4 0)
             (le_bytes 4 (currentPC p s)));
    [|rewrite !length_app, !length_le_bytes; unfold metadataSize, currentPC; simpl; lia|done].
  by rewrite <- !app_assoc, app_nil_r.
Qed.

End closed_forms.

(** ** Resolving a target: two adjacent words *)

Section patching.

Implicit Types (s : IPIntGenerator) (p : FunctionParser) (b : IPIntControlType).

Lemma length_targetBytes pc mc : length (targetBytes pc mc) = 8%nat.
Proof. unfold targetBytes. by rewrite length_app, !length_le_bytes. Qed.

Lemma writeBytes_adjacent (buf bs1 bs2 : list Z) off :
  0 <= off ->
  off + Z.of_nat (length bs1) + Z.of_nat (length bs2) <= Z.of_nat (length buf) ->
  writeBytes (writeBytes buf off bs1) (off + Z.of_nat (length bs1)) bs2
  = writeBytes buf off (bs1 ++ bs2).
Proof.
  intros H0 H1.
  unfold writeBytes at 2. rewrite decide_True by lia.
  unfold writeBytes at 2. rewrite decide_True by (rewrite length_app; lia).
  set (D := drop (Z.to_nat off + length bs1) buf).
  rewrite <- (take_drop (length bs2) D).
  rewrite (writeBytes_app_mid (take (Z.to_nat off) buf) bs1 (take (length bs2) D) bs2).
  - rewrite <- app_assoc. do 3 f_equal. subst D. rewrite drop_drop, length_app.
    f_equal. lia.
  - rewrite length_take. lia.
  - subst D. rewrite length_take, length_drop. lia.
Qed.

Lemma metadataSize_WRITE off v w s :
  metadataSize (WRITE_TO_METADATA off v w s) = metadataSize s.
Proof. unfold metadataSize. cbn. by rewrite length_writeBytes. Qed.

Lemma currentPC_WRITE off v w s p : currentPC p (WRITE_TO_METADATA off v w s) = currentPC p s.
Proof. done. Qed.

Lemma metadataSize_addBlankSpace n s :
  0 <= n -> metadataSize (addBlankSpace n s) = metadataSize s + n.
Proof.
  intros Hn. unfold metadataSize. cbn. rewrite length_app, length_replicate.
  unfold metadata. lia.
Qed.

(** Inside the vector, [patchTarget] is one write of eight bytes. *)
Lemma patchTarget_eq pc mc s x :
  0 <= x -> x + 8 <= metadataSize s ->
  patchTarget pc mc s x =
  {| m_generator :=
       set_metadata (writeBytes (metadata s) x (targetBytes pc mc)) (m_generator s);
     m_info := m_info s; m_controlStack := m_controlStack s |}.
Proof.
  intros H0 H1. unfold patchTarget. rewrite !WRITE_TO_METADATA_eq. cbn.
  rewrite set_metadata_twice. f_equal. f_equal. unfold targetBytes.
  rewrite <- writeBytes_adjacent.
  - by rewrite length_le_bytes.
  - done.
  - rewrite !length_le_bytes. unfold metadataSize in H1. lia.
Qed.

Lemma metadataSize_patchTarget pc mc s x :
  metadataSize (patchTarget pc mc s x) = metadataSize s.
Proof. unfold patchTarget. by rewrite !metadataSize_WRITE. Qed.

Lemma controlStack_patchTarget pc mc s x :
  m_controlStack (patchTarget pc mc s x) = m_controlStack s.
Proof. done. Qed.

Lemma currentPC_patchTarget pc mc s x p :
  currentPC p (patchTarget pc mc s x) = currentPC p s.
Proof. done. Qed.

Lemma readBytes_write_target (buf : list Z) x pc mc :
  0 <= x -> x + 8 <= Z.of_nat (length buf) ->
  readBytes (writeBytes buf x (targetBytes pc mc)) x 8 = targetBytes pc mc.
Proof.
  intros H0 H1. pose proof (readBytes_writeBytes_eq buf x (targetBytes pc mc)) as H.
  rewrite length_targetBytes in H. apply H; [done|]. lia.
Qed.

(** Reading a resolved pair back. *)
Lemma readBytes_targetBytes (buf : list Z) x pc mc :
  0 <= x -> readBytes buf x 8 = targetBytes pc mc ->
  readBytes buf x 4 = le_bytes 4 pc /\ readBytes buf (x + 4) 4 = le_bytes 4 mc.
Proof.
  intros H0 Hr.
  change 8%nat with (4 + 4)%nat in Hr. rewrite readBytes_split in Hr by done.
  change (Z.of_nat 4) with 4 in Hr.
  assert (length (readBytes buf x 4) = 4%nat) as Hl4.
  { assert (length (readBytes buf x 4 ++ readBytes buf (x + 4) 4) = 8%nat) as Hl.
    { rewrite Hr. apply length_targetBytes. }
    rewrite length_app in Hl. unfold readBytes in *. rewrite !length_take in *. lia. }
  apply app_inj_1 in Hr; [done|by rewrite length_le_bytes].
Qed.

Lemma load_targetBytes (buf : list Z) x pc mc :
  0 <= x -> readBytes buf x 8 = targetBytes pc mc ->
  load 4 buf x = wrap_u 32 pc /\ load 4 buf (x + 4) = wrap_u 32 mc.
Proof.
  intros H0 Hr. destruct (readBytes_targetBytes buf x pc mc H0 Hr) as [Hpc Hmc].
  unfold load. rewrite Hpc, Hmc. split; apply (le_value_le_bytes 4).
Qed.

End patching.

(** ** [else] in closed form *)

Section else_closed_form.

Implicit Types (s : IPIntGenerator) (p : FunctionParser) (b : IPIntControlType).

(** [if ... end]: the placeholder is resolved, nothing is allocated, and
    the entry is replaced by a fresh [Block] entry. *)
Lemma addElseToUnreachable_at_end s block b p :
  m_controlStack s !! block = Some b ->
  currentOpcode p = OpType_End ->
  0 <= m_pendingOffset b -> m_pendingOffset b + 8 <= metadataSize s ->
  addElseToUnreachable block p s =
  {| m_generator :=
       set_metadata
         (writeBytes (metadata s) (m_pendingOffset b)
            (targetBytes (currentPC p s) (metadataSize s))) (m_generator s);
     m_info := m_info s;
     m_controlStack :=
       <[block := set_pendingOffset (-1)
                    (ControlType (m_signature b) BlockType.Block CatchKind.Catch)]>
         (m_controlStack s) |}.
Proof.
  intros Hb Hop H0 H1. unfold addElseToUnreachable. rewrite Hb.
  rewrite bool_decide_eq_true_2 by done.
  rewrite metadataSize_WRITE.
  change (WRITE_TO_METADATA (m_pendingOffset b + 4) (metadataSize s) 4
            (WRITE_TO_METADATA (m_pendingOffset b) (currentPC p s) 4 s))
    with (patchTarget (currentPC p s) (metadataSize s) s (m_pendingOffset b)).
  by rewrite patchTarget_eq.
Qed.

(** A real [else]: the placeholder is resolved to the position after the
    entry of the [else], which is allocated next. *)
Lemma addElseToUnreachable_at_else s block b p :
  m_controlStack s !! block = Some b ->
  currentOpcode p <> OpType_End ->
  0 <= m_pendingOffset b -> m_pendingOffset b + 8 <= metadataSize s ->
  addElseToUnreachable block p s =
  {| m_generator :=
       set_metadata
         (writeBytes (metadata s) (m_pendingOffset b)
            (targetBytes (currentPC p s) (metadataSize s + 8)) ++ replicate 8 0)
         (m_generator s);
     m_info := m_info s;
     m_controlStack :=
       <[block := set_pendingOffset (wrap_s32 (metadataSize s))
                    (ControlType (m_signature b) BlockType.Block CatchKind.Catch)]>
         (m_controlStack s) |}.
Proof.
  intros Hb Hop H0 H1. unfold addElseToUnreachable. rewrite Hb.
  rewrite bool_decide_eq_false_2 by done.
  rewrite !metadataSize_WRITE.
  change (WRITE_TO_METADATA (m_pendingOffset b + 4) (metadataSize s + 8) 4
            (WRITE_TO_METADATA (m_pendingOffset b) (currentPC p s) 4 s))
    with (patchTarget (currentPC p s) (metadataSize s + 8) s (m_pendingOffset b)).
  by rewrite patchTarget_eq.
Qed.

End else_closed_form.

(* ===================================================================== *)
(** * Main results                                                        *)
(* ===================================================================== *)

(** ** Operand-free instructions *)

(** C9.  Every integer and floating-point arithmetic, bitwise, comparison,
    extension, truncation and conversion callback returns the generator as
    it received it: the metadata buffer keeps its length and its bytes, and
    so does every other part of the state. *)
Theorem operand_free_leaves_metadata (op : OperandFreeOp) (p : FunctionParser)
    (s : IPIntGenerator) :
  invoke (CbOperandFree op) p s = s /\
  metadata (invoke (CbOperandFree op) p s) = metadata s /\
  metadataSize (invoke (CbOperandFree op) p s) = metadataSize s.
Proof.
  assert (H : invoke (CbOperandFree op) p s = s) by (destruct op; reflexivity).
  by rewrite H.
Qed.

(** ** Locals *)

(** C10.  [local.get] and [local.set] of the same index at the same parser
    position leave the same generator behind: both append the same eight
    bytes, the resolved slot and the length of the instruction. *)
Theorem getLocal_setLocal_same_entry (index : Z) (p : FunctionParser)
    (s : IPIntGenerator) :
  getLocal index p s = setLocal index p s /\
  exists slot : Z,
    metadata (getLocal index p s)
      = metadata s ++ le_bytes 4 slot ++ le_bytes 4 (getCurrentInstructionLength p) /\
    metadata (setLocal index p s)
      = metadata s ++ le_bytes 4 slot ++ le_bytes 4 (getCurrentInstructionLength p).
Proof.
  split; [reflexivity|].
  unfold setLocal, getLocal. case_bool_decide.
  - eexists. rewrite addLEB128ConstantInt32AndLength_eq. split; reflexivity.
  - eexists. rewrite addLEB128ConstantInt32AndLength_eq. split; reflexivity.
Qed.

(** ** Branches *)

Section branch_entry.

Implicit Types (s : IPIntGenerator) (p : FunctionParser) (b : IPIntControlType).

(** The fields of a branch entry that lies at the end of the vector. *)
Lemma readBytes_branchEntry (buf : list Z) b d pc :
  readBytes (buf ++ branchEntry b d pc) (Z.of_nat (length buf)) 8 = replicate 8 0 /\
  readBytes (buf ++ branchEntry b d pc) (Z.of_nat (length buf) + 8) 2
    = le_bytes 2 (d - branchTargetArity b) /\
  readBytes (buf ++ branchEntry b d pc) (Z.of_nat (length buf) + 10) 2
    = le_bytes 2 (branchTargetArity b) /\
  readBytes (buf ++ branchEntry b d pc) (Z.of_nat (length buf) + 12) 4 = le_bytes 4 pc.
Proof.
  unfold branchEntry. repeat split.
  - by apply (readBytes_app_r buf (replicate 8 0)).
  - rewrite (app_assoc buf).
    apply (readBytes_app_r _ (le_bytes 2 _)). rewrite length_app. simpl. lia.
  - rewrite (app_assoc buf), (app_assoc (buf ++ _)).
    apply (readBytes_app_r _ (le_bytes 2 _)).
    rewrite !length_app, length_le_bytes. simpl. lia.
  - rewrite (app_assoc buf), (app_assoc (buf ++ _)), (app_assoc ((buf ++ _) ++ _)).
    rewrite <- (app_nil_r (le_bytes 4 pc)).
    apply (readBytes_app_r _ (le_bytes 4 _)).
    rewrite !length_app, !length_le_bytes. simpl. lia.
Qed.

Lemma length_branchEntry b d pc : length (branchEntry b d pc) = 16%nat.
Proof. unfold branchEntry. by rewrite !length_app, !length_le_bytes. Qed.

End branch_entry.

(** C3, as amended.  [addBranch] appends exactly one 16-byte entry: eight
    zero bytes for the pair to be resolved, [d - a] in two bytes, [a] in two
    bytes and the resume PC in four, each field holding its value modulo
    the width of the field; and it appends the offset of the entry to the
    awaiting list of the target.  When [a <= d] and both [d - a] and [a] fit
    in 16 bits, the two stored counts add up to the depth [d]. *)
Theorem addBranch_entry (s : IPIntGenerator) (block : nat) (b : IPIntControlType)
    (stackSize : Z) (p : FunctionParser) :
  m_controlStack s !! block = Some b ->
  metadataSize s < 2 ^ 32 ->
  metadata (addBranch block stackSize p s)
    = metadata s ++ branchEntry b stackSize (currentPC p s) /\
  metadataSize (addBranch block stackSize p s) = metadataSize s + 16 /\
  load 2 (metadata (addBranch block stackSize p s)) (metadataSize s + 8)
    = wrap_u 16 (stackSize - branchTargetArity b) /\
  load 2 (metadata (addBranch block stackSize p s)) (metadataSize s + 10)
    = wrap_u 16 (branchTargetArity b) /\
  load 4 (metadata (addBranch block stackSize p s)) (metadataSize s + 12)
    = wrap_u 32 (currentPC p s) /\
  m_controlStack (addBranch block stackSize p s) !! block
    = Some (set_awaitingUpdate (m_awaitingUpdate b ++ [metadataSize s]) b) /\
  (branchTargetArity b <= stackSize ->
   stackSize - branchTargetArity b < 2 ^ 16 -> branchTargetArity b < 2 ^ 16 ->
   load 2 (metadata (addBranch block stackSize p s)) (metadataSize s + 8)
     + load 2 (metadata (addBranch block stackSize p s)) (metadataSize s + 10)
   = stackSize).
Proof.
  intros Hb Hsize.
  pose proof (addBranch_eq s block b stackSize p Hb) as Heq.
  assert (Hm : metadata (addBranch block stackSize p s)
               = metadata s ++ branchEntry b stackSize (currentPC p s))
    by (by rewrite Heq).
  assert (Hc : m_controlStack (addBranch block stackSize p s)
               = <[block := set_awaitingUpdate
                     (m_awaitingUpdate b ++ [wrap_u 32 (metadataSize s)]) b]>
                   (m_controlStack s))
    by (by rewrite Heq).
  assert (Hs : metadataSize (addBranch block stackSize p s) = metadataSize s + 16).
  { unfold metadataSize. rewrite Hm, length_app, length_branchEntry. lia. }
  rewrite Hm, Hc, Hs. clear Heq Hm Hc Hs.
  destruct (readBytes_branchEntry (metadata s) b stackSize (currentPC p s))
    as (_ & Hpop & Har & Hpc).
  fold (metadataSize s) in Hpop, Har, Hpc.
  assert (Hl2 : forall v, le_value (le_bytes 2 v) = wrap_u 16 v)
    by (intros v; apply (le_value_le_bytes 2)).
  assert (Hl4 : forall v, le_value (le_bytes 4 v) = wrap_u 32 v)
    by (intros v; apply (le_value_le_bytes 4)).
  unfold load. rewrite Hpop, Har, Hpc, !Hl2, Hl4.
  repeat split.
  - rewrite list_lookup_insert_eq by (by eapply lookup_lt_Some).
    rewrite wrap_u_small; [done|]. pose proof (metadataSize_nonneg s). lia.
  - intros Hle Hpopfit Harfit.
    assert (0 <= branchTargetArity b).
    { unfold branchTargetArity, argumentCount, returnCount. destruct (isLoop b); lia. }
    rewrite !wrap_u_small by lia. lia.
Qed.

(** Witness of [addBranch_entry]: [br 0] at stack depth 1 in a function
    that returns one [i32]. *)
Lemma addBranch_entry_witness :
  metadata (addBranch 0 1 (parserAt 7 2 12) (functionStart sig_i32_i32))
    = metadata (functionStart sig_i32_i32)
        ++ branchEntry (ControlType sig_i32_i32 BlockType.TopLevel CatchKind.Catch) 1 4 /\
  load 2 (metadata (addBranch 0 1 (parserAt 7 2 12) (functionStart sig_i32_i32))) 8
    + load 2 (metadata (addBranch 0 1 (parserAt 7 2 12) (functionStart sig_i32_i32))) 10
    = 1.
Proof.
  pose proof (addBranch_entry (functionStart sig_i32_i32) 0
                (ControlType sig_i32_i32 BlockType.TopLevel CatchKind.Catch) 1
                (parserAt 7 2 12) eq_refl eq_refl) as (H1 & _ & _ & _ & _ & _ & H7).
  split; [exact H1|].
  apply H7; by_evaluation.
Defined.

(** C3, as stated, fails on a deep operand stack: with 65536 values on the
    stack and a target of arity 0 the two bytes of "values to pop" hold 0,
    and the stored counts do not add up to the depth. *)
Lemma addBranch_deep_stack_counterexample :
  load 2 (metadata (addBranch 0 65536 (parserAt 131077 2 12) (functionStart sig_void))) 8
    <> 65536 - 0 /\
  load 2 (metadata (addBranch 0 65536 (parserAt 131077 2 12) (functionStart sig_void))) 8
    + load 2 (metadata (addBranch 0 65536 (parserAt 131077 2 12) (functionStart sig_void))) 10
    <> 65536.
Proof. vm_compute. split; congruence. Qed.

(** ** [if], [else] and [end] *)

Section if_else.

Implicit Types (s : IPIntGenerator) (p : FunctionParser) (b : IPIntControlType).

(** [addIf] allocates one 8-byte placeholder and one entry for the PC after
    the header, and records the offset of the placeholder in the entry. *)
Lemma addIf_eq signature p s :
  addIf signature p s =
  {| m_generator :=
       set_metadata (metadata s ++ replicate 8 0 ++ le_bytes 8 (currentPC p s))
         (m_generator s);
     m_info := m_info s;
     m_controlStack :=
       m_controlStack s ++
         [set_pendingOffset (wrap_s32 (metadataSize s))
            (ControlType signature BlockType.If CatchKind.Catch)] |}.
Proof.
  unfold addIf. rewrite addRawValue_eq, addBlankSpace_eq. cbn.
  by rewrite set_metadata_twice, <- app_assoc.
Qed.

End if_else.

(** C4, as amended.  A real [else] overwrites the placeholder of its [if]
    with PC = the current PC (the offset just after the [else] opcode, with
    nothing subtracted) and MC = the size of the metadata once the 8-byte
    entry of the [else] itself has been allocated. *)
Theorem addElse_resolves_if_placeholder (s : IPIntGenerator) (block : nat)
    (b : IPIntControlType) (p : FunctionParser) :
  m_controlStack s !! block = Some b ->
  currentOpcode p <> OpType_End ->
  0 <= m_pendingOffset b -> m_pendingOffset b + 8 <= metadataSize s ->
  0 <= currentPC p s < 2 ^ 32 -> metadataSize s + 8 < 2 ^ 32 ->
  metadataSize (addElseToUnreachable block p s) = metadataSize s + 8 /\
  readBytes (metadata (addElseToUnreachable block p s)) (m_pendingOffset b) 8
    = targetBytes (currentPC p s) (metadataSize (addElseToUnreachable block p s)) /\
  load 4 (metadata (addElseToUnreachable block p s)) (m_pendingOffset b)
    = currentPC p s /\
  load 4 (metadata (addElseToUnreachable block p s)) (m_pendingOffset b + 4)
    = metadataSize (addElseToUnreachable block p s).
Proof.
  intros Hb Hop H0 H1 Hpc Hmc.
  pose proof (addElseToUnreachable_at_else s block b p Hb Hop H0 H1) as Heq.
  assert (Hm : metadata (addElseToUnreachable block p s)
               = writeBytes (metadata s) (m_pendingOffset b)
                   (targetBytes (currentPC p s) (metadataSize s + 8)) ++ replicate 8 0)
    by (by rewrite Heq).
  assert (Hs : metadataSize (addElseToUnreachable block p s) = metadataSize s + 8).
  { unfold metadataSize. rewrite Hm, length_app, length_writeBytes. simpl. lia. }
  assert (Hr : readBytes (metadata (addElseToUnreachable block p s)) (m_pendingOffset b) 8
               = targetBytes (currentPC p s) (metadataSize s + 8)).
  { rewrite Hm. rewrite readBytes_app_l.
    - apply readBytes_write_target; [done|]. unfold metadataSize in H1. lia.
    - done.
    - rewrite length_writeBytes. unfold metadataSize in H1. lia. }
  destruct (load_targetBytes _ _ _ _ H0 Hr) as [Hl1 Hl2].
  rewrite Hs, Hr, Hl1, Hl2.
  pose proof (metadataSize_nonneg s).
  rewrite !wrap_u_small by lia. done.
Qed.

(** Witness of [addElse_resolves_if_placeholder]: [if else] at the start of
    a function body. *)
Lemma addElse_resolves_if_placeholder_witness :
  load 4 (metadata (addElseToUnreachable 1 (parserAt 6 1 OpType_Else)
                      (addIf sig_void (parserAt 5 2 4) (functionStart sig_void)))) 0
    = 3 /\
  load 4 (metadata (addElseToUnreachable 1 (parserAt 6 1 OpType_Else)
                      (addIf sig_void (parserAt 5 2 4) (functionStart sig_void)))) (0 + 4)
    = 24.
Proof.
  pose proof (addElse_resolves_if_placeholder
                (addIf sig_void (parserAt 5 2 4) (functionStart sig_void)) 1
                (set_pendingOffset 0 (ControlType sig_void BlockType.If CatchKind.Catch))
                (parserAt 6 1 OpType_Else) eq_refl) as H.
  destruct H as (Hs & _ & H3 & H4); [by_evaluation..|].
  split; [exact H3|exact H4].
Defined.

(** C4, as stated, fails: after [if else] the placeholder of the [if]
    holds the current PC, 3, and not the current PC minus one. *)
Lemma addElse_pc_counterexample :
  load 4 (metadata (addElseToUnreachable 1 (parserAt 6 1 OpType_Else)
                      (addIf sig_void (parserAt 5 2 4) (functionStart sig_void)))) 0
  <> currentPC (parserAt 6 1 OpType_Else)
       (addIf sig_void (parserAt 5 2 4) (functionStart sig_void)) - 1.
Proof. vm_compute. congruence. Qed.

(** C5.  When [else] is synthesised for an [if] without [else] (the current
    opcode is [end]), the placeholder of the [if] is resolved and nothing is
    allocated, every other byte stays as it was, the entry becomes a
    [Block] entry with pending offset -1 and no awaiting branches, and the
    [end] that follows changes nothing; a real [else] in the same state
    allocates eight bytes more.  The placeholder is the one [addIf]
    allocated. *)
Theorem if_without_else (s : IPIntGenerator) (block : nat) (b : IPIntControlType)
    (p : FunctionParser) :
  m_controlStack s !! block = Some b ->
  currentOpcode p = OpType_End ->
  0 <= m_pendingOffset b -> m_pendingOffset b + 8 <= metadataSize s ->
  metadataSize (addElseToUnreachable block p s) = metadataSize s /\
  readBytes (metadata (addElseToUnreachable block p s)) (m_pendingOffset b) 8
    = targetBytes (currentPC p s) (metadataSize s) /\
  (forall i : nat,
     Z.of_nat i < m_pendingOffset b \/ m_pendingOffset b + 8 <= Z.of_nat i ->
     metadata (addElseToUnreachable block p s) !! i = metadata s !! i) /\
  (exists b',
     m_controlStack (addElseToUnreachable block p s) !! block = Some b' /\
     m_blockType b' = BlockType.Block /\ m_pendingOffset b' = -1 /\
     m_awaitingUpdate b' = []) /\
  (forall p', addEndToUnreachable block p' (addElseToUnreachable block p s)
              = addElseToUnreachable block p s) /\
  (forall p2, currentOpcode p2 <> OpType_End ->
     metadataSize (addElseToUnreachable block p2 s) = metadataSize s + 8) /\
  (forall signature p0 s0,
     metadata (addIf signature p0 s0)
       = metadata s0 ++ replicate 8 0 ++ le_bytes 8 (currentPC p0 s0) /\
     exists b0, m_controlStack (addIf signature p0 s0) !! length (m_controlStack s0)
                  = Some b0 /\
                m_blockType b0 = BlockType.If /\
                m_pendingOffset b0 = wrap_s32 (metadataSize s0)).
Proof.
  intros Hb Hop H0 H1.
  pose proof (addElseToUnreachable_at_end s block b p Hb Hop H0 H1) as Heq.
  pose proof (lookup_lt_Some _ _ _ Hb) as Hlt.
  assert (Hm : metadata (addElseToUnreachable block p s)
               = writeBytes (metadata s) (m_pendingOffset b)
                   (targetBytes (currentPC p s) (metadataSize s)))
    by (by rewrite Heq).
  assert (Hc : m_controlStack (addElseToUnreachable block p s) !! block
               = Some (set_pendingOffset (-1)
                         (ControlType (m_signature b) BlockType.Block CatchKind.Catch))).
  { rewrite Heq. cbn. by apply list_lookup_insert_eq. }
  repeat split.
  - unfold metadataSize. by rewrite Hm, length_writeBytes.
  - rewrite Hm. apply readBytes_write_target; [done|]. unfold metadataSize in H1. lia.
  - intros i Hi. rewrite Hm. apply lookup_writeBytes_outside.
    rewrite length_targetBytes. lia.
  - eexists. split; [exact Hc|]. done.
  - intros p'. unfold addEndToUnreachable. by rewrite Hc.
  - intros p2 Hop2.
    rewrite (addElseToUnreachable_at_else s block b p2 Hb Hop2 H0 H1).
    unfold metadataSize. cbn. rewrite length_app, length_writeBytes. simpl. lia.
  - by rewrite addIf_eq.
  - rewrite addIf_eq. cbn. eexists. split.
    + apply list_lookup_middle. done.
    + done.
Qed.

(** Witness of [if_without_else]: [if end] at the start of a function
    body. *)
Lemma if_without_else_witness :
  metadataSize (addElseToUnreachable 1 (parserAt 6 1 OpType_End)
                  (addIf sig_void (parserAt 5 2 4) (functionStart sig_void)))
    = metadataSize (addIf sig_void (parserAt 5 2 4) (functionStart sig_void)) /\
  (forall p', addEndToUnreachable 1 p'
                (addElseToUnreachable 1 (parserAt 6 1 OpType_End)
                   (addIf sig_void (parserAt 5 2 4) (functionStart sig_void)))
              = addElseToUnreachable 1 (parserAt 6 1 OpType_End)
                  (addIf sig_void (parserAt 5 2 4) (functionStart sig_void))).
Proof.
  pose proof (if_without_else
                (addIf sig_void (parserAt 5 2 4) (functionStart sig_void)) 1
                (set_pendingOffset 0 (ControlType sig_void BlockType.If CatchKind.Catch))
                (parserAt 6 1 OpType_End) eq_refl eq_refl) as H.
  destruct H as (H1 & _ & _ & _ & H5 & _); [by_evaluation..|].
  split; [exact H1|exact H5].
Defined.

(** ** The argument layout *)

Section argument_layout.

Implicit Types (md : FunctionIPIntMetadataGenerator) (args : list TypeKind).

(** The loop of [addArguments] writes the layout into the entries
    [i], [i + 1], ... of the table and counts the stack slots. *)
Lemma addArgumentsLoop_spec args :
  forall (i : nat) numGPR numFPR stackOffset md,
    (i + length args <= length (m_argumentLocations md))%nat ->
    numGPR <= 8 -> numFPR <= 8 -> 16 <= stackOffset ->
    0 <= m_numArgumentsOnStack md ->
    m_numArgumentsOnStack md + Z.of_nat (length args) < 2 ^ 32 ->
    let md' := addArgumentsLoop args i numGPR numFPR stackOffset md in
    m_argumentLocations md'
      = take i (m_argumentLocations md)
          ++ argumentLayout args numGPR numFPR stackOffset
          ++ drop (i + length args) (m_argumentLocations md) /\
    m_numArgumentsOnStack md'
      = m_numArgumentsOnStack md
          + Z.of_nat (length (stackSlots (argumentLayout args numGPR numFPR stackOffset))) /\
    m_metadata md' = m_metadata md /\
    m_bytecodeOffset md' = m_bytecodeOffset md /\
    m_bytecodeLength md' = m_bytecodeLength md /\
    m_numLocals md' = m_numLocals md /\
    m_numArguments md' = m_numArguments md.
Proof.
  induction args as [|arg rest IH]; intros i g f so md Hlen Hg Hf Hso H0 Hfit md'.
  - subst md'. cbn. rewrite Nat.add_0_r, take_drop. repeat split; lia.
  - subst md'. cbn [addArgumentsLoop argumentLayout].
    cbn [length] in Hlen, Hfit.
    assert (Hi : (i < length (m_argumentLocations md))%nat) by lia.
    assert (Hstep : forall (loc : Z) (onStack : bool) (g' f' so' : Z),
      g' <= 8 -> f' <= 8 -> 16 <= so' ->
      (if onStack return Prop then 16 <= loc else loc < 16) ->
      let md1 := assignArgument i loc onStack md in
      let md' := addArgumentsLoop rest (S i) g' f' so' md1 in
      m_argumentLocations md'
        = take i (m_argumentLocations md)
            ++ (loc :: argumentLayout rest g' f' so')
            ++ drop (i + S (length rest)) (m_argumentLocations md) /\
      m_numArgumentsOnStack md'
        = m_numArgumentsOnStack md
            + Z.of_nat (length (stackSlots (loc :: argumentLayout rest g' f' so'))) /\
      m_metadata md' = m_metadata md /\
      m_bytecodeOffset md' = m_bytecodeOffset md /\
      m_bytecodeLength md' = m_bytecodeLength md /\
      m_numLocals md' = m_numLocals md /\
      m_numArguments md' = m_numArguments md).
    { intros loc onStack g' f' so' Hg' Hf' Hso' Hloc md1 md'.
      assert (Hon : m_numArgumentsOnStack md1
                    = m_numArgumentsOnStack md + (if onStack then 1 else 0)).
      { subst md1. cbn. destruct onStack; [|lia]. apply wrap_u_small. lia. }
      destruct (IH (S i) g' f' so' md1) as (Hl & Hn & Hrest).
      - subst md1. cbn. rewrite length_insert. lia.
      - done.
      - done.
      - done.
      - rewrite Hon. destruct onStack; lia.
      - rewrite Hon. destruct onStack; lia.
      - fold md' in Hl, Hn, Hrest. split; [|split; [|exact Hrest]].
        + rewrite Hl. subst md1. cbn.
          rewrite (take_S_r _ _ loc) by (by apply list_lookup_insert_eq).
          rewrite take_insert_ge by lia.
          rewrite drop_insert_lt by lia.
          rewrite <- app_assoc. cbn. do 2 f_equal. f_equal. f_equal. lia.
        + rewrite Hn, Hon. unfold stackSlots.
          destruct onStack.
          * rewrite (filter_cons_True _ loc) by done. cbn [length]. lia.
          * rewrite (filter_cons_False _ loc) by lia. lia. }
    unfold addArgumentsStep. fold (isIntegerType arg).
    destruct (isIntegerType arg).
    + case_bool_decide.
      * apply (Hstep g false); lia.
      * apply (Hstep so true); lia.
    + case_bool_decide.
      * apply (Hstep (8 + f) false); lia.
      * apply (Hstep so true); lia.
Qed.

(** The stack slots of a layout are consecutive, from the first free one. *)
Lemma stackSlots_argumentLayout args :
  forall numGPR numFPR stackOffset,
    numGPR <= 8 -> numFPR <= 8 -> 16 <= stackOffset ->
    stackSlots (argumentLayout args numGPR numFPR stackOffset)
    = seqZ stackOffset
        (Z.of_nat (length (stackSlots (argumentLayout args numGPR numFPR stackOffset)))).
Proof.
  unfold stackSlots.
  induction args as [|arg rest IH]; intros g f so Hg Hf Hso; [done|].
  cbn [argumentLayout].
  assert (Hreg : forall loc g' f' : Z,
    g' <= 8 -> f' <= 8 -> loc < 16 ->
    filter (fun loc => 16 <= loc) (loc :: argumentLayout rest g' f' so)
    = seqZ so (Z.of_nat (length (filter (fun loc => 16 <= loc)
                                   (loc :: argumentLayout rest g' f' so))))).
  { intros loc g' f' Hg' Hf' Hloc.
    rewrite (filter_cons_False _ loc) by lia. by apply IH. }
  assert (Hstack :
    filter (fun loc => 16 <= loc) (so :: argumentLayout rest g f (so + 1))
    = seqZ so (Z.of_nat (length (filter (fun loc => 16 <= loc)
                                   (so :: argumentLayout rest g f (so + 1)))))).
  { rewrite (filter_cons_True _ so) by done. cbn [length].
    rewrite seqZ_cons by lia. f_equal.
    rewrite (IH g f (so + 1)) at 1 by lia. f_equal; lia. }
  destruct (isIntegerType arg); case_bool_decide; (done || (apply Hreg; lia)).
Qed.

(** On integer and float parameters the two layouts agree. *)
Lemma argumentLayout_specLayout args :
  Forall (fun t => isIntegerType t || isFloatType t = true) args ->
  forall numGPR numFPR stackOffset,
    argumentLayout args numGPR numFPR stackOffset
    = specLayout args numGPR numFPR stackOffset.
Proof.
  induction 1 as [|arg rest Harg _ IH]; intros g f so; [done|].
  cbn [argumentLayout specLayout].
  destruct (isIntegerType arg) eqn:Hint; cbn in *.
  - case_bool_decide; [by rewrite IH|].
    destruct (isFloatType arg) eqn:Hfl.
    + by destruct arg.
    + cbn. by rewrite IH.
  - rewrite Harg. cbn. case_bool_decide; by rewrite IH.
Qed.

Lemma length_argumentLayout args :
  forall numGPR numFPR stackOffset,
    length (argumentLayout args numGPR numFPR stackOffset) = length args.
Proof.
  induction args as [|arg rest IH]; intros g f so; [done|].
  cbn [argumentLayout]. destruct (isIntegerType arg); case_bool_decide; cbn; by rewrite IH.
Qed.

(** At most sixteen parameters travel in registers. *)
Lemma register_slots_bound args :
  forall numGPR numFPR stackOffset,
    0 <= numGPR <= 8 -> 0 <= numFPR <= 8 -> 16 <= stackOffset ->
    Z.of_nat (length args)
    <= Z.of_nat (length (stackSlots (argumentLayout args numGPR numFPR stackOffset)))
       + (8 - numGPR) + (8 - numFPR).
Proof.
  unfold stackSlots.
  induction args as [|arg rest IH]; intros g f so Hg Hf Hso; [cbn; lia|].
  cbn [argumentLayout length].
  destruct (isIntegerType arg); case_bool_decide.
  - rewrite (filter_cons_False _ g) by lia.
    specialize (IH (g + 1) f so). lia.
  - rewrite (filter_cons_True _ so) by lia. cbn [length].
    specialize (IH g f (so + 1)). lia.
  - rewrite (filter_cons_False _ (8 + f)) by lia.
    specialize (IH g (f + 1) so). lia.
  - rewrite (filter_cons_True _ so) by lia. cbn [length].
    specialize (IH g f (so + 1)). lia.
Qed.

Lemma length_stackSlots_le (l : list Z) : (length (stackSlots l) <= length l)%nat.
Proof. unfold stackSlots. apply length_filter. Qed.

(** [addArguments] on a generator that has counted no stack argument yet. *)
Lemma addArguments_spec (signature : FunctionSignature) (s : IPIntGenerator) :
  m_numArgumentsOnStack (m_generator s) = 0 ->
  argumentCount signature < 2 ^ 32 ->
  m_argumentLocations (m_generator (addArguments signature s))
    = argumentLayout (argumentTypes signature) 0 0 16 /\
  m_numArguments (m_generator (addArguments signature s)) = argumentCount signature /\
  m_numArgumentsOnStack (m_generator (addArguments signature s))
    = Z.of_nat (length (stackSlots (argumentLayout (argumentTypes signature) 0 0 16))) /\
  m_nonArgLocalOffset (m_generator (addArguments signature s))
    = 16 + Z.of_nat (length (stackSlots (argumentLayout (argumentTypes signature) 0 0 16)))
      - argumentCount signature /\
  metadata (addArguments signature s) = metadata s.
Proof.
  intros Hzero Hfit. unfold addArguments, metadata. cbn.
  set (md0 := {| m_metadata := m_metadata (m_generator s);
                 m_argumentLocations := resize _ _ _ |}).
  destruct (addArgumentsLoop_spec (argumentTypes signature) 0 0 0 16 md0)
    as (Hl & Hn & Hmeta & _ & _ & _ & Hnum).
  - subst md0. cbn. rewrite length_resize. unfold argumentCount. lia.
  - lia.
  - lia.
  - lia.
  - subst md0. cbn. lia.
  - subst md0. cbn. unfold argumentCount in Hfit. lia.
  - assert (Hloc : m_argumentLocations
                     (addArgumentsLoop (argumentTypes signature) 0 0 0 16 md0)
                   = argumentLayout (argumentTypes signature) 0 0 16).
    { rewrite Hl. cbn [take app]. rewrite drop_ge; [by rewrite app_nil_r|].
      subst md0. cbn. rewrite length_resize. unfold argumentCount. lia. }
    assert (Hstack : m_numArgumentsOnStack
                       (addArgumentsLoop (argumentTypes signature) 0 0 0 16 md0)
                     = Z.of_nat (length (stackSlots
                                   (argumentLayout (argumentTypes signature) 0 0 16)))).
    { rewrite Hn. subst md0. cbn. lia. }
    assert (Hcount : m_numArguments
                       (addArgumentsLoop (argumentTypes signature) 0 0 0 16 md0)
                     = argumentCount signature).
    { rewrite Hnum. subst md0. cbn. apply wrap_u_small. unfold argumentCount in *. lia. }
    rewrite Hloc, Hstack, Hcount, Hmeta.
    repeat split.
    apply wrap_u_small.
    pose proof (register_slots_bound (argumentTypes signature) 0 0 16).
    pose proof (length_stackSlots_le (argumentLayout (argumentTypes signature) 0 0 16)).
    rewrite length_argumentLayout in *.
    unfold argumentCount in *. lia.
Qed.

End argument_layout.

(** C7 on integer-typed and float-typed parameters.  For a signature whose
    parameters are all integer-typed or float-typed, [addArguments] assigns
    the parameters in declaration
    order: an integer-typed parameter takes the next of the eight integer
    register slots 0..7 while one remains, a float-typed parameter the next
    of the eight float register slots 8..15 while one remains, and every
    other parameter the next stack slot.  The stack slots are 16, 17, ... in
    order of assignment, whatever the types, so they are strictly
    increasing, and their number is [m_numArgumentsOnStack]. *)
Theorem addArguments_layout (signature : FunctionSignature) (s : IPIntGenerator) :
  m_numArgumentsOnStack (m_generator s) = 0 ->
  argumentCount signature < 2 ^ 32 ->
  Forall (fun t => isIntegerType t || isFloatType t = true) (argumentTypes signature) ->
  m_argumentLocations (m_generator (addArguments signature s))
    = specLayout (argumentTypes signature) 0 0 16 /\
  m_numArguments (m_generator (addArguments signature s)) = argumentCount signature /\
  m_numArgumentsOnStack (m_generator (addArguments signature s))
    = Z.of_nat (length (stackSlots
                          (m_argumentLocations (m_generator (addArguments signature s))))) /\
  stackSlots (m_argumentLocations (m_generator (addArguments signature s)))
    = seqZ 16 (m_numArgumentsOnStack (m_generator (addArguments signature s))).
Proof.
  intros Hzero Hfit Hall.
  destruct (addArguments_spec signature s Hzero Hfit) as (Hloc & Hnum & Hstack & _).
  rewrite Hloc, Hnum, Hstack. split_and!; [|done..|].
  - by apply argumentLayout_specLayout.
  - apply stackSlots_argumentLayout; lia.
Qed.

(** Witness of [addArguments_layout]: nine [i32] parameters and one [f32];
    the ninth integer goes to the stack. *)
Lemma addArguments_layout_witness :
  m_argumentLocations
    (m_generator
       (addArguments (mkSignature [I32; I32; I32; I32; I32; I32; I32; I32; I32; F32] [])
          (newGenerator (mkModuleInformation []))))
    = [0; 1; 2; 3; 4; 5; 6; 7; 16; 8] /\
  m_numArgumentsOnStack
    (m_generator
       (addArguments (mkSignature [I32; I32; I32; I32; I32; I32; I32; I32; I32; F32] [])
          (newGenerator (mkModuleInformation []))))
    = 1.
Proof.
  pose proof (addArguments_layout
                (mkSignature [I32; I32; I32; I32; I32; I32; I32; I32; I32; F32] [])
                (newGenerator (mkModuleInformation [])) eq_refl eq_refl) as H.
  destruct H as (H1 & _ & H3 & _).
  - repeat (apply List.Forall_cons; [reflexivity|]). apply List.Forall_nil.
  - split; [exact H1|exact H3].
Defined.

(** On a parameter that is neither integer-typed nor float-typed the
    layout is not the one C7 states: an [externref] parameter is given float
    register slot 8 and nothing is counted on the stack, where the layout
    the spec words puts it in stack slot 16. *)
Lemma addArguments_reference_counterexample :
  m_argumentLocations
    (m_generator (addArguments (mkSignature [Externref] [])
                    (newGenerator (mkModuleInformation []))))
    <> specLayout [Externref] 0 0 16 /\
  m_numArgumentsOnStack
    (m_generator (addArguments (mkSignature [Externref] [])
                    (newGenerator (mkModuleInformation []))))
    <> Z.of_nat (length (stackSlots (specLayout [Externref] 0 0 16))).
Proof. by_evaluation. Qed.

(** C7 fails on the code.  The loop of [addArguments] tests a parameter for
    [i32] and [i64] only and sends every other one down the float path.  An
    [externref] parameter is given float register slot 8 and nothing is
    counted on the stack, where C7 puts it in stack slot 16.  In
    (externref, f32 x 8) the reference takes the first float register, so
    the eighth [f32] is pushed to stack slot 16 although only eight
    parameters are float-typed; C7 gives the reference slot 16 and the
    floats the slots 8..15.  The caller side disagrees with [addArguments]
    and agrees with C7: the loop of [addCallCommonData], which tests for
    [f32] and [f64], collects the offset of an [externref] argument among
    the stack-passed ones on every CPU.  On (i32, f32) the two layouts are
    the same. *)
Theorem addArguments_reference_takes_float_register :
  (m_argumentLocations
     (m_generator (addArguments (mkSignature [Externref] [])
                     (newGenerator (mkModuleInformation []))))
   = [8] /\
   m_numArgumentsOnStack
     (m_generator (addArguments (mkSignature [Externref] [])
                     (newGenerator (mkModuleInformation []))))
   = 0 /\
   specLayout [Externref] 0 0 16 = [16]) /\
  (m_argumentLocations
     (m_generator
        (addArguments (mkSignature [Externref; F32; F32; F32; F32; F32; F32; F32; F32] [])
           (newGenerator (mkModuleInformation []))))
   = [8; 9; 10; 11; 12; 13; 14; 15; 16] /\
   specLayout [Externref; F32; F32; F32; F32; F32; F32; F32; F32] 0 0 16
   = [16; 8; 9; 10; 11; 12; 13; 14; 15]) /\
  (forall cpu : CPU,
     (addCallCommonDataLoop cpu 0 (argumentTypes (mkSignature [Externref] []))
        (wrap_u 16 (argumentCount (mkSignature [Externref] []) - 1)) 0 0 []
        (newGenerator (mkModuleInformation []))).1
     = [0]) /\
  m_argumentLocations
    (m_generator (addArguments (mkSignature [I32; F32] [])
                    (newGenerator (mkModuleInformation []))))
  = specLayout [I32; F32] 0 0 16.
Proof.
  split_and!; [vm_compute; reflexivity..|].
  vm_compute. reflexivity.
Qed.

(** ** Callbacks that only append *)

Section quiet.

Implicit Types (s : IPIntGenerator) (p : FunctionParser).

Lemma quiet_refl s : quiet s s.
Proof. by split_and!. Qed.

Lemma quiet_trans s1 s2 s3 : quiet s1 s2 -> quiet s2 s3 -> quiet s1 s3.
Proof. intros (? & ? & ?) (? & ? & ?). split_and!; [congruence..|lia]. Qed.

Lemma quiet_WRITE off v w s : quiet s (WRITE_TO_METADATA off v w s).
Proof. split_and!; [done..|]. by rewrite metadataSize_WRITE. Qed.

Lemma quiet_addBlankSpace n s : 0 <= n -> quiet s (addBlankSpace n s).
Proof. intros Hn. split_and!; [done..|]. rewrite metadataSize_addBlankSpace; lia. Qed.

Lemma roundUpToMultipleOf8_nonneg x : 0 <= x -> 0 <= roundUpToMultipleOf8 x.
Proof.
  intros Hx. unfold roundUpToMultipleOf8.
  apply Z.mul_nonneg_nonneg; [|lia]. apply Z.div_pos; lia.
Qed.

Lemma metadataSize_write_raw off (bs : list Z) s :
  metadataSize (set_generator (set_metadata (writeBytes (metadata s) off bs) (m_generator s)) s)
  = metadataSize s.
Proof. unfold metadataSize. cbn. by rewrite length_writeBytes. Qed.

Lemma metadataSize_addReturnData types s :
  metadataSize s <= metadataSize (addReturnData types s).
Proof.
  unfold addReturnData.
  set (total := roundUpToMultipleOf8 _).
  assert (0 <= total) by (apply roundUpToMultipleOf8_nonneg; lia).
  cbv zeta. rewrite metadataSize_write_raw.
  rewrite metadataSize_WRITE, metadataSize_addBlankSpace; lia.
Qed.

Lemma quiet_addReturnData types s : quiet s (addReturnData types s).
Proof. split_and!; [done..|]. apply metadataSize_addReturnData. Qed.

Lemma quiet_addCallCommonDataLoop cpu base (args : list TypeKind) :
  forall stackOffset gprsUsed fprsUsed locations s,
    quiet s (addCallCommonDataLoop cpu base args stackOffset gprsUsed fprsUsed locations s).2.
Proof.
  induction args as [|argType rest IH]; intros so g f locations s; [apply quiet_refl|].
  cbn [addCallCommonDataLoop].
  destruct (_ && _); [|destruct (_ && _)].
  - eapply quiet_trans; [apply quiet_WRITE|apply IH].
  - eapply quiet_trans; [apply quiet_WRITE|apply IH].
  - apply IH.
Qed.

Lemma quiet_writeStackLocations base (locations : list Z) :
  forall i s, quiet s (writeStackLocations base i locations s).
Proof.
  induction locations as [|loc rest IH]; intros i s; [apply quiet_refl|].
  cbn [writeStackLocations]. eapply quiet_trans; [apply quiet_WRITE|apply IH].
Qed.

Lemma quiet_addCallCommonData cpu signature s : quiet s (addCallCommonData cpu signature s).
Proof.
  unfold addCallCommonData.
  set (s4 := WRITE_TO_METADATA (metadataSize s + 24) 0 8 _).
  assert (Hs4 : quiet s s4).
  { subst s4. repeat (eapply quiet_trans; [|apply quiet_WRITE]).
    apply quiet_addBlankSpace. lia. }
  pose proof (quiet_addCallCommonDataLoop cpu (metadataSize s) (argumentTypes signature)
                (wrap_u 16 (argumentCount signature - 1)) 0 0 [] s4) as Hloop.
  destruct (addCallCommonDataLoop _ _ _ _ _ _ _ s4) as [locations s5]. cbn [snd] in Hloop.
  eapply quiet_trans; [exact Hs4|]. eapply quiet_trans; [exact Hloop|].
  eapply quiet_trans; [|apply quiet_addReturnData].
  eapply quiet_trans; [|apply quiet_writeStackLocations].
  repeat (eapply quiet_trans; [|apply quiet_WRITE]).
  apply quiet_addBlankSpace. apply roundUpToMultipleOf8_nonneg. lia.
Qed.

Lemma quiet_addCall cpu index signature p s : quiet s (addCall cpu index signature p s).
Proof.
  unfold addCall. eapply quiet_trans; [|apply quiet_addCallCommonData].
  repeat (eapply quiet_trans; [|apply quiet_WRITE]). apply quiet_addBlankSpace. lia.
Qed.

Lemma quiet_addCallIndirect cpu tableIndex typeIndex signature p s :
  quiet s (addCallIndirect cpu tableIndex typeIndex signature p s).
Proof.
  unfold addCallIndirect. eapply quiet_trans; [|apply quiet_addCallCommonData].
  repeat (eapply quiet_trans; [|apply quiet_WRITE]). apply quiet_addBlankSpace. lia.
Qed.

Lemma quiet_addConstant type value p s : quiet s (addConstant type value p s).
Proof.
  unfold addConstant, addLEB128ConstantAndLengthForType.
  destruct (isI32 type); [|destruct (isI64 type); [|apply quiet_refl]].
  - repeat (eapply quiet_trans; [|apply quiet_WRITE]). apply quiet_addBlankSpace. lia.
  - repeat (eapply quiet_trans; [|apply quiet_WRITE]). apply quiet_addBlankSpace. lia.
Qed.

End quiet.

(** ** What every callback keeps *)

Section frame.

Implicit Types (s : IPIntGenerator) (p : FunctionParser) (b : IPIntControlType).

Lemma fold_left_preserves {A B} (g : IPIntGenerator -> A)
    (f : IPIntGenerator -> B -> IPIntGenerator) (l : list B) :
  (forall s x, g (f s x) = g s) -> forall s, g (fold_left f l s) = g s.
Proof.
  intros Hf. induction l as [|x l IH]; intros s; [done|].
  cbn. by rewrite IH, Hf.
Qed.

Lemma layoutOf_addSwitchTarget stackSize p s block :
  layoutOf (addSwitchTarget stackSize p s block) = layoutOf s.
Proof. unfold addSwitchTarget. by destruct (m_controlStack s !! block). Qed.

Lemma layoutOf_patchTarget pc mc s x : layoutOf (patchTarget pc mc s x) = layoutOf s.
Proof. done. Qed.

Lemma layoutOf_addEndToUnreachable entry p s :
  layoutOf (addEndToUnreachable entry p s) = layoutOf s.
Proof.
  unfold addEndToUnreachable.
  destruct (m_controlStack s !! entry) as [block|]; [|done].
  destruct (isIf block); [done|].
  destruct (isBlock block).
  { case_bool_decide; [done|]. by apply fold_left_preserves. }
  destruct (isLoop block); [by apply fold_left_preserves|].
  destruct (isTopLevel block); [|done].
  unfold addReturnData. cbn.
  set (s1 := fold_left _ _ s).
  change (layoutOf s1 = layoutOf s). by apply fold_left_preserves.
Qed.

(** No callback of a function body touches the argument layout, the offset
    of the first instruction or the module information. *)
Lemma layoutOf_invoke cb p s : layoutOf (invoke cb p s) = layoutOf s.
Proof.
  destruct cb; cbn [invoke].
  - by destruct op.
  - by destruct op.
  - apply quiet_addConstant.
  - apply quiet_addCall.
  - apply quiet_addCallIndirect.
  - done.
  - unfold getLocal. by case_bool_decide.
  - unfold setLocal. by case_bool_decide.
  - unfold getGlobal. cbn. destruct (globals (m_info s) !! _) as [g|]; [|done].
    by destruct (bindingMode g).
  - unfold setGlobal. cbn. destruct (globals (m_info s) !! _) as [g|]; [|done].
    by destruct (bindingMode g), (isRefType (globalType g)).
  - done.
  - done.
  - done.
  - done.
  - done.
  - done.
  - done.
  - unfold addElseToUnreachable. destruct (m_controlStack s !! block); [|done].
    by case_bool_decide.
  - done.
  - unfold addCatchToUnreachable. by destruct (m_controlStack s !! block).
  - unfold addCatchAllToUnreachable. by destruct (m_controlStack s !! block).
  - unfold addBranch. by destruct (m_controlStack s !! block).
  - unfold addSwitch. rewrite layoutOf_addSwitchTarget.
    rewrite (fold_left_preserves layoutOf); [done|].
    intros. apply layoutOf_addSwitchTarget.
  - apply layoutOf_addEndToUnreachable.
Qed.

Lemma layoutOf_run calls : forall s s', run calls s = Some s' -> layoutOf s' = layoutOf s.
Proof.
  induction calls as [|[p cb] rest IH]; intros s s' Hrun; cbn in Hrun.
  - by inversion Hrun.
  - destruct (accepts cb s); [|done].
    rewrite (IH _ _ Hrun). apply layoutOf_invoke.
Qed.

End frame.

(** ** The slot of a local *)

Section local_entries.

Implicit Types (s : IPIntGenerator) (p : FunctionParser).

(** The two words of an entry at the end of the vector. *)
Lemma load_appended_words (buf : list Z) (a c : Z) :
  load 4 (buf ++ le_bytes 4 a ++ le_bytes 4 c) (Z.of_nat (length buf)) = wrap_u 32 a /\
  load 4 (buf ++ le_bytes 4 a ++ le_bytes 4 c) (Z.of_nat (length buf) + 4) = wrap_u 32 c.
Proof.
  unfold load. split.
  - rewrite (readBytes_app_r buf (le_bytes 4 a)) by done. apply (le_value_le_bytes 4).
  - rewrite (app_assoc buf), <- (app_nil_r (le_bytes 4 c)).
    rewrite (readBytes_app_r _ (le_bytes 4 c)).
    + apply (le_value_le_bytes 4).
    + rewrite length_app, length_le_bytes. lia.
Qed.

Lemma getLocal_argument index p s :
  index < m_numArguments (m_generator s) ->
  metadata (getLocal index p s)
  = metadata s ++ le_bytes 4 (argumentLocation s index)
      ++ le_bytes 4 (getCurrentInstructionLength p).
Proof.
  intros Hi. unfold getLocal. rewrite bool_decide_eq_false_2 by lia.
  by rewrite addLEB128ConstantInt32AndLength_eq.
Qed.

Lemma getLocal_local index p s :
  m_numArguments (m_generator s) <= index ->
  metadata (getLocal index p s)
  = metadata s ++ le_bytes 4 (index + m_nonArgLocalOffset (m_generator s))
      ++ le_bytes 4 (getCurrentInstructionLength p).
Proof.
  intros Hi. unfold getLocal. rewrite bool_decide_eq_true_2 by lia.
  by rewrite addLEB128ConstantInt32AndLength_eq.
Qed.

End local_entries.

(** C8.  In every state that a run reaches after [addArguments], the base
    offset of the locals is the one [addArguments] computed,
    16 + numArgumentsOnStack - numArguments.  [local.get] and [local.set] of
    an argument append the slot of the argument in the layout table, those
    of another local append its index plus the base offset, and both append
    the length of the instruction; each is a 4-byte field of one 8-byte
    entry. *)
Theorem local_slot_encoding (signature : FunctionSignature) (s0 : IPIntGenerator)
    (calls : list (FunctionParser * Callback)) (s : IPIntGenerator) (index : Z)
    (p : FunctionParser) :
  m_numArgumentsOnStack (m_generator s0) = 0 ->
  argumentCount signature < 2 ^ 32 ->
  run calls (addArguments signature s0) = Some s ->
  0 <= index ->
  m_numArguments (m_generator s) = argumentCount signature /\
  m_nonArgLocalOffset (m_generator s)
    = 16 + m_numArgumentsOnStack (m_generator s) - m_numArguments (m_generator s) /\
  m_nonArgLocalOffset (m_generator s)
    = m_nonArgLocalOffset (m_generator (addArguments signature s0)) /\
  (index < argumentCount signature ->
   exists slot,
     m_argumentLocations (m_generator s) !! Z.to_nat index = Some slot /\
     argumentLayout (argumentTypes signature) 0 0 16 !! Z.to_nat index = Some slot /\
     metadata (getLocal index p s)
       = metadata s ++ le_bytes 4 slot ++ le_bytes 4 (getCurrentInstructionLength p) /\
     load 4 (metadata (getLocal index p s)) (metadataSize s) = wrap_u 32 slot) /\
  (argumentCount signature <= index ->
   metadata (getLocal index p s)
     = metadata s ++ le_bytes 4 (index + m_nonArgLocalOffset (m_generator s))
         ++ le_bytes 4 (getCurrentInstructionLength p) /\
   load 4 (metadata (getLocal index p s)) (metadataSize s)
     = wrap_u 32 (index + m_nonArgLocalOffset (m_generator s))) /\
  load 4 (metadata (getLocal index p s)) (metadataSize s + 4)
    = wrap_u 32 (getCurrentInstructionLength p) /\
  (argumentCount signature <= index ->
   index + m_nonArgLocalOffset (m_generator s) < 2 ^ 32 ->
   load 4 (metadata (getLocal index p s)) (metadataSize s)
     = index + m_nonArgLocalOffset (m_generator s)) /\
  (0 <= getCurrentInstructionLength p < 2 ^ 32 ->
   load 4 (metadata (getLocal index p s)) (metadataSize s + 4)
     = getCurrentInstructionLength p) /\
  metadataSize (getLocal index p s) = metadataSize s + 8 /\
  setLocal index p s = getLocal index p s.
Proof.
  intros Hzero Hfit Hrun Hindex.
  destruct (addArguments_spec signature s0 Hzero Hfit)
    as (Hloc & Hnum & Hstack & Hoff & _).
  pose proof (layoutOf_run _ _ _ Hrun) as Hkeep.
  pose proof (f_equal (fun t => t.1.1.1.1.1) Hkeep) as Hk1.
  pose proof (f_equal (fun t => t.1.1.1.1.2) Hkeep) as Hk2.
  pose proof (f_equal (fun t => t.1.1.1.2) Hkeep) as Hk3.
  pose proof (f_equal (fun t => t.1.1.2) Hkeep) as Hk4.
  cbn [layoutOf fst snd] in Hk1, Hk2, Hk3, Hk4. clear Hkeep.
  rewrite Hk1, Hk2, Hk3, Hnum, Hstack, Hoff.
  split; [done|]. split; [done|]. split; [done|].
  assert (Hcases :
    exists v, metadata (getLocal index p s)
              = metadata s ++ le_bytes 4 v ++ le_bytes 4 (getCurrentInstructionLength p)).
  { destruct (decide (index < m_numArguments (m_generator s))).
    - eexists. by apply getLocal_argument.
    - eexists. apply getLocal_local. lia. }
  assert (Hoff0 : 0 <= 16 + Z.of_nat (length (stackSlots
                      (argumentLayout (argumentTypes signature) 0 0 16)))
                    - argumentCount signature).
  { pose proof (register_slots_bound (argumentTypes signature) 0 0 16).
    unfold argumentCount. lia. }
  split; [|split; [|split; [|split; [|split; [|split]]]]].
  - intros Hi.
    assert (is_Some (m_argumentLocations (m_generator s) !! Z.to_nat index)) as [slot Hslot].
    { apply lookup_lt_is_Some. rewrite Hk4, Hloc, length_argumentLayout.
      unfold argumentCount in Hi. lia. }
    exists slot. split; [done|]. split; [by rewrite <- Hloc, <- Hk4|].
    assert (Hm : metadata (getLocal index p s)
                 = metadata s ++ le_bytes 4 slot
                     ++ le_bytes 4 (getCurrentInstructionLength p)).
    { rewrite getLocal_argument by (rewrite Hk1, Hnum; lia).
      unfold argumentLocation. by rewrite Hslot. }
    split; [done|]. rewrite Hm. apply load_appended_words.
  - intros Hi.
    assert (Hm : metadata (getLocal index p s)
                 = metadata s ++ le_bytes 4 (index + m_nonArgLocalOffset (m_generator s))
                     ++ le_bytes 4 (getCurrentInstructionLength p)).
    { apply getLocal_local. rewrite Hk1, Hnum. lia. }
    rewrite Hk3, Hoff in Hm. split; [done|]. rewrite Hm. apply load_appended_words.
  - destruct Hcases as [v ->]. apply load_appended_words.
  - intros Hi Hfits.
    assert (Hm : metadata (getLocal index p s)
                 = metadata s ++ le_bytes 4 (index + m_nonArgLocalOffset (m_generator s))
                     ++ le_bytes 4 (getCurrentInstructionLength p)).
    { apply getLocal_local. rewrite Hk1, Hnum. lia. }
    rewrite Hk3, Hoff in Hm. rewrite Hm.
    etrans; [apply load_appended_words|]. apply wrap_u_small. lia.
  - intros Hlen. destruct Hcases as [v ->].
    etrans; [apply load_appended_words|]. by apply wrap_u_small.
  - destruct Hcases as [v Hv]. unfold metadataSize. rewrite Hv.
    rewrite !length_app, !length_le_bytes. lia.
  - reflexivity.
Qed.

(** Witness of [local_slot_encoding]: in a function with parameters
    (i32, f64) and further locals, [local.get 2] after a [local.get 0]
    records slot 2 + 14. *)
Lemma local_slot_encoding_witness :
  load 4
    (metadata
       (getLocal 2 (parserAt 7 2 32)
          (getLocal 0 (parserAt 5 2 32)
             (addArguments (mkSignature [I32; F64] []) (newGenerator (mkModuleInformation []))))))
    8 = wrap_u 32 (2 + 14).
Proof.
  pose proof (local_slot_encoding (mkSignature [I32; F64] [])
                (newGenerator (mkModuleInformation []))
                [(parserAt 5 2 32, CbGetLocal 0)]
                (getLocal 0 (parserAt 5 2 32)
                   (addArguments (mkSignature [I32; F64] [])
                      (newGenerator (mkModuleInformation []))))
                2 (parserAt 7 2 32) eq_refl eq_refl eq_refl) as H.
  destruct H as (_ & _ & _ & _ & H5 & _); [by_evaluation|].
  destruct H5 as [_ H5]; [by_evaluation|]. exact H5.
Defined.

(** ** [br_table] *)

Section switch.

Implicit Types (s : IPIntGenerator) (p : FunctionParser) (b : IPIntControlType).

Lemma grows_refl cs : grows cs cs.
Proof. intros i b Hb. exists b. repeat split; try done. exists []. by rewrite app_nil_r. Qed.

Lemma grows_trans cs1 cs2 cs3 : grows cs1 cs2 -> grows cs2 cs3 -> grows cs1 cs3.
Proof.
  intros H12 H23 i b Hb.
  destruct (H12 i b Hb) as (b2 & Hb2 & Hs2 & Ht2 & Hpc2 & Hmc2 & new2 & Ha2).
  destruct (H23 i b2 Hb2) as (b3 & Hb3 & Hs3 & Ht3 & Hpc3 & Hmc3 & new3 & Ha3).
  exists b3. repeat split; try congruence.
  exists (new2 ++ new3). by rewrite Ha3, Ha2, app_assoc.
Qed.

Lemma branchTargetArity_same b b' :
  m_signature b' = m_signature b -> m_blockType b' = m_blockType b ->
  branchTargetArity b' = branchTargetArity b.
Proof. intros Hs Ht. unfold branchTargetArity, isLoop. by rewrite Hs, Ht. Qed.

(** One target of a [br_table] is handled as a [br] to it. *)
Lemma addSwitchTarget_addBranch stackSize p s block :
  addSwitchTarget stackSize p s block = addBranch block stackSize p s.
Proof.
  unfold addSwitchTarget, addBranch. by destruct (m_controlStack s !! block).
Qed.

Lemma grows_addBranch block stackSize p s :
  grows (m_controlStack s) (m_controlStack (addBranch block stackSize p s)).
Proof.
  destruct (m_controlStack s !! block) as [b|] eqn:Hb.
  - rewrite (addBranch_eq s block b stackSize p Hb). cbn.
    intros i bi Hi. destruct (decide (i = block)) as [->|Hne].
    + rewrite list_lookup_insert_eq by (by eapply lookup_lt_Some).
      rewrite Hb in Hi. injection Hi as <-.
      eexists. split; [done|]. repeat split. by eexists.
    + rewrite list_lookup_insert_ne by done.
      exists bi. repeat split; try done. exists []. by rewrite app_nil_r.
  - unfold addBranch. rewrite Hb. apply grows_refl.
Qed.

Lemma targetEntry_grows s s' stackSize p block :
  grows (m_controlStack s) (m_controlStack s') -> layoutOf s' = layoutOf s ->
  is_Some (m_controlStack s !! block) ->
  targetEntry s' stackSize p block = targetEntry s stackSize p block.
Proof.
  intros Hg Hl [b Hb]. unfold targetEntry. rewrite Hb.
  destruct (Hg block b Hb) as (b' & -> & Hs & Ht & _).
  unfold branchEntry. rewrite (branchTargetArity_same b b' Hs Ht).
  unfold currentPC.
  by rewrite (f_equal (fun t => t.1.2) Hl : m_bytecodeOffset (m_generator s') = _).
Qed.

Lemma layoutOf_addBranch block stackSize p s :
  layoutOf (addBranch block stackSize p s) = layoutOf s.
Proof. apply (layoutOf_invoke (CbBranch block stackSize)). Qed.

Lemma metadata_addBranch block stackSize p s :
  metadata (addBranch block stackSize p s) = metadata s ++ targetEntry s stackSize p block.
Proof.
  unfold targetEntry. destruct (m_controlStack s !! block) as [b|] eqn:Hb.
  - by rewrite (addBranch_eq s block b stackSize p Hb).
  - unfold addBranch. rewrite Hb. by rewrite app_nil_r.
Qed.

Lemma length_targetEntry s stackSize p block :
  is_Some (m_controlStack s !! block) ->
  length (targetEntry s stackSize p block) = 16%nat.
Proof. intros [b Hb]. unfold targetEntry. rewrite Hb. apply length_branchEntry. Qed.

(** A sequence of branches to the targets [targets], in order. *)
Lemma branches_fold stackSize p (targets : list nat) :
  forall s,
    Forall (fun block => is_Some (m_controlStack s !! block)) targets ->
    let s' := fold_left (fun s block => addBranch block stackSize p s) targets s in
    metadata s' = metadata s ++ concat (targetEntry s stackSize p <$> targets) /\
    layoutOf s' = layoutOf s /\
    grows (m_controlStack s) (m_controlStack s') /\
    (metadataSize s + 16 * Z.of_nat (length targets) < 2 ^ 32 ->
     forall (j : nat) block, targets !! j = Some block ->
       exists b', m_controlStack s' !! block = Some b' /\
                  metadataSize s + 16 * Z.of_nat j ∈ m_awaitingUpdate b').
Proof.
  induction targets as [|t rest IH]; intros s Hall s'.
  - subst s'. cbn. rewrite app_nil_r. repeat split; [apply grows_refl|done].
  - subst s'. cbn [fold_left].
    apply Forall_cons_1 in Hall as [[b Hb] Hall].
    set (s1 := addBranch t stackSize p s).
    assert (Hg1 : grows (m_controlStack s) (m_controlStack s1)) by apply grows_addBranch.
    assert (Hl1 : layoutOf s1 = layoutOf s) by apply layoutOf_addBranch.
    assert (Hm1 : metadata s1 = metadata s ++ targetEntry s stackSize p t)
      by apply metadata_addBranch.
    assert (Hs1 : metadataSize s1 = metadataSize s + 16).
    { unfold metadataSize. rewrite Hm1, length_app, length_targetEntry by done. lia. }
    destruct (IH s1) as (Hm & Hl & Hg & Hreg).
    { eapply List.Forall_impl; [|exact Hall]. cbn. intros block [bb Hbb].
      destruct (Hg1 block bb Hbb) as (b' & Hb' & _). by eexists. }
    split; [|split; [|split]].
    + rewrite Hm, Hm1. cbn [fmap list_fmap concat]. rewrite <- app_assoc.
      do 3 f_equal. apply Forall_fmap_ext.
      eapply List.Forall_impl; [|exact Hall]. cbn. intros block Hblock.
      by apply targetEntry_grows.
    + by rewrite Hl.
    + by eapply grows_trans.
    + intros Hfit [|j] block Hj; cbn in Hj; cbn [length] in Hfit.
      * injection Hj as <-.
        assert (Hb1 : m_controlStack s1 !! t
                      = Some (set_awaitingUpdate
                                (m_awaitingUpdate b ++ [wrap_u 32 (metadataSize s)]) b)).
        { subst s1. rewrite (addBranch_eq s t b stackSize p Hb). cbn.
          apply list_lookup_insert_eq. by eapply lookup_lt_Some. }
        destruct (Hg t _ Hb1) as (b' & Hb' & _ & _ & _ & _ & new & Hnew).
        exists b'. split; [done|]. rewrite Hnew. cbn.
        rewrite wrap_u_small by (pose proof (metadataSize_nonneg s); lia).
        rewrite Z.mul_0_r, Z.add_0_r.
        rewrite !elem_of_app, list_elem_of_singleton. auto.
      * destruct (Hreg ltac:(lia) j block Hj) as (b' & Hb' & Hin).
        exists b'. split; [done|].
        replace (metadataSize s + 16 * Z.of_nat (S j))
          with (metadataSize s1 + 16 * Z.of_nat j) by lia.
        done.
Qed.

End switch.

Section switch_layout.

Implicit Types (s : IPIntGenerator) (p : FunctionParser) (b : IPIntControlType).

Lemma fold_left_addSwitchTarget stackSize p (targets : list nat) :
  forall s,
    fold_left (addSwitchTarget stackSize p) targets s
    = fold_left (fun s block => addBranch block stackSize p s) targets s.
Proof.
  induction targets as [|t rest IH]; intros s; [done|].
  cbn. by rewrite addSwitchTarget_addBranch, IH.
Qed.

(** [addSwitch] is the header followed by a branch to each target and to
    the default. *)
Lemma addSwitch_branches jumps defaultJump stackSize p s :
  addSwitch jumps defaultJump stackSize p s
  = fold_left (fun s block => addBranch block stackSize p s) (jumps ++ [defaultJump])
      (addRawValue (Z.of_nat (length jumps) + 1) s).
Proof.
  unfold addSwitch. rewrite fold_left_app. cbn [fold_left].
  by rewrite addSwitchTarget_addBranch, fold_left_addSwitchTarget.
Qed.

(** The [j]-th of a row of chunks of [k] bytes. *)
Lemma readBytes_chunk (k : nat) (chunks : list (list Z)) :
  Forall (fun e => length e = k) chunks ->
  forall (pre : list Z) (j : nat) (e : list Z),
    chunks !! j = Some e ->
    readBytes (pre ++ concat chunks) (Z.of_nat (length pre) + Z.of_nat k * Z.of_nat j) k = e.
Proof.
  induction 1 as [|c chunks Hc _ IH]; intros pre j e Hj; [done|].
  destruct j as [|j]; cbn in Hj.
  - injection Hj as ->. rewrite Z.mul_0_r, Z.add_0_r. cbn [concat].
    rewrite <- Hc. by apply readBytes_app_r.
  - cbn [concat]. rewrite (app_assoc pre).
    rewrite <- (IH (pre ++ c) j e Hj). f_equal.
    rewrite length_app. lia.
Qed.

Lemma length_concat_chunks (k : nat) (chunks : list (list Z)) :
  Forall (fun e => length e = k) chunks ->
  length (concat chunks) = (k * length chunks)%nat.
Proof.
  induction 1 as [|c chunks Hc _ IH]; [cbn; lia|].
  cbn [concat length]. rewrite length_app, IH, Hc. lia.
Qed.

End switch_layout.

(** C6.  For a [br_table] with [n] targets and a default, [addSwitch]
    appends one 8-byte header that holds [n + 1] and then [n + 1] entries of
    16 bytes, one for each target in order and one for the default.  Each
    entry is the entry [addBranch] lays out for a [br] to the same target,
    and its offset is registered in the awaiting list of that target, also
    when several arms name the same scope. *)
Theorem addSwitch_layout (jumps : list nat) (defaultJump : nat) (stackSize : Z)
    (p : FunctionParser) (s : IPIntGenerator) :
  Forall (fun block => is_Some (m_controlStack s !! block)) (jumps ++ [defaultJump]) ->
  metadataSize s + 8 + 16 * (Z.of_nat (length jumps) + 1) < 2 ^ 32 ->
  metadata (addSwitch jumps defaultJump stackSize p s)
    = metadata s ++ le_bytes 8 (Z.of_nat (length jumps) + 1)
        ++ concat (targetEntry s stackSize p <$> (jumps ++ [defaultJump])) /\
  load 8 (metadata (addSwitch jumps defaultJump stackSize p s)) (metadataSize s)
    = Z.of_nat (length jumps) + 1 /\
  metadataSize (addSwitch jumps defaultJump stackSize p s)
    = metadataSize s + 8 + 16 * (Z.of_nat (length jumps) + 1) /\
  (forall (j : nat) (block : nat),
     (jumps ++ [defaultJump]) !! j = Some block ->
     readBytes (metadata (addSwitch jumps defaultJump stackSize p s))
       (metadataSize s + 8 + 16 * Z.of_nat j) 16
       = targetEntry s stackSize p block /\
     metadata (addBranch block stackSize p s)
       = metadata s ++ targetEntry s stackSize p block /\
     exists b',
       m_controlStack (addSwitch jumps defaultJump stackSize p s) !! block = Some b' /\
       metadataSize s + 8 + 16 * Z.of_nat j ∈ m_awaitingUpdate b').
Proof.
  intros Hall Hfit.
  rewrite addSwitch_branches.
  set (n1 := Z.of_nat (length jumps) + 1).
  set (sh := addRawValue n1 s).
  assert (Hsh : sh = {| m_generator := set_metadata (metadata s ++ le_bytes 8 n1) (m_generator s);
                        m_info := m_info s; m_controlStack := m_controlStack s |})
    by apply addRawValue_eq.
  assert (Hmh : metadata sh = metadata s ++ le_bytes 8 n1) by (by rewrite Hsh).
  assert (Hch : m_controlStack sh = m_controlStack s) by (by rewrite Hsh).
  assert (Hsize : metadataSize sh = metadataSize s + 8).
  { unfold metadataSize. rewrite Hmh, length_app, length_le_bytes. lia. }
  assert (Hte : forall block, targetEntry sh stackSize p block = targetEntry s stackSize p block)
    by (intros block; by rewrite Hsh).
  destruct (branches_fold stackSize p (jumps ++ [defaultJump]) sh) as (Hm & _ & _ & Hreg).
  { by rewrite Hch. }
  specialize (Hreg ltac:(rewrite Hsize, length_app; cbn [length]; lia)).
  set (s' := fold_left _ _ sh) in *.
  assert (Hm' : metadata s' = metadata s ++ le_bytes 8 n1
                  ++ concat (targetEntry s stackSize p <$> (jumps ++ [defaultJump]))).
  { rewrite Hm, Hmh, <- app_assoc.
    by rewrite (list_fmap_ext (targetEntry sh stackSize p) (targetEntry s stackSize p))
      by (intros; apply Hte). }
  assert (Hlen : Forall (fun e => length e = 16%nat)
                   (targetEntry s stackSize p <$> (jumps ++ [defaultJump]))).
  { apply Forall_fmap. eapply List.Forall_impl; [|exact Hall]. cbn.
    intros block Hblock. by apply length_targetEntry. }
  split; [exact Hm'|]. split; [|split].
  - rewrite Hm'. unfold load, metadataSize.
    rewrite (readBytes_app_r (metadata s) (le_bytes 8 n1)) by done.
    apply (le_value_le_bytes_small 8). subst n1.
    pose proof (metadataSize_nonneg s). lia.
  - unfold metadataSize at 1. rewrite Hm', !length_app, length_le_bytes.
    rewrite (length_concat_chunks 16 _ Hlen).
    rewrite length_fmap, length_app. cbn [length]. unfold metadataSize. lia.
  - intros j block Hj. split; [|split].
    + rewrite Hm', (app_assoc (metadata s)).
      replace (metadataSize s + 8 + 16 * Z.of_nat j)
        with (Z.of_nat (length (metadata s ++ le_bytes 8 n1))
              + Z.of_nat 16 * Z.of_nat j)
        by (rewrite length_app, length_le_bytes; unfold metadataSize; lia).
      apply readBytes_chunk; [done|].
      rewrite list_lookup_fmap, Hj. done.
    + apply metadata_addBranch.
    + destruct (Hreg j block Hj) as (b' & Hb' & Hin).
      exists b'. split; [done|]. by rewrite <- Hsize.
Qed.

(** ** The metadata only grows *)

Section sizes.

Implicit Types (s : IPIntGenerator) (p : FunctionParser) (b : IPIntControlType).

Lemma metadataSize_set_control i b s : metadataSize (set_control i b s) = metadataSize s.
Proof. done. Qed.

Lemma metadataSize_push_control b s : metadataSize (push_control b s) = metadataSize s.
Proof. done. Qed.

Lemma metadataSize_addRawValue v s : metadataSize (addRawValue v s) = metadataSize s + 8.
Proof.
  unfold addRawValue. rewrite metadataSize_WRITE, metadataSize_addBlankSpace; lia.
Qed.

Lemma metadataSize_addLEB128 v len s :
  metadataSize (addLEB128ConstantInt32AndLength v len s) = metadataSize s + 8.
Proof.
  unfold addLEB128ConstantInt32AndLength.
  rewrite !metadataSize_WRITE, metadataSize_addBlankSpace; lia.
Qed.

Lemma metadataSize_addBranch block stackSize p s :
  metadataSize s <= metadataSize (addBranch block stackSize p s).
Proof.
  unfold metadataSize. rewrite metadata_addBranch, length_app. lia.
Qed.

Lemma metadataSize_fold_patchTarget (f : IPIntGenerator -> Z * Z) (l : list Z) :
  forall s,
    metadataSize (fold_left (fun s x => patchTarget (f s).1 (f s).2 s x) l s)
    = metadataSize s.
Proof.
  induction l as [|x l IH]; intros s; [done|].
  cbn [fold_left]. by rewrite IH, metadataSize_patchTarget.
Qed.

Lemma metadataSize_addEndToUnreachable entry p s :
  metadataSize s <= metadataSize (addEndToUnreachable entry p s).
Proof.
  unfold addEndToUnreachable.
  destruct (m_controlStack s !! entry) as [block|]; [|done].
  destruct (isIf block); [by rewrite metadataSize_patchTarget|].
  destruct (isBlock block).
  { case_bool_decide; [by rewrite metadataSize_patchTarget|].
    by rewrite (metadataSize_fold_patchTarget
                  (fun s => (currentPC p s - 1, metadataSize s))). }
  destruct (isLoop block).
  { by rewrite (metadataSize_fold_patchTarget (fun _ => (m_pc block, m_mc block))). }
  destruct (isTopLevel block); [|done].
  etrans; [|apply metadataSize_addReturnData].
  change (metadataSize s <=
          metadataSize (fold_left
            (fun s x => patchTarget (currentPC p s - 1) (metadataSize s) s x)
            (m_awaitingUpdate block) s)).
  by rewrite (metadataSize_fold_patchTarget
                (fun s => (currentPC p s - 1, metadataSize s))).
Qed.

Lemma controlStack_addEndToUnreachable entry p s :
  m_controlStack (addEndToUnreachable entry p s) = m_controlStack s.
Proof.
  unfold addEndToUnreachable.
  destruct (m_controlStack s !! entry) as [block|]; [|done].
  destruct (isIf block); [done|].
  destruct (isBlock block).
  { case_bool_decide; [done|]. by apply fold_left_preserves. }
  destruct (isLoop block); [by apply fold_left_preserves|].
  destruct (isTopLevel block); [|done].
  unfold addReturnData. cbn.
  set (s1 := fold_left _ _ s).
  change (m_controlStack s1 = m_controlStack s). by apply fold_left_preserves.
Qed.

Lemma metadataSize_fold_addBranch stackSize p (targets : list nat) :
  forall s,
    metadataSize s
    <= metadataSize (fold_left (fun s block => addBranch block stackSize p s) targets s).
Proof.
  induction targets as [|t rest IH]; intros s; [done|].
  cbn [fold_left]. etrans; [|apply IH]. apply metadataSize_addBranch.
Qed.

(** No callback shrinks the metadata. *)
Lemma metadataSize_invoke cb p s : metadataSize s <= metadataSize (invoke cb p s).
Proof.
  destruct cb; cbn [invoke].
  - by destruct op.
  - by destruct op.
  - apply quiet_addConstant.
  - apply quiet_addCall.
  - apply quiet_addCallIndirect.
  - done.
  - unfold getLocal. case_bool_decide; rewrite metadataSize_addLEB128; lia.
  - unfold setLocal. case_bool_decide; rewrite metadataSize_addLEB128; lia.
  - unfold getGlobal. cbn. destruct (globals (m_info s) !! _) as [g|];
      [destruct (bindingMode g)|];
      rewrite !metadataSize_WRITE, metadataSize_addBlankSpace; lia.
  - unfold setGlobal. cbn. destruct (globals (m_info s) !! _) as [g|];
      [destruct (bindingMode g), (isRefType (globalType g))|];
      rewrite !metadataSize_WRITE, metadataSize_addBlankSpace; lia.
  - unfold addIndexAndLength. rewrite metadataSize_addLEB128. lia.
  - unfold addTableInit. rewrite !metadataSize_WRITE, metadataSize_addBlankSpace; lia.
  - unfold addTableCopy. rewrite !metadataSize_WRITE, metadataSize_addBlankSpace; lia.
  - unfold addSelect. rewrite metadataSize_addRawValue. lia.
  - unfold addBlock. rewrite metadataSize_push_control, metadataSize_addRawValue. lia.
  - unfold addLoop. rewrite metadataSize_push_control, metadataSize_addRawValue. lia.
  - unfold addIf.
    rewrite metadataSize_push_control, metadataSize_addRawValue,
      metadataSize_addBlankSpace; lia.
  - unfold addElseToUnreachable. destruct (m_controlStack s !! block) as [b|]; [|done].
    case_bool_decide.
    + rewrite metadataSize_set_control, !metadataSize_WRITE. lia.
    + rewrite metadataSize_addBlankSpace by lia.
      rewrite metadataSize_set_control, !metadataSize_WRITE. lia.
  - done.
  - unfold addCatchToUnreachable. by destruct (m_controlStack s !! block).
  - unfold addCatchAllToUnreachable. by destruct (m_controlStack s !! block).
  - apply metadataSize_addBranch.
  - rewrite addSwitch_branches. etrans; [|apply metadataSize_fold_addBranch].
    rewrite metadataSize_addRawValue. lia.
  - apply metadataSize_addEndToUnreachable.
Qed.

Lemma metadataSize_run calls :
  forall s s', run calls s = Some s' -> metadataSize s <= metadataSize s'.
Proof.
  induction calls as [|[p cb] rest IH]; intros s s' Hrun; cbn in Hrun.
  - injection Hrun as <-. done.
  - destruct (accepts cb s); [|done].
    etrans; [apply (metadataSize_invoke cb p)|]. by apply IH.
Qed.

End sizes.

(** ** Loops *)

Section loops.

Implicit Types (s : IPIntGenerator) (p : FunctionParser) (b : IPIntControlType).

Lemma spaced_le lo l hi : spaced lo l hi -> lo <= hi.
Proof.
  revert lo; induction l as [|x l IH]; intros lo; cbn; [done|].
  intros [Hx Hl]. apply IH in Hl. lia.
Qed.

Lemma spaced_elem_of lo l hi x : spaced lo l hi -> x ∈ l -> lo <= x /\ x + 16 <= hi.
Proof.
  revert lo; induction l as [|y l IH]; intros lo Hsp Hx; [by apply elem_of_nil in Hx|].
  cbn in Hsp. destruct Hsp as [Hy Hsp].
  apply elem_of_cons in Hx as [->|Hx].
  - apply spaced_le in Hsp. lia.
  - destruct (IH _ Hsp Hx). lia.
Qed.

Lemma spaced_mono_lo lo lo' l hi : lo' <= lo -> spaced lo l hi -> spaced lo' l hi.
Proof. destruct l; cbn; [lia|]. intros ? [? ?]. split; [lia|done]. Qed.

Lemma spaced_mono_hi lo l hi hi' : hi <= hi' -> spaced lo l hi -> spaced lo l hi'.
Proof.
  revert lo; induction l as [|x l IH]; intros lo; cbn; [lia|].
  intros ? [? ?]. split; [done|]. by apply IH.
Qed.

Lemma spaced_app lo l1 mid l2 hi :
  spaced lo l1 mid -> spaced mid l2 hi -> spaced lo (l1 ++ l2) hi.
Proof.
  revert lo; induction l1 as [|x l1 IH]; intros lo; cbn.
  - intros ? ?. by eapply spaced_mono_lo.
  - intros [? ?] ?. split; [done|]. by apply IH.
Qed.

Lemma keepsLoop_refl L s : keepsLoop L s s.
Proof.
  split; [done|]. intros _ b Hb Hloop. exists b, [].
  split_and!; [done..|by rewrite app_nil_r|cbn; lia].
Qed.

Lemma keepsLoop_trans L s1 s2 s3 :
  keepsLoop L s1 s2 -> keepsLoop L s2 s3 -> keepsLoop L s1 s3.
Proof.
  intros [Hs12 H12] [Hs23 H23]. split; [lia|].
  intros Hfit b Hb Hloop.
  destruct (H12 ltac:(lia) b Hb Hloop) as (b2 & new2 & Hb2 & Hl2 & Hpc2 & Hmc2 & Ha2 & Hsp2).
  destruct (H23 Hfit b2 Hb2 Hl2) as (b3 & new3 & Hb3 & Hl3 & Hpc3 & Hmc3 & Ha3 & Hsp3).
  exists b3, (new2 ++ new3). split_and!; [congruence..| |].
  - by rewrite Ha3, Ha2, app_assoc.
  - by eapply spaced_app.
Qed.

(** A step that leaves entry [L] alone. *)
Lemma keepsLoop_same_entry L s s' :
  metadataSize s <= metadataSize s' ->
  (forall b, m_controlStack s !! L = Some b -> m_blockType b = BlockType.Loop ->
             m_controlStack s' !! L = Some b) ->
  keepsLoop L s s'.
Proof.
  intros Hsize Hsame. split; [done|]. intros _ b Hb Hloop. exists b, [].
  split_and!; [by apply Hsame|done..|by rewrite app_nil_r|cbn; lia].
Qed.

Lemma keepsLoop_addBranch L block stackSize p s :
  keepsLoop L s (addBranch block stackSize p s).
Proof.
  destruct (m_controlStack s !! block) as [bt|] eqn:Hbt.
  2:{ unfold addBranch. rewrite Hbt. apply keepsLoop_refl. }
  pose proof (addBranch_eq s block bt stackSize p Hbt) as Heq.
  assert (Hsize : metadataSize (addBranch block stackSize p s) = metadataSize s + 16).
  { unfold metadataSize. rewrite Heq. cbn.
    rewrite length_app, length_branchEntry. unfold metadata. lia. }
  destruct (decide (block = L)) as [->|Hne].
  - split; [lia|]. intros Hfit b Hb Hloop.
    rewrite Hbt in Hb. injection Hb as ->.
    eexists _, [metadataSize s]. split_and!.
    + rewrite Heq. cbn. apply list_lookup_insert_eq. by eapply lookup_lt_Some.
    + done.
    + done.
    + done.
    + cbn. rewrite wrap_u_small; [done|]. pose proof (metadataSize_nonneg s). lia.
    + cbn. lia.
  - apply keepsLoop_same_entry; [lia|]. intros b Hb _.
    rewrite Heq. cbn. by rewrite list_lookup_insert_ne.
Qed.

Lemma keepsLoop_fold_addBranch L stackSize p (targets : list nat) :
  forall s,
    keepsLoop L s (fold_left (fun s block => addBranch block stackSize p s) targets s).
Proof.
  induction targets as [|t rest IH]; intros s; [apply keepsLoop_refl|].
  cbn [fold_left]. eapply keepsLoop_trans; [apply keepsLoop_addBranch|apply IH].
Qed.

(** A callback the parser accepts keeps every loop. *)
Lemma keepsLoop_invoke L cb p s :
  accepts cb s = true -> keepsLoop L s (invoke cb p s).
Proof.
  intros Hacc.
  pose proof (metadataSize_invoke cb p s) as Hsize.
  destruct cb; cbn [invoke] in *.
  all: try match goal with
           | |- keepsLoop _ _ (addBranch _ _ _ _) => apply keepsLoop_addBranch
           end.
  all: try match goal with
           | |- keepsLoop _ _ (addSwitch _ _ _ _ _) => idtac
           | |- keepsLoop _ _ _ =>
               apply keepsLoop_same_entry; [done|]; intros b Hb Hloop
           end.
  - by destruct op.
  - by destruct op.
  - by rewrite (proj1 (proj2 (quiet_addConstant type value p s))).
  - by rewrite (proj1 (proj2 (quiet_addCall cpu index signature p s))).
  - by rewrite (proj1 (proj2 (quiet_addCallIndirect cpu tableIndex typeIndex signature p s))).
  - done.
  - unfold getLocal. by case_bool_decide.
  - unfold setLocal. by case_bool_decide.
  - unfold getGlobal. cbn. destruct (globals (m_info s) !! _) as [g|]; [|done].
    by destruct (bindingMode g).
  - unfold setGlobal. cbn. destruct (globals (m_info s) !! _) as [g|]; [|done].
    by destruct (bindingMode g), (isRefType (globalType g)).
  - done.
  - done.
  - done.
  - done.
  - unfold addBlock, push_control. cbn. by apply lookup_app_l_Some.
  - unfold addLoop, push_control. cbn. by apply lookup_app_l_Some.
  - unfold addIf, push_control. cbn. by apply lookup_app_l_Some.
  - cbn in Hacc. unfold addElseToUnreachable.
    destruct (m_controlStack s !! block) as [bi|] eqn:Hbi; [|done].
    assert (block <> L) as Hne.
    { intros ->. rewrite Hb in Hbi. injection Hbi as <-.
      unfold isIf in Hacc. rewrite Hloop in Hacc. done. }
    case_bool_decide; cbn; by rewrite list_lookup_insert_ne.
  - unfold addTry, push_control. cbn. by apply lookup_app_l_Some.
  - cbn in Hacc. unfold addCatchToUnreachable.
    destruct (m_controlStack s !! block) as [bi|] eqn:Hbi; [|done].
    assert (block <> L) as Hne.
    { intros ->. rewrite Hb in Hbi. injection Hbi as <-.
      unfold isTry, isAnyCatch in Hacc. rewrite Hloop in Hacc. done. }
    cbn. by rewrite list_lookup_insert_ne.
  - cbn in Hacc. unfold addCatchAllToUnreachable.
    destruct (m_controlStack s !! block) as [bi|] eqn:Hbi; [|done].
    assert (block <> L) as Hne.
    { intros ->. rewrite Hb in Hbi. injection Hbi as <-.
      unfold isTry, isAnyCatch in Hacc. rewrite Hloop in Hacc. done. }
    cbn. by rewrite list_lookup_insert_ne.
  - rewrite addSwitch_branches.
    eapply keepsLoop_trans; [|apply keepsLoop_fold_addBranch].
    apply keepsLoop_same_entry; [rewrite metadataSize_addRawValue; lia|].
    intros b Hb _. by rewrite addRawValue_eq.
  - by rewrite controlStack_addEndToUnreachable.
Qed.

Lemma keepsLoop_run L calls :
  forall s s', run calls s = Some s' -> keepsLoop L s s'.
Proof.
  induction calls as [|[p cb] rest IH]; intros s s' Hrun; cbn in Hrun.
  - injection Hrun as <-. apply keepsLoop_refl.
  - destruct (accepts cb s) eqn:Hacc; [|done].
    eapply keepsLoop_trans; [by apply keepsLoop_invoke|by apply IH].
Qed.

(** Resolving a spaced list of targets writes the pair at each of them. *)
Lemma fold_patchTarget_spaced pc mc (l : list Z) :
  forall lo s,
    0 <= lo -> spaced lo l (metadataSize s) ->
    let s' := fold_left (patchTarget pc mc) l s in
    metadataSize s' = metadataSize s /\
    (forall x, x ∈ l -> readBytes (metadata s') x 8 = targetBytes pc mc) /\
    (forall off (n : nat), 0 <= off -> off + Z.of_nat n <= lo ->
       readBytes (metadata s') off n = readBytes (metadata s) off n).
Proof.
  induction l as [|x l IH]; intros lo s Hlo Hsp s'.
  - subst s'. cbn. split_and!; [done| |done]. intros x Hx. by apply elem_of_nil in Hx.
  - subst s'. cbn [fold_left]. cbn in Hsp. destruct Hsp as [Hx Hsp].
    pose proof (spaced_le _ _ _ Hsp) as Hhi.
    assert (Heq := patchTarget_eq pc mc s x ltac:(lia) ltac:(lia)).
    set (s1 := patchTarget pc mc s x) in *.
    assert (Hs1 : metadataSize s1 = metadataSize s) by apply metadataSize_patchTarget.
    assert (Hm1 : metadata s1 = writeBytes (metadata s) x (targetBytes pc mc))
      by (by rewrite Heq).
    destruct (IH (x + 16) s1) as (Hsize & Hin & Hout); [lia|by rewrite Hs1|].
    split; [by rewrite Hsize|]. split.
    + intros y Hy. apply elem_of_cons in Hy as [->|Hy]; [|by apply Hin].
      rewrite (Hout x 8%nat) by lia. rewrite Hm1.
      apply readBytes_write_target; [lia|]. unfold metadataSize in Hhi. lia.
    + intros off n Hoff Hn. rewrite (Hout off n) by lia. rewrite Hm1.
      apply readBytes_writeBytes_disjoint; [done|]. lia.
Qed.

(** The end of a loop writes the target of the entry at each awaiting
    offset. *)
Lemma addEndToUnreachable_loop entry p s b :
  m_controlStack s !! entry = Some b -> m_blockType b = BlockType.Loop ->
  spaced 0 (m_awaitingUpdate b) (metadataSize s) ->
  forall x, x ∈ m_awaitingUpdate b ->
    readBytes (metadata (addEndToUnreachable entry p s)) x 8
    = targetBytes (m_pc b) (m_mc b).
Proof.
  intros Hb Hloop Hsp x Hx. unfold addEndToUnreachable. rewrite Hb.
  unfold isIf, isBlock, isLoop. rewrite Hloop. cbn.
  by apply (fold_patchTarget_spaced (m_pc b) (m_mc b) (m_awaitingUpdate b) 0 s).
Qed.

Lemma run_app calls1 calls2 s :
  run (calls1 ++ calls2) s = run calls1 s ≫= run calls2.
Proof.
  revert s; induction calls1 as [|[p cb] rest IH]; intros s; [done|].
  cbn. destruct (accepts cb s); [apply IH|done].
Qed.

End loops.

(** C2.  Open a loop with [addLoop] and let the parser run on: whatever
    callbacks follow, the loop entry stays a loop, and when its [end] is
    processed every offset in its awaiting list receives the PC and the MC
    that were current right after the loop header (the PC after the
    header, the size of the metadata after the 8-byte entry of the loop),
    not those of the [end].  The offset of every [br] or [br_if] entry that
    targets the loop is in that list, and so is the offset of every arm of
    a [br_table] that targets it. *)
Theorem loop_branches_resolve_to_loop_entry (signature : FunctionSignature)
    (p0 : FunctionParser) (s0 : IPIntGenerator)
    (calls : list (FunctionParser * Callback)) (s : IPIntGenerator)
    (pEnd : FunctionParser) :
  run calls (addLoop signature p0 s0) = Some s ->
  metadataSize s < 2 ^ 32 ->
  0 <= currentPC p0 s0 < 2 ^ 32 ->
  metadataSize (addLoop signature p0 s0) = metadataSize s0 + 8 /\
  exists b,
    m_controlStack s !! length (m_controlStack s0) = Some b /\
    m_blockType b = BlockType.Loop /\
    (forall x, x ∈ m_awaitingUpdate b ->
       load 4 (metadata (addEndToUnreachable (length (m_controlStack s0)) pEnd s)) x
         = currentPC p0 s0 /\
       load 4 (metadata (addEndToUnreachable (length (m_controlStack s0)) pEnd s)) (x + 4)
         = metadataSize (addLoop signature p0 s0)) /\
    (forall calls1 calls2 pb stackSize smid,
       calls = calls1 ++ (pb, CbBranch (length (m_controlStack s0)) stackSize) :: calls2 ->
       run calls1 (addLoop signature p0 s0) = Some smid ->
       metadataSize smid ∈ m_awaitingUpdate b) /\
    (forall calls1 calls2 pb jumps defaultJump stackSize smid (j : nat),
       calls = calls1 ++ (pb, CbSwitch jumps defaultJump stackSize) :: calls2 ->
       run calls1 (addLoop signature p0 s0) = Some smid ->
       Forall (fun block => is_Some (m_controlStack smid !! block))
         (jumps ++ [defaultJump]) ->
       (jumps ++ [defaultJump]) !! j = Some (length (m_controlStack s0)) ->
       metadataSize smid + 8 + 16 * Z.of_nat j ∈ m_awaitingUpdate b).
Proof.
  intros Hrun Hfit Hpc.
  set (L := length (m_controlStack s0)).
  set (s1 := addLoop signature p0 s0) in *.
  assert (Hsize1 : metadataSize s1 = metadataSize s0 + 8).
  { subst s1. unfold addLoop. by rewrite metadataSize_push_control, metadataSize_addRawValue. }
  pose proof (metadataSize_nonneg s0) as Hs0.
  pose proof (metadataSize_run _ _ _ Hrun) as Hmono.
  set (b1 := set_pc_mc (wrap_s32 (currentPC p0 s0)) (wrap_s32 (metadataSize s0 + 8))
               (set_pendingOffset (-1)
                  (ControlType signature BlockType.Loop CatchKind.Catch))).
  assert (Hb1 : m_controlStack s1 !! L = Some b1).
  { subst s1 b1 L. unfold addLoop. rewrite metadataSize_addRawValue.
    unfold push_control. cbn. by apply list_lookup_middle. }
  split; [done|].
  destruct (keepsLoop_run L calls s1 s Hrun) as [_ Hkeep].
  destruct (Hkeep Hfit b1 Hb1 eq_refl) as (b & new & Hb & Hloop & Hbpc & Hbmc & Hnew & Hsp).
  exists b. split; [done|]. split; [done|]. split; [|split].
  - intros x Hx.
    assert (Hr : readBytes (metadata (addEndToUnreachable L pEnd s)) x 8
                 = targetBytes (m_pc b) (m_mc b)).
    { apply addEndToUnreachable_loop; try done.
      rewrite Hnew. cbn. eapply spaced_mono_lo; [|exact Hsp]. lia. }
    assert (0 <= x) as Hx0.
    { rewrite Hnew in Hx. cbn in Hx. destruct (spaced_elem_of _ _ _ _ Hsp Hx). lia. }
    destruct (load_targetBytes _ _ _ _ Hx0 Hr) as [Hl1 Hl2].
    rewrite Hl1, Hl2, Hbpc, Hbmc. subst b1. cbn.
    rewrite !wrap_u_wrap_s32, !wrap_u_small by lia. lia.
  - intros calls1 calls2 pb stackSize smid Hcalls Hrun1.
    rewrite Hcalls, run_app, Hrun1 in Hrun. cbn in Hrun.
    pose proof (metadataSize_run _ _ _ Hrun) as Hmono2.
    pose proof (metadataSize_addBranch L stackSize pb smid) as Hmono3.
    destruct (keepsLoop_run L calls1 s1 smid Hrun1) as [_ Hkeep1].
    destruct (Hkeep1 ltac:(lia) b1 Hb1 eq_refl)
      as (bm & newm & Hbm & Hloopm & _ & _ & _ & _).
    assert (Hbm' : m_controlStack (addBranch L stackSize pb smid) !! L
                   = Some (set_awaitingUpdate
                             (m_awaitingUpdate bm ++ [wrap_u 32 (metadataSize smid)]) bm)).
    { rewrite (addBranch_eq smid L bm stackSize pb Hbm). cbn.
      apply list_lookup_insert_eq. by eapply lookup_lt_Some. }
    destruct (keepsLoop_run L calls2 _ s Hrun) as [_ Hkeep2].
    destruct (Hkeep2 Hfit _ Hbm' Hloopm) as (b' & new' & Hb' & _ & _ & _ & Hnew' & _).
    rewrite Hb in Hb'. injection Hb' as <-.
    rewrite Hnew'. cbn.
    rewrite wrap_u_small by (pose proof (metadataSize_nonneg smid); lia).
    rewrite !elem_of_app, list_elem_of_singleton. auto.
  - intros calls1 calls2 pb jumps defaultJump stackSize smid j Hcalls Hrun1 Hall Hj.
    rewrite Hcalls, run_app, Hrun1 in Hrun. cbn in Hrun.
    pose proof (metadataSize_run _ _ _ Hrun) as Hmono2.
    rewrite addSwitch_branches in Hrun, Hmono2.
    set (sh := addRawValue (Z.of_nat (length jumps) + 1) smid) in *.
    assert (Hch : m_controlStack sh = m_controlStack smid)
      by (subst sh; by rewrite addRawValue_eq).
    assert (Hsh : metadataSize sh = metadataSize smid + 8)
      by apply metadataSize_addRawValue.
    destruct (branches_fold stackSize pb (jumps ++ [defaultJump]) sh)
      as (Hm & _ & _ & Hreg); [by rewrite Hch|].
    set (ssw := fold_left _ _ sh) in *.
    assert (Hlen : Forall (fun e => length e = 16%nat)
                     (targetEntry sh stackSize pb <$> (jumps ++ [defaultJump]))).
    { apply Forall_fmap. eapply List.Forall_impl; [|exact Hall]. cbn.
      intros block Hblock. apply length_targetEntry. by rewrite Hch. }
    assert (Hssw : metadataSize ssw
                   = metadataSize sh + 16 * Z.of_nat (length (jumps ++ [defaultJump]))).
    { unfold metadataSize at 1. rewrite Hm, length_app.
      rewrite (length_concat_chunks 16 _ Hlen), length_fmap. unfold metadataSize. lia. }
    destruct (Hreg ltac:(lia) j L Hj) as (bsw & Hbsw & Hin).
    destruct (keepsLoop_run L calls1 s1 smid Hrun1) as [_ Hkeep1].
    pose proof (metadataSize_nonneg sh).
    destruct (Hkeep1 ltac:(lia) b1 Hb1 eq_refl)
      as (bm & newm & Hbm & Hloopm & _ & _ & _ & _).
    assert (Hgrow : grows (m_controlStack smid) (m_controlStack ssw)).
    { rewrite <- Hch.
      by destruct (branches_fold stackSize pb (jumps ++ [defaultJump]) sh)
        as (_ & _ & Hg & _); [by rewrite Hch|]. }
    destruct (Hgrow L bm Hbm) as (bsw' & Hbsw' & _ & Htype & _).
    rewrite Hbsw in Hbsw'. injection Hbsw' as <-.
    destruct (keepsLoop_run L calls2 ssw s Hrun) as [_ Hkeep2].
    destruct (Hkeep2 Hfit bsw Hbsw ltac:(congruence))
      as (b' & new' & Hb' & _ & _ & _ & Hnew' & _).
    rewrite Hb in Hb'. injection Hb' as <-.
    rewrite Hnew', elem_of_app. left. by rewrite <- Hsh.
Qed.

(** Witness of [loop_branches_resolve_to_loop_entry]: [loop; br 0;
    br_table 0 1 ...] at the start of a function body; the entry of the
    [br] lies at offset 8 and is resolved to PC 2, MC 8 at the [end]. *)
Lemma loop_branches_resolve_to_loop_entry_witness :
  load 4
    (metadata
       (addEndToUnreachable 1 (parserAt 12 1 OpType_End)
          (addSwitch [1; 0]%nat 1 0 (parserAt 11 4 14)
             (addBranch 1 0 (parserAt 7 2 12)
                (addLoop sig_void (parserAt 5 2 3) (functionStart sig_void))))))
    8 = 2 /\
  load 4
    (metadata
       (addEndToUnreachable 1 (parserAt 12 1 OpType_End)
          (addSwitch [1; 0]%nat 1 0 (parserAt 11 4 14)
             (addBranch 1 0 (parserAt 7 2 12)
                (addLoop sig_void (parserAt 5 2 3) (functionStart sig_void))))))
    (8 + 4) = 8.
Proof.
  assert (Hrun : run [(parserAt 7 2 12, CbBranch 1 0);
                      (parserAt 11 4 14, CbSwitch [1; 0]%nat 1 0)]
                   (addLoop sig_void (parserAt 5 2 3) (functionStart sig_void))
                 = Some (addSwitch [1; 0]%nat 1 0 (parserAt 11 4 14)
                           (addBranch 1 0 (parserAt 7 2 12)
                              (addLoop sig_void (parserAt 5 2 3) (functionStart sig_void)))))
    by (vm_compute; reflexivity).
  pose proof (loop_branches_resolve_to_loop_entry sig_void (parserAt 5 2 3)
                (functionStart sig_void) _ _ (parserAt 12 1 OpType_End) Hrun) as H.
  destruct H as (_ & b & _ & _ & Hpatch & Hreg & _); [by_evaluation..|].
  apply (Hpatch 8).
  exact (Hreg [] [(parserAt 11 4 14, CbSwitch [1; 0]%nat 1 0)] (parserAt 7 2 12) 0
           (addLoop sig_void (parserAt 5 2 3) (functionStart sig_void)) eq_refl eq_refl).
Defined.

(** Witness of [addSwitch_layout]: a [br_table] with three arms, two of
    them to the same loop, and the function as default. *)
Lemma addSwitch_layout_witness :
  load 8
    (metadata
       (addSwitch [2; 1; 2]%nat 0 1 (parserAt 13 6 14)
          (addLoop sig_void (parserAt 7 2 3)
             (addBlock sig_void (parserAt 5 2 2) (functionStart sig_void)))))
    16 = 3 + 1 /\
  metadataSize
    (addSwitch [2; 1; 2]%nat 0 1 (parserAt 13 6 14)
       (addLoop sig_void (parserAt 7 2 3)
          (addBlock sig_void (parserAt 5 2 2) (functionStart sig_void))))
    = 16 + 8 + 16 * (3 + 1).
Proof.
  pose proof (addSwitch_layout [2; 1; 2]%nat 0 1 (parserAt 13 6 14)
                (addLoop sig_void (parserAt 7 2 3)
                   (addBlock sig_void (parserAt 5 2 2) (functionStart sig_void)))) as H.
  destruct H as (_ & H2 & H3 & _).
  - repeat (apply List.Forall_cons; [eexists; reflexivity|]). apply List.Forall_nil.
  - by_evaluation.
  - split; [exact H2|exact H3].
Defined.

(** ** Branches to the scope of an [if] *)

(** C1 fails on the code.  In [local.get 0; if; else; br 0; end; end] the
    entry of the [br] (offset 32) is in the awaiting list of the scope when
    its [end] is processed, and after both [end]s its eight target bytes are
    still blank, while the placeholder of the [else] got the exit (7, 48).
    In [local.get 0; if; br 0; else; end; end] the entry of the [br]
    (offset 24) is registered, the [else] drops the awaiting list, and the
    entry stays blank as well.  After a plain [block] the same [br] is
    resolved to the exit of the block. *)
Theorem if_else_branch_left_unresolved :
  (awaitingOf 1 <$> run body_if_else_br (functionStart sig_i32_void) = Some (Some [32]) /\
   (fun s => readBytes (metadata s) 32 8)
     <$> run (body_if_else_br ++ body_two_ends) (functionStart sig_i32_void)
     = Some (replicate 8 0) /\
   (fun s => readBytes (metadata s) 24 8)
     <$> run (body_if_else_br ++ body_two_ends) (functionStart sig_i32_void)
     = Some (targetBytes 7 48)) /\
  (awaitingOf 1 <$> run body_if_br (functionStart sig_i32_void) = Some (Some [24]) /\
   awaitingOf 1 <$> run (body_if_br ++ [(parserAt 10 1 OpType_Else, CbElse 1%nat)])
                      (functionStart sig_i32_void)
     = Some (Some []) /\
   (fun s => readBytes (metadata s) 24 8)
     <$> run (body_if_br ++ body_else_two_ends) (functionStart sig_i32_void)
     = Some (replicate 8 0)) /\
  (awaitingOf 1 <$> run body_block_br (functionStart sig_i32_void) = Some (Some [16]) /\
   (fun s => readBytes (metadata s) 16 8)
     <$> run (body_block_br ++ body_block_two_ends) (functionStart sig_i32_void)
     = Some (targetBytes 6 32)).
Proof. by_evaluation. Qed.

(** ** Bytes that stay where they are *)

Section appends.

Implicit Types (s : IPIntGenerator) (p : FunctionParser) (buf : list Z).

Lemma agreeBelow_refl base buf : agreeBelow base buf buf.
Proof. by intros i Hi. Qed.

Lemma agreeBelow_trans base buf1 buf2 buf3 :
  agreeBelow base buf1 buf2 -> agreeBelow base buf2 buf3 -> agreeBelow base buf1 buf3.
Proof. intros H12 H23 i Hi. by rewrite H23, H12. Qed.

Lemma agreeBelow_mono base base' buf buf' :
  base' <= base -> agreeBelow base buf buf' -> agreeBelow base' buf buf'.
Proof. intros Hle H i Hi. apply H. lia. Qed.

Lemma agreeBelow_writeBytes base buf off bs :
  base <= off -> agreeBelow base buf (writeBytes buf off bs).
Proof. intros Hoff i Hi. apply lookup_writeBytes_outside. lia. Qed.

Lemma agreeBelow_app base buf ext :
  base <= Z.of_nat (length buf) -> agreeBelow base buf (buf ++ ext).
Proof. intros Hb i Hi. apply lookup_app_l. lia. Qed.

(** A vector that agrees with [buf] below the length of [buf] starts with
    [buf]. *)
Lemma agreeBelow_prefix buf buf' :
  agreeBelow (Z.of_nat (length buf)) buf buf' -> (length buf <= length buf')%nat ->
  exists ext, buf' = buf ++ ext.
Proof.
  intros Hagree Hlen. exists (drop (length buf) buf').
  rewrite <- (take_drop (length buf) buf') at 1. f_equal.
  apply list_eq. intros i. rewrite lookup_take. case_decide.
  - apply Hagree. lia.
  - symmetry. apply lookup_ge_None_2. lia.
Qed.

Lemma readBytes_agreeBelow base buf buf' off (n : nat) :
  0 <= off -> off + Z.of_nat n <= base -> agreeBelow base buf buf' ->
  readBytes buf' off n = readBytes buf off n.
Proof.
  intros Hoff Hn Hagree. apply readBytes_ext; [done|].
  intros i Hi. apply Hagree. lia.
Qed.

Lemma agree_WRITE base buf off v w s :
  base <= off -> agreeBelow base buf (metadata s) ->
  agreeBelow base buf (metadata (WRITE_TO_METADATA off v w s)).
Proof.
  intros Hoff H. eapply agreeBelow_trans; [exact H|].
  rewrite WRITE_TO_METADATA_eq. cbn. by apply agreeBelow_writeBytes.
Qed.

Lemma agree_addBlankSpace base buf n s :
  base <= metadataSize s -> agreeBelow base buf (metadata s) ->
  agreeBelow base buf (metadata (addBlankSpace n s)).
Proof.
  intros Hb H. eapply agreeBelow_trans; [exact H|].
  rewrite addBlankSpace_eq. cbn. by apply agreeBelow_app.
Qed.

Lemma agree_addRawValue base buf v s :
  base <= metadataSize s -> agreeBelow base buf (metadata s) ->
  agreeBelow base buf (metadata (addRawValue v s)).
Proof.
  intros Hb H. eapply agreeBelow_trans; [exact H|].
  rewrite addRawValue_eq. cbn. by apply agreeBelow_app.
Qed.

Lemma agree_addLEB128 base buf v len s :
  base <= metadataSize s -> agreeBelow base buf (metadata s) ->
  agreeBelow base buf (metadata (addLEB128ConstantInt32AndLength v len s)).
Proof.
  intros Hb H. eapply agreeBelow_trans; [exact H|].
  rewrite addLEB128ConstantInt32AndLength_eq. cbn. by apply agreeBelow_app.
Qed.

Lemma metadataSize_addReturnData_eq types s :
  metadataSize (addReturnData types s)
  = metadataSize s + roundUpToMultipleOf8 (Z.of_nat (length types) + 2).
Proof.
  unfold addReturnData.
  set (total := roundUpToMultipleOf8 _).
  assert (0 <= total) by (apply roundUpToMultipleOf8_nonneg; lia).
  cbv zeta. rewrite metadataSize_write_raw.
  rewrite metadataSize_WRITE, metadataSize_addBlankSpace; lia.
Qed.

Lemma agree_addReturnData base buf types s :
  base <= metadataSize s -> agreeBelow base buf (metadata s) ->
  agreeBelow base buf (metadata (addReturnData types s)).
Proof.
  intros Hb H. unfold addReturnData. cbv zeta.
  set (s1 := WRITE_TO_METADATA _ _ 2 _).
  assert (H1 : agreeBelow base buf (metadata s1)).
  { subst s1. apply agree_WRITE; [lia|]. by apply agree_addBlankSpace. }
  eapply agreeBelow_trans; [exact H1|]. cbn. apply agreeBelow_writeBytes. lia.
Qed.

Lemma metadataSize_addCallCommonDataLoop cpu base (args : list TypeKind) :
  forall stackOffset gprsUsed fprsUsed locations s,
    metadataSize
      (addCallCommonDataLoop cpu base args stackOffset gprsUsed fprsUsed locations s).2
    = metadataSize s.
Proof.
  induction args as [|argType rest IH]; intros so g f locations s; [done|].
  cbn [addCallCommonDataLoop].
  destruct (_ && _); [|destruct (_ && _)]; by rewrite IH, ?metadataSize_WRITE.
Qed.

Lemma metadataSize_writeStackLocations base (locations : list Z) :
  forall i s, metadataSize (writeStackLocations base i locations s) = metadataSize s.
Proof.
  induction locations as [|loc rest IH]; intros i s; [done|].
  cbn [writeStackLocations]. by rewrite IH, metadataSize_WRITE.
Qed.

Lemma wrap_u_nonneg w v : 0 <= w -> 0 <= wrap_u w v.
Proof. intros Hw. unfold wrap_u. apply Z.mod_pos_bound. by apply Z.pow_pos_nonneg. Qed.

Lemma agree_addCallCommonDataLoop cpu base0 buf base (args : list TypeKind) :
  forall stackOffset gprsUsed fprsUsed locations s,
    base0 <= base -> 0 <= gprsUsed -> 0 <= fprsUsed ->
    agreeBelow base0 buf (metadata s) ->
    agreeBelow base0 buf
      (metadata
         (addCallCommonDataLoop cpu base args stackOffset gprsUsed fprsUsed locations s).2).
Proof.
  induction args as [|argType rest IH]; intros so g f locations s Hb Hg Hf H; [done|].
  cbn [addCallCommonDataLoop].
  destruct (_ && _); [|destruct (_ && _)].
  - apply IH; [done|by apply wrap_u_nonneg|done|]. apply agree_WRITE; [lia|done].
  - apply IH; [done|done|by apply wrap_u_nonneg|]. apply agree_WRITE; [lia|done].
  - by apply IH.
Qed.

Lemma agree_writeStackLocations base0 buf base (locations : list Z) :
  forall i s,
    base0 <= base -> 0 <= i -> agreeBelow base0 buf (metadata s) ->
    agreeBelow base0 buf (metadata (writeStackLocations base i locations s)).
Proof.
  induction locations as [|loc rest IH]; intros i s Hb Hi H; [done|].
  cbn [writeStackLocations]. apply IH; [done|lia|]. apply agree_WRITE; [lia|done].
Qed.

Lemma agree_addCallCommonData cpu base buf signature s :
  base <= metadataSize s -> agreeBelow base buf (metadata s) ->
  agreeBelow base buf (metadata (addCallCommonData cpu signature s)).
Proof.
  intros Hb H. unfold addCallCommonData.
  set (s4 := WRITE_TO_METADATA (metadataSize s + 24) 0 8 _).
  assert (Hs4 : agreeBelow base buf (metadata s4)).
  { subst s4. repeat (apply agree_WRITE; [lia|]). by apply agree_addBlankSpace. }
  assert (Hsize4 : metadataSize s4 = metadataSize s + 32).
  { subst s4. rewrite !metadataSize_WRITE, metadataSize_addBlankSpace; lia. }
  pose proof (agree_addCallCommonDataLoop cpu base buf (metadataSize s)
                (argumentTypes signature) (wrap_u 16 (argumentCount signature - 1)) 0 0 []
                s4 Hb ltac:(lia) ltac:(lia) Hs4) as Hloop.
  pose proof (metadataSize_addCallCommonDataLoop cpu (metadataSize s)
                (argumentTypes signature) (wrap_u 16 (argumentCount signature - 1)) 0 0 []
                s4) as Hsize5.
  destruct (addCallCommonDataLoop _ _ _ _ _ _ _ s4) as [locations s5].
  cbn [snd] in Hloop, Hsize5.
  assert (0 <= roundUpToMultipleOf8 (Z.of_nat (length locations) * 2 + 6))
    by (apply roundUpToMultipleOf8_nonneg; lia).
  apply agree_addReturnData.
  { rewrite metadataSize_writeStackLocations, !metadataSize_WRITE,
      metadataSize_addBlankSpace; lia. }
  apply agree_writeStackLocations; [lia|lia|].
  repeat (apply agree_WRITE; [lia|]). apply agree_addBlankSpace; [lia|done].
Qed.

Lemma appends_refl s : appends s s.
Proof. split; [apply agreeBelow_refl|done]. Qed.

Lemma appends_trans s1 s2 s3 : appends s1 s2 -> appends s2 s3 -> appends s1 s3.
Proof.
  intros [H12 Hs12] [H23 Hs23]. split; [|lia].
  eapply agreeBelow_trans; [exact H12|]. by eapply agreeBelow_mono.
Qed.

Lemma appends_addBranch block stackSize p s : appends s (addBranch block stackSize p s).
Proof.
  split; [|apply metadataSize_addBranch].
  rewrite metadata_addBranch. by apply agreeBelow_app.
Qed.

Lemma appends_fold_addBranch stackSize p (targets : list nat) :
  forall s, appends s (fold_left (fun s block => addBranch block stackSize p s) targets s).
Proof.
  induction targets as [|t rest IH]; intros s; [apply appends_refl|].
  cbn [fold_left]. eapply appends_trans; [apply appends_addBranch|apply IH].
Qed.

(** Every callback but [else] and [end] keeps the bytes emitted so far. *)
Lemma appends_invoke cb p s : patches cb = false -> appends s (invoke cb p s).
Proof.
  intros Hcb. split; [|apply metadataSize_invoke].
  pose proof (agreeBelow_refl (metadataSize s) (metadata s)) as Hrefl.
  destruct cb; cbn [invoke]; try discriminate Hcb.
  - by destruct op.
  - by destruct op.
  - unfold addConstant, addLEB128ConstantAndLengthForType.
    destruct (isI32 type); [|destruct (isI64 type); [|done]];
      repeat (apply agree_WRITE; [lia|]); by apply agree_addBlankSpace.
  - unfold addCall. apply agree_addCallCommonData.
    { rewrite !metadataSize_WRITE, metadataSize_addBlankSpace; lia. }
    repeat (apply agree_WRITE; [lia|]). by apply agree_addBlankSpace.
  - unfold addCallIndirect. apply agree_addCallCommonData.
    { rewrite !metadataSize_WRITE, metadataSize_addBlankSpace; lia. }
    repeat (apply agree_WRITE; [lia|]). by apply agree_addBlankSpace.
  - done.
  - unfold getLocal. case_bool_decide; by apply agree_addLEB128.
  - unfold setLocal. case_bool_decide; by apply agree_addLEB128.
  - unfold getGlobal. cbn. destruct (globals (m_info s) !! _) as [g|];
      [destruct (bindingMode g)|];
      repeat (apply agree_WRITE; [lia|]); by apply agree_addBlankSpace.
  - unfold setGlobal. cbn. destruct (globals (m_info s) !! _) as [g|];
      [destruct (bindingMode g), (isRefType (globalType g))|];
      repeat (apply agree_WRITE; [lia|]); by apply agree_addBlankSpace.
  - unfold addIndexAndLength. by apply agree_addLEB128.
  - unfold addTableInit. repeat (apply agree_WRITE; [lia|]). by apply agree_addBlankSpace.
  - unfold addTableCopy. repeat (apply agree_WRITE; [lia|]). by apply agree_addBlankSpace.
  - unfold addSelect. by apply agree_addRawValue.
  - unfold addBlock, push_control. by apply agree_addRawValue.
  - unfold addLoop, push_control. by apply agree_addRawValue.
  - unfold addIf, push_control. apply agree_addRawValue.
    { rewrite metadataSize_addBlankSpace; lia. }
    by apply agree_addBlankSpace.
  - done.
  - unfold addCatchToUnreachable. by destruct (m_controlStack s !! block).
  - unfold addCatchAllToUnreachable. by destruct (m_controlStack s !! block).
  - apply appends_addBranch.
  - rewrite addSwitch_branches.
    eapply appends_trans; [|apply appends_fold_addBranch].
    split; [by apply agree_addRawValue|rewrite metadataSize_addRawValue; lia].
Qed.

Lemma appends_run calls :
  forall s s',
    Forall (fun call => patches call.2 = false) calls ->
    run calls s = Some s' -> appends s s'.
Proof.
  induction calls as [|[p cb] rest IH]; intros s s' Hall Hrun; cbn in Hrun.
  - injection Hrun as <-. apply appends_refl.
  - apply Forall_cons_1 in Hall as [Hcb Hall]. destruct (accepts cb s); [|done].
    eapply appends_trans; [by apply appends_invoke|by apply IH].
Qed.

End appends.

(** ** The vector grows by whole entries *)

Section entries.

Implicit Types (s : IPIntGenerator) (p : FunctionParser).

Lemma growsByEntries_by k s s' :
  0 <= k -> metadataSize s' = metadataSize s + 8 * k -> growsByEntries s s'.
Proof. intros Hk Hs. by exists k. Qed.

Lemma growsByEntries_refl s : growsByEntries s s.
Proof. apply (growsByEntries_by 0); lia. Qed.

Lemma growsByEntries_trans s1 s2 s3 :
  growsByEntries s1 s2 -> growsByEntries s2 s3 -> growsByEntries s1 s3.
Proof. intros (k1 & ? & ?) (k2 & ? & ?). apply (growsByEntries_by (k1 + k2)); lia. Qed.

Lemma roundUpToMultipleOf8_eq x : roundUpToMultipleOf8 x = 8 * ((x + 7) / 8).
Proof. unfold roundUpToMultipleOf8. lia. Qed.

Lemma growsByEntries_addReturnData types s : growsByEntries s (addReturnData types s).
Proof.
  apply (growsByEntries_by ((Z.of_nat (length types) + 2 + 7) / 8)).
  - apply Z.div_pos; lia.
  - by rewrite metadataSize_addReturnData_eq, roundUpToMultipleOf8_eq.
Qed.

Lemma metadataSize_addCallCommonData cpu signature s :
  exists k, 0 <= k /\
    metadataSize (addCallCommonData cpu signature s) = metadataSize s + 32 + 8 * k.
Proof.
  unfold addCallCommonData.
  set (s4 := WRITE_TO_METADATA (metadataSize s + 24) 0 8 _).
  assert (Hsize4 : metadataSize s4 = metadataSize s + 32).
  { subst s4. rewrite !metadataSize_WRITE, metadataSize_addBlankSpace; lia. }
  pose proof (metadataSize_addCallCommonDataLoop cpu (metadataSize s)
                (argumentTypes signature) (wrap_u 16 (argumentCount signature - 1)) 0 0 []
                s4) as Hsize5.
  destruct (addCallCommonDataLoop _ _ _ _ _ _ _ s4) as [locations s5].
  cbn [snd] in Hsize5.
  exists ((Z.of_nat (length locations) * 2 + 6 + 7) / 8
          + (Z.of_nat (length (returnTypes signature)) + 2 + 7) / 8).
  split.
  - apply Z.add_nonneg_nonneg; apply Z.div_pos; lia.
  - rewrite metadataSize_addReturnData_eq, metadataSize_writeStackLocations,
      !metadataSize_WRITE.
    rewrite metadataSize_addBlankSpace by (apply roundUpToMultipleOf8_nonneg; lia).
    rewrite !roundUpToMultipleOf8_eq. lia.
Qed.

Lemma growsByEntries_addBranch block stackSize p s :
  growsByEntries s (addBranch block stackSize p s).
Proof.
  destruct (m_controlStack s !! block) as [b|] eqn:Hb.
  - apply (growsByEntries_by 2); [lia|].
    unfold metadataSize. rewrite (addBranch_eq s block b stackSize p Hb). cbn.
    rewrite length_app, length_branchEntry. unfold metadata. lia.
  - unfold addBranch. rewrite Hb. apply growsByEntries_refl.
Qed.

Lemma growsByEntries_fold_addBranch stackSize p (targets : list nat) :
  forall s,
    growsByEntries s (fold_left (fun s block => addBranch block stackSize p s) targets s).
Proof.
  induction targets as [|t rest IH]; intros s; [apply growsByEntries_refl|].
  cbn [fold_left]. eapply growsByEntries_trans; [apply growsByEntries_addBranch|apply IH].
Qed.

Lemma growsByEntries_addEndToUnreachable entry p s :
  growsByEntries s (addEndToUnreachable entry p s).
Proof.
  unfold addEndToUnreachable.
  destruct (m_controlStack s !! entry) as [block|]; [|apply growsByEntries_refl].
  destruct (isIf block).
  { apply (growsByEntries_by 0); [lia|]. rewrite metadataSize_patchTarget. lia. }
  destruct (isBlock block).
  { apply (growsByEntries_by 0); [lia|].
    case_bool_decide; [rewrite metadataSize_patchTarget; lia|].
    rewrite (metadataSize_fold_patchTarget
               (fun s => (currentPC p s - 1, metadataSize s))). lia. }
  destruct (isLoop block).
  { apply (growsByEntries_by 0); [lia|].
    rewrite (metadataSize_fold_patchTarget (fun _ => (m_pc block, m_mc block))). lia. }
  destruct (isTopLevel block); [|apply growsByEntries_refl].
  eapply growsByEntries_trans; [|apply growsByEntries_addReturnData].
  apply (growsByEntries_by 0); [lia|].
  change (metadataSize (fold_left
            (fun s x => patchTarget (currentPC p s - 1) (metadataSize s) s x)
            (m_awaitingUpdate block) s) = metadataSize s + 8 * 0).
  rewrite (metadataSize_fold_patchTarget
             (fun s => (currentPC p s - 1, metadataSize s))). lia.
Qed.

(** Every callback grows the vector by a whole number of entries. *)
Lemma growsByEntries_invoke cb p s : growsByEntries s (invoke cb p s).
Proof.
  destruct cb; cbn [invoke].
  - destruct op; apply growsByEntries_refl.
  - destruct op; apply growsByEntries_refl.
  - unfold addConstant, addLEB128ConstantAndLengthForType.
    destruct (isI32 type); [|destruct (isI64 type); [|apply growsByEntries_refl]].
    + apply (growsByEntries_by 1); [lia|].
      rewrite !metadataSize_WRITE, metadataSize_addBlankSpace; lia.
    + apply (growsByEntries_by 2); [lia|].
      rewrite !metadataSize_WRITE, metadataSize_addBlankSpace; lia.
  - unfold addCall.
    destruct (metadataSize_addCallCommonData cpu signature
                (WRITE_TO_METADATA (metadataSize s + 4) (currentPC p s) 4
                   (WRITE_TO_METADATA (metadataSize s) index 4 (addBlankSpace 8 s))))
      as (k & Hk & Hsize).
    apply (growsByEntries_by (k + 5)); [lia|]. cbv zeta. rewrite Hsize.
    rewrite !metadataSize_WRITE, metadataSize_addBlankSpace; lia.
  - unfold addCallIndirect.
    destruct (metadataSize_addCallCommonData cpu signature
                (WRITE_TO_METADATA (metadataSize s + 12) (currentPC p s) 4
                   (WRITE_TO_METADATA (metadataSize s + 4) typeIndex 4
                      (WRITE_TO_METADATA (metadataSize s) tableIndex 4
                         (addBlankSpace 16 s)))))
      as (k & Hk & Hsize).
    apply (growsByEntries_by (k + 6)); [lia|]. cbv zeta. rewrite Hsize.
    rewrite !metadataSize_WRITE, metadataSize_addBlankSpace; lia.
  - apply (growsByEntries_by 0); [lia|]. unfold metadataSize, metadata. cbn. lia.
  - apply (growsByEntries_by 1); [lia|].
    unfold getLocal. case_bool_decide; rewrite metadataSize_addLEB128; lia.
  - apply (growsByEntries_by 1); [lia|].
    unfold setLocal. case_bool_decide; rewrite metadataSize_addLEB128; lia.
  - apply (growsByEntries_by 1); [lia|].
    unfold getGlobal. cbn. destruct (globals (m_info s) !! _) as [g|];
      [destruct (bindingMode g)|];
      rewrite !metadataSize_WRITE, metadataSize_addBlankSpace; lia.
  - apply (growsByEntries_by 1); [lia|].
    unfold setGlobal. cbn. destruct (globals (m_info s) !! _) as [g|];
      [destruct (bindingMode g), (isRefType (globalType g))|];
      rewrite !metadataSize_WRITE, metadataSize_addBlankSpace; lia.
  - apply (growsByEntries_by 1); [lia|].
    unfold addIndexAndLength. rewrite metadataSize_addLEB128. lia.
  - apply (growsByEntries_by 2); [lia|].
    unfold addTableInit. rewrite !metadataSize_WRITE, metadataSize_addBlankSpace; lia.
  - apply (growsByEntries_by 2); [lia|].
    unfold addTableCopy. rewrite !metadataSize_WRITE, metadataSize_addBlankSpace; lia.
  - apply (growsByEntries_by 1); [lia|].
    unfold addSelect. rewrite metadataSize_addRawValue. lia.
  - apply (growsByEntries_by 1); [lia|].
    unfold addBlock. rewrite metadataSize_push_control, metadataSize_addRawValue. lia.
  - apply (growsByEntries_by 1); [lia|].
    unfold addLoop. rewrite metadataSize_push_control, metadataSize_addRawValue. lia.
  - apply (growsByEntries_by 2); [lia|].
    unfold addIf.
    rewrite metadataSize_push_control, metadataSize_addRawValue,
      metadataSize_addBlankSpace; lia.
  - unfold addElseToUnreachable.
    destruct (m_controlStack s !! block) as [b|]; [|apply growsByEntries_refl].
    case_bool_decide.
    + apply (growsByEntries_by 0); [lia|].
      rewrite metadataSize_set_control, !metadataSize_WRITE. lia.
    + apply (growsByEntries_by 1); [lia|].
      rewrite metadataSize_addBlankSpace by lia.
      rewrite metadataSize_set_control, !metadataSize_WRITE. lia.
  - apply (growsByEntries_by 0); [lia|]. unfold metadataSize, metadata. cbn. lia.
  - apply (growsByEntries_by 0); [lia|]. unfold addCatchToUnreachable.
    destruct (m_controlStack s !! block); unfold metadataSize, metadata; cbn; lia.
  - apply (growsByEntries_by 0); [lia|]. unfold addCatchAllToUnreachable.
    destruct (m_controlStack s !! block); unfold metadataSize, metadata; cbn; lia.
  - apply growsByEntries_addBranch.
  - rewrite addSwitch_branches.
    eapply growsByEntries_trans; [|apply growsByEntries_fold_addBranch].
    apply (growsByEntries_by 1); [lia|]. rewrite metadataSize_addRawValue. lia.
  - apply growsByEntries_addEndToUnreachable.
Qed.

Lemma growsByEntries_run calls :
  forall s s', run calls s = Some s' -> growsByEntries s s'.
Proof.
  induction calls as [|[p cb] rest IH]; intros s s' Hrun; cbn in Hrun.
  - injection Hrun as <-. apply growsByEntries_refl.
  - destruct (accepts cb s); [|done].
    eapply growsByEntries_trans; [apply (growsByEntries_invoke cb p)|by apply IH].
Qed.

End entries.

(** ** Scopes that keep their kind *)

Section scopes.

Implicit Types (s : IPIntGenerator) (p : FunctionParser) (b : IPIntControlType).

Lemma stableKind_not_if b : stableKind (m_blockType b) = true -> isIf b = false.
Proof. unfold isIf. by destruct (m_blockType b). Qed.

Lemma stableKind_not_catch b :
  stableKind (m_blockType b) = true -> isTry b || isAnyCatch b = false.
Proof. unfold isTry, isAnyCatch. by destruct (m_blockType b). Qed.

Lemma keepsScope_refl i s : keepsScope i s s.
Proof.
  split; [done|]. intros _ b Hb Hkind. exists b, [].
  split_and!; [done..|by rewrite app_nil_r|cbn; lia].
Qed.

Lemma keepsScope_trans i s1 s2 s3 :
  keepsScope i s1 s2 -> keepsScope i s2 s3 -> keepsScope i s1 s3.
Proof.
  intros [Hs12 H12] [Hs23 H23]. split; [lia|].
  intros Hfit b Hb Hkind.
  destruct (H12 ltac:(lia) b Hb Hkind)
    as (b2 & new2 & Hb2 & Hk2 & Hsig2 & Hp2 & Hpc2 & Hmc2 & Ha2 & Hsp2).
  destruct (H23 Hfit b2 Hb2 ltac:(congruence))
    as (b3 & new3 & Hb3 & Hk3 & Hsig3 & Hp3 & Hpc3 & Hmc3 & Ha3 & Hsp3).
  exists b3, (new2 ++ new3). split_and!; [congruence..| |].
  - by rewrite Ha3, Ha2, app_assoc.
  - by eapply spaced_app.
Qed.

(** A step that leaves entry [i] alone. *)
Lemma keepsScope_same_entry i s s' :
  metadataSize s <= metadataSize s' ->
  (forall b, m_controlStack s !! i = Some b -> stableKind (m_blockType b) = true ->
             m_controlStack s' !! i = Some b) ->
  keepsScope i s s'.
Proof.
  intros Hsize Hsame. split; [done|]. intros _ b Hb Hkind. exists b, [].
  split_and!; [by apply Hsame|done..|by rewrite app_nil_r|cbn; lia].
Qed.

Lemma keepsScope_addBranch i block stackSize p s :
  keepsScope i s (addBranch block stackSize p s).
Proof.
  destruct (m_controlStack s !! block) as [bt|] eqn:Hbt.
  2:{ unfold addBranch. rewrite Hbt. apply keepsScope_refl. }
  pose proof (addBranch_eq s block bt stackSize p Hbt) as Heq.
  assert (Hsize : metadataSize (addBranch block stackSize p s) = metadataSize s + 16).
  { unfold metadataSize. rewrite Heq. cbn.
    rewrite length_app, length_branchEntry. unfold metadata. lia. }
  destruct (decide (block = i)) as [->|Hne].
  - split; [lia|]. intros Hfit b Hb Hkind.
    rewrite Hbt in Hb. injection Hb as ->.
    eexists _, [metadataSize s]. split_and!.
    + rewrite Heq. cbn. apply list_lookup_insert_eq. by eapply lookup_lt_Some.
    + done.
    + done.
    + done.
    + done.
    + done.
    + cbn. rewrite wrap_u_small; [done|]. pose proof (metadataSize_nonneg s). lia.
    + cbn. lia.
  - apply keepsScope_same_entry; [lia|]. intros b Hb _.
    rewrite Heq. cbn. by rewrite list_lookup_insert_ne.
Qed.

Lemma keepsScope_fold_addBranch i stackSize p (targets : list nat) :
  forall s,
    keepsScope i s (fold_left (fun s block => addBranch block stackSize p s) targets s).
Proof.
  induction targets as [|t rest IH]; intros s; [apply keepsScope_refl|].
  cbn [fold_left]. eapply keepsScope_trans; [apply keepsScope_addBranch|apply IH].
Qed.

(** A callback the parser accepts keeps every scope of a stable kind. *)
Lemma keepsScope_invoke i cb p s :
  accepts cb s = true -> keepsScope i s (invoke cb p s).
Proof.
  intros Hacc.
  pose proof (metadataSize_invoke cb p s) as Hsize.
  destruct cb; cbn [invoke] in *.
  all: try match goal with
           | |- keepsScope _ _ (addBranch _ _ _ _) => apply keepsScope_addBranch
           end.
  all: try match goal with
           | |- keepsScope _ _ (addSwitch _ _ _ _ _) => idtac
           | |- keepsScope _ _ _ =>
               apply keepsScope_same_entry; [done|]; intros b Hb Hkind
           end.
  - by destruct op.
  - by destruct op.
  - by rewrite (proj1 (proj2 (quiet_addConstant type value p s))).
  - by rewrite (proj1 (proj2 (quiet_addCall cpu index signature p s))).
  - by rewrite (proj1 (proj2 (quiet_addCallIndirect cpu tableIndex typeIndex signature p s))).
  - done.
  - unfold getLocal. by case_bool_decide.
  - unfold setLocal. by case_bool_decide.
  - unfold getGlobal. cbn. destruct (globals (m_info s) !! _) as [g|]; [|done].
    by destruct (bindingMode g).
  - unfold setGlobal. cbn. destruct (globals (m_info s) !! _) as [g|]; [|done].
    by destruct (bindingMode g), (isRefType (globalType g)).
  - done.
  - done.
  - done.
  - done.
  - unfold addBlock, push_control. cbn. by apply lookup_app_l_Some.
  - unfold addLoop, push_control. cbn. by apply lookup_app_l_Some.
  - unfold addIf, push_control. cbn. by apply lookup_app_l_Some.
  - cbn in Hacc. unfold addElseToUnreachable.
    destruct (m_controlStack s !! block) as [bi|] eqn:Hbi; [|done].
    assert (block <> i) as Hne.
    { intros ->. rewrite Hb in Hbi. injection Hbi as <-.
      by rewrite (stableKind_not_if b Hkind) in Hacc. }
    case_bool_decide; cbn; by rewrite list_lookup_insert_ne.
  - unfold addTry, push_control. cbn. by apply lookup_app_l_Some.
  - cbn in Hacc. unfold addCatchToUnreachable.
    destruct (m_controlStack s !! block) as [bi|] eqn:Hbi; [|done].
    assert (block <> i) as Hne.
    { intros ->. rewrite Hb in Hbi. injection Hbi as <-.
      by rewrite (stableKind_not_catch b Hkind) in Hacc. }
    cbn. by rewrite list_lookup_insert_ne.
  - cbn in Hacc. unfold addCatchAllToUnreachable.
    destruct (m_controlStack s !! block) as [bi|] eqn:Hbi; [|done].
    assert (block <> i) as Hne.
    { intros ->. rewrite Hb in Hbi. injection Hbi as <-.
      by rewrite (stableKind_not_catch b Hkind) in Hacc. }
    cbn. by rewrite list_lookup_insert_ne.
  - rewrite addSwitch_branches.
    eapply keepsScope_trans; [|apply keepsScope_fold_addBranch].
    apply keepsScope_same_entry; [rewrite metadataSize_addRawValue; lia|].
    intros b Hb _. by rewrite addRawValue_eq.
  - by rewrite controlStack_addEndToUnreachable.
Qed.

Lemma keepsScope_run i calls :
  forall s s', run calls s = Some s' -> keepsScope i s s'.
Proof.
  induction calls as [|[p cb] rest IH]; intros s s' Hrun; cbn in Hrun.
  - injection Hrun as <-. apply keepsScope_refl.
  - destruct (accepts cb s) eqn:Hacc; [|done].
    eapply keepsScope_trans; [by apply keepsScope_invoke|by apply IH].
Qed.

(** The targets of a forward scope are the PC and the MC at its [end]. *)
Lemma fold_patchTarget_current p (l : list Z) :
  forall s,
    fold_left (fun s x => patchTarget (currentPC p s - 1) (metadataSize s) s x) l s
    = fold_left (patchTarget (currentPC p s - 1) (metadataSize s)) l s.
Proof.
  assert (forall pc mc s, currentPC p s - 1 = pc -> metadataSize s = mc ->
            fold_left (fun s x => patchTarget (currentPC p s - 1) (metadataSize s) s x) l s
            = fold_left (patchTarget pc mc) l s) as H.
  { induction l as [|x l IH]; intros pc mc s Hpc Hmc; [done|].
    cbn [fold_left]. rewrite Hpc, Hmc. apply IH.
    - by rewrite currentPC_patchTarget.
    - by rewrite metadataSize_patchTarget. }
  intros s. by apply H.
Qed.

(** The end of a block that never was an [if] writes the position of the
    [end] at each awaiting offset. *)
Lemma addEndToUnreachable_block entry p s b :
  m_controlStack s !! entry = Some b -> m_blockType b = BlockType.Block ->
  m_pendingOffset b = -1 ->
  spaced 0 (m_awaitingUpdate b) (metadataSize s) ->
  forall x, x ∈ m_awaitingUpdate b ->
    readBytes (metadata (addEndToUnreachable entry p s)) x 8
    = targetBytes (currentPC p s - 1) (metadataSize s).
Proof.
  intros Hb Hkind Hpend Hsp x Hx. unfold addEndToUnreachable. rewrite Hb.
  unfold isIf, isBlock. rewrite Hkind, Hpend. cbn.
  rewrite fold_patchTarget_current.
  by apply (fold_patchTarget_spaced (currentPC p s - 1) (metadataSize s)
              (m_awaitingUpdate b) 0 s).
Qed.

(** The end of the function does the same, sets the length of the bytecode
    and appends the return data. *)
Lemma addEndToUnreachable_topLevel entry p s b :
  m_controlStack s !! entry = Some b -> m_blockType b = BlockType.TopLevel ->
  spaced 0 (m_awaitingUpdate b) (metadataSize s) ->
  m_bytecodeLength (m_generator (addEndToUnreachable entry p s)) = offset p /\
  metadataSize (addEndToUnreachable entry p s)
  = metadataSize s + roundUpToMultipleOf8 (Z.of_nat (length (branchTargetTypes b)) + 2) /\
  forall x, x ∈ m_awaitingUpdate b ->
    readBytes (metadata (addEndToUnreachable entry p s)) x 8
    = targetBytes (currentPC p s - 1) (metadataSize s).
Proof.
  intros Hb Hkind Hsp. unfold addEndToUnreachable. rewrite Hb.
  unfold isIf, isBlock, isLoop, isTopLevel. rewrite Hkind. cbn [bool_decide decide_rel].
  rewrite !bool_decide_eq_false_2 by done. rewrite bool_decide_eq_true_2 by done.
  rewrite fold_patchTarget_current.
  destruct (fold_patchTarget_spaced (currentPC p s - 1) (metadataSize s)
              (m_awaitingUpdate b) 0 s ltac:(lia) Hsp) as (Hsize & Hin & _).
  set (s1 := fold_left _ _ s) in *. cbv zeta.
  set (s2 := set_generator _ s1).
  assert (Hm2 : metadata s2 = metadata s1) by done.
  assert (Hs2 : metadataSize s2 = metadataSize s).
  { unfold metadataSize. by rewrite Hm2. }
  split_and!.
  - done.
  - by rewrite metadataSize_addReturnData_eq, Hs2.
  - intros x Hx. rewrite <- (Hin x Hx), <- Hm2.
    destruct (spaced_elem_of _ _ _ _ Hsp Hx) as [Hx0 Hx1].
    apply (readBytes_agreeBelow (metadataSize s2)); [done|lia|].
    apply agree_addReturnData; [lia|apply agreeBelow_refl].
Qed.

(** The end of a block that an [else] opened resolves the placeholder of
    the [else]. *)
Lemma addEndToUnreachable_else entry p s b :
  m_controlStack s !! entry = Some b -> m_blockType b = BlockType.Block ->
  0 <= m_pendingOffset b -> m_pendingOffset b + 8 <= metadataSize s ->
  readBytes (metadata (addEndToUnreachable entry p s)) (m_pendingOffset b) 8
  = targetBytes (currentPC p s - 1) (metadataSize s).
Proof.
  intros Hb Hkind H0 H1. unfold addEndToUnreachable. rewrite Hb.
  unfold isIf, isBlock. rewrite Hkind.
  rewrite bool_decide_eq_false_2 by done. rewrite !bool_decide_eq_true_2 by (done || lia).
  rewrite patchTarget_eq by done. cbn.
  apply readBytes_write_target; [done|]. unfold metadataSize in H1. lia.
Qed.

(** No callback changes the signature of a scope or the number of values a
    branch to it carries. *)
Lemma arity_invoke cb p s i b :
  accepts cb s = true -> m_controlStack s !! i = Some b ->
  exists b', m_controlStack (invoke cb p s) !! i = Some b' /\
    m_signature b' = m_signature b /\ isLoop b' = isLoop b /\
    isTry b' || isAnyCatch b' = isTry b || isAnyCatch b.
Proof.
  intros Hacc Hb.
  destruct cb; cbn [invoke] in *.
  all: try match goal with
           | |- context [addBranch _ _ _ _] => idtac
           | |- context [addSwitch _ _ _ _ _] => idtac
           | |- context [addElseToUnreachable _ _ _] => idtac
           | |- context [addCatchToUnreachable _ _] => idtac
           | |- context [addCatchAllToUnreachable _ _] => idtac
           | |- _ => exists b; split; [|done]
           end.
  - by destruct op.
  - by destruct op.
  - by rewrite (proj1 (proj2 (quiet_addConstant type value p s))).
  - by rewrite (proj1 (proj2 (quiet_addCall cpu index signature p s))).
  - by rewrite (proj1 (proj2 (quiet_addCallIndirect cpu tableIndex typeIndex signature p s))).
  - done.
  - unfold getLocal. by case_bool_decide.
  - unfold setLocal. by case_bool_decide.
  - unfold getGlobal. cbn. destruct (globals (m_info s) !! _) as [g|]; [|done].
    by destruct (bindingMode g).
  - unfold setGlobal. cbn. destruct (globals (m_info s) !! _) as [g|]; [|done].
    by destruct (bindingMode g), (isRefType (globalType g)).
  - done.
  - done.
  - done.
  - done.
  - unfold addBlock, push_control. cbn. by apply lookup_app_l_Some.
  - unfold addLoop, push_control. cbn. by apply lookup_app_l_Some.
  - unfold addIf, push_control. cbn. by apply lookup_app_l_Some.
  - cbn in Hacc. unfold addElseToUnreachable.
    destruct (m_controlStack s !! block) as [bi|] eqn:Hbi; [|done].
    destruct (decide (block = i)) as [->|Hne].
    + rewrite Hb in Hbi. injection Hbi as <-.
      assert (m_blockType b = BlockType.If) as Hif.
      { unfold isIf in Hacc. by apply bool_decide_eq_true_1 in Hacc. }
      case_bool_decide; eexists; (split; [cbn; apply list_lookup_insert_eq;
        by eapply lookup_lt_Some|]); unfold isLoop, isTry, isAnyCatch; rewrite Hif; done.
    + exists b. split; [|done]. case_bool_decide; cbn; by rewrite list_lookup_insert_ne.
  - unfold addTry, push_control. cbn. by apply lookup_app_l_Some.
  - cbn in Hacc. unfold addCatchToUnreachable.
    destruct (m_controlStack s !! block) as [bi|] eqn:Hbi; [|done].
    destruct (decide (block = i)) as [->|Hne].
    + rewrite Hb in Hbi. injection Hbi as <-.
      eexists; (split; [cbn; apply list_lookup_insert_eq; by eapply lookup_lt_Some|]).
      split; [done|]. unfold isTry, isAnyCatch, isLoop in *. cbn.
      by destruct (m_blockType b).
    + exists b. split; [|done]. cbn. by rewrite list_lookup_insert_ne.
  - cbn in Hacc. unfold addCatchAllToUnreachable.
    destruct (m_controlStack s !! block) as [bi|] eqn:Hbi; [|done].
    destruct (decide (block = i)) as [->|Hne].
    + rewrite Hb in Hbi. injection Hbi as <-.
      eexists; (split; [cbn; apply list_lookup_insert_eq; by eapply lookup_lt_Some|]).
      split; [done|]. unfold isTry, isAnyCatch, isLoop in *. cbn.
      by destruct (m_blockType b).
    + exists b. split; [|done]. cbn. by rewrite list_lookup_insert_ne.
  - destruct (grows_addBranch block stackSize p s i b Hb)
      as (b' & Hb' & Hsig & Hkind & _).
    exists b'. split_and!; [done..| |]; unfold isLoop, isTry, isAnyCatch; by rewrite Hkind.
  - rewrite addSwitch_branches.
    assert (Hg : grows (m_controlStack s)
                   (m_controlStack
                      (fold_left (fun s block => addBranch block stackSize p s)
                         (jumps ++ [defaultJump])
                         (addRawValue (Z.of_nat (length jumps) + 1) s)))).
    { change (m_controlStack s)
        with (m_controlStack (addRawValue (Z.of_nat (length jumps) + 1) s)) at 1.
      generalize (addRawValue (Z.of_nat (length jumps) + 1) s).
      induction (jumps ++ [defaultJump]) as [|t rest IH]; intros s0; [apply grows_refl|].
      cbn [fold_left]. eapply grows_trans; [apply grows_addBranch|apply IH]. }
    destruct (Hg i b Hb) as (b' & Hb' & Hsig & Hkind & _).
    exists b'. split_and!; [done..| |]; unfold isLoop, isTry, isAnyCatch; by rewrite Hkind.
  - by rewrite controlStack_addEndToUnreachable.
Qed.

End scopes.

(** ** Branches into a scope are recorded in its entry *)

Section registration.

Implicit Types (s : IPIntGenerator) (p : FunctionParser) (b : IPIntControlType).

Lemma omap_lookup_seq {A} (l : list A) :
  forall pre, omap (fun i => (pre ++ l) !! i) (seq (length pre) (length l)) = l.
Proof.
  induction l as [|x l IH]; intros pre; [done|].
  change (omap (fun i => (pre ++ x :: l) !! i) (seq (length pre) (length (x :: l))))
    with (match (pre ++ x :: l) !! length pre with
          | Some y => y :: omap (fun i => (pre ++ x :: l) !! i)
                             (seq (S (length pre)) (length l))
          | None => omap (fun i => (pre ++ x :: l) !! i) (seq (S (length pre)) (length l))
          end).
  rewrite list_lookup_middle by done. f_equal.
  specialize (IH (pre ++ [x])). rewrite length_app, <- app_assoc in IH. cbn in IH.
  by rewrite Nat.add_1_r in IH.
Qed.

Lemma branchTargetTypes_forward b :
  m_blockType b <> BlockType.Loop -> branchTargetTypes b = returnTypes (m_signature b).
Proof.
  intros Hkind. unfold branchTargetTypes, branchTargetType, branchTargetArity, isLoop.
  rewrite !bool_decide_eq_false_2 by done.
  unfold returnCount. rewrite Nat2Z.id.
  apply (omap_lookup_seq (returnTypes (m_signature b)) []).
Qed.

(** The offset of the entry of a [br] or [br_if] is in the awaiting list of
    its target when the run is over. *)
Lemma branch_registered i calls1 pb stackSize calls2 s1 smid s b1 b :
  run (calls1 ++ (pb, CbBranch i stackSize) :: calls2) s1 = Some s ->
  run calls1 s1 = Some smid ->
  metadataSize s < 2 ^ 32 ->
  m_controlStack s1 !! i = Some b1 -> stableKind (m_blockType b1) = true ->
  m_controlStack s !! i = Some b ->
  metadataSize smid ∈ m_awaitingUpdate b.
Proof.
  intros Hrun Hrun1 Hfit Hb1 Hkind Hb.
  rewrite run_app, Hrun1 in Hrun. cbn in Hrun.
  pose proof (metadataSize_run _ _ _ Hrun) as Hmono2.
  pose proof (metadataSize_addBranch i stackSize pb smid) as Hmono3.
  destruct (keepsScope_run i calls1 s1 smid Hrun1) as [_ Hkeep1].
  destruct (Hkeep1 ltac:(lia) b1 Hb1 Hkind) as (bm & newm & Hbm & Hkindm & _).
  assert (Hbm' : m_controlStack (addBranch i stackSize pb smid) !! i
                 = Some (set_awaitingUpdate
                           (m_awaitingUpdate bm ++ [wrap_u 32 (metadataSize smid)]) bm)).
  { rewrite (addBranch_eq smid i bm stackSize pb Hbm). cbn.
    apply list_lookup_insert_eq. by eapply lookup_lt_Some. }
  destruct (keepsScope_run i calls2 _ s Hrun) as [_ Hkeep2].
  destruct (Hkeep2 Hfit _ Hbm' ltac:(cbn; congruence))
    as (b' & new' & Hb' & _ & _ & _ & _ & _ & Hnew' & _).
  rewrite Hb in Hb'. injection Hb' as <-.
  rewrite Hnew'. cbn.
  rewrite wrap_u_small by (pose proof (metadataSize_nonneg smid); lia).
  rewrite !elem_of_app, list_elem_of_singleton. auto.
Qed.

(** What [arity_invoke] says of one callback holds of a run. *)
Lemma arity_run calls :
  forall s s' i b,
    run calls s = Some s' -> m_controlStack s !! i = Some b ->
    exists b', m_controlStack s' !! i = Some b' /\
      m_signature b' = m_signature b /\ isLoop b' = isLoop b /\
      isTry b' || isAnyCatch b' = isTry b || isAnyCatch b.
Proof.
  induction calls as [|[p cb] rest IH]; intros s s' i b Hrun Hb; cbn in Hrun.
  - injection Hrun as <-. by exists b.
  - destruct (accepts cb s) eqn:Hacc; [|done].
    destruct (arity_invoke cb p s i b Hacc Hb) as (b1 & Hb1 & Hsig1 & Hloop1 & Hexn1).
    destruct (IH _ _ i b1 Hrun Hb1) as (b' & Hb' & Hsig' & Hloop' & Hexn').
    exists b'. split_and!; [done|congruence..].
Qed.

End registration.

(** ** What [end] leaves alone *)

Section footprint.

Implicit Types (s : IPIntGenerator) (p : FunctionParser) (b : IPIntControlType).

Lemma lookup_patchTarget_outside pc mc s x (i : nat) :
  (Z.of_nat i < x \/ x + 8 <= Z.of_nat i) ->
  metadata (patchTarget pc mc s x) !! i = metadata s !! i.
Proof.
  intros Hi. unfold patchTarget. cbv zeta. rewrite !WRITE_TO_METADATA_eq. cbn.
  rewrite !lookup_writeBytes_outside; [done|rewrite length_le_bytes; lia..].
Qed.

Lemma lookup_fold_patchTarget_outside (f : IPIntGenerator -> Z * Z) (l : list Z) (i : nat) :
  Forall (fun x => Z.of_nat i < x \/ x + 8 <= Z.of_nat i) l ->
  forall s,
    metadata (fold_left (fun s x => patchTarget (f s).1 (f s).2 s x) l s) !! i
    = metadata s !! i.
Proof.
  induction l as [|x l IH]; intros Hall s; [done|].
  apply Forall_cons_1 in Hall as [Hx Hall].
  cbn [fold_left]. rewrite IH by done. by apply lookup_patchTarget_outside.
Qed.

Lemma lookup_addEndToUnreachable_outside entry p s b (i : nat) :
  m_controlStack s !! entry = Some b ->
  Z.of_nat i < metadataSize s ->
  Forall (fun x => Z.of_nat i < x \/ x + 8 <= Z.of_nat i) (patchSites b) ->
  metadata (addEndToUnreachable entry p s) !! i = metadata s !! i.
Proof.
  intros Hb Hi Hall. unfold patchSites in Hall.
  unfold addEndToUnreachable. rewrite Hb.
  destruct (isIf b).
  { apply Forall_cons_1 in Hall as [Hpend _]. by apply lookup_patchTarget_outside. }
  destruct (isBlock b).
  { case_bool_decide.
    - apply Forall_cons_1 in Hall as [Hpend _]. by apply lookup_patchTarget_outside.
    - by apply (lookup_fold_patchTarget_outside
                  (fun s => (currentPC p s - 1, metadataSize s))). }
  destruct (isLoop b).
  { by apply (lookup_fold_patchTarget_outside (fun _ => (m_pc b, m_mc b))). }
  destruct (isTopLevel b); [|done].
  set (s1 := fold_left _ _ s).
  assert (H1 : metadata s1 !! i = metadata s !! i).
  { by apply (lookup_fold_patchTarget_outside
                (fun s => (currentPC p s - 1, metadataSize s))). }
  assert (Hs1 : metadataSize s1 = metadataSize s).
  { apply (metadataSize_fold_patchTarget
             (fun s => (currentPC p s - 1, metadataSize s))). }
  cbv zeta. set (s2 := set_generator _ s1).
  assert (Hm2 : metadata s2 = metadata s1) by done.
  rewrite <- H1, <- Hm2.
  apply (agree_addReturnData (metadataSize s2) (metadata s2)).
  - done.
  - apply agreeBelow_refl.
  - unfold metadataSize. rewrite Hm2. fold (metadataSize s1). lia.
Qed.

Lemma metadataSize_addEndToUnreachable_inner entry p s b :
  m_controlStack s !! entry = Some b -> isTopLevel b = false ->
  metadataSize (addEndToUnreachable entry p s) = metadataSize s.
Proof.
  intros Hb Htop. unfold addEndToUnreachable. rewrite Hb, Htop.
  destruct (isIf b); [apply metadataSize_patchTarget|].
  destruct (isBlock b).
  { case_bool_decide; [apply metadataSize_patchTarget|].
    apply (metadataSize_fold_patchTarget (fun s => (currentPC p s - 1, metadataSize s))). }
  destruct (isLoop b); [|done].
  apply (metadataSize_fold_patchTarget (fun _ => (m_pc b, m_mc b))).
Qed.

Lemma silent_invoke call s :
  emitsNothing call = true -> accepts call.2 s = true /\ invoke call.2 call.1 s = s.
Proof.
  destruct call as [p cb]. unfold emitsNothing. cbn.
  destruct cb; try discriminate; intros _; (split; [done|]); by destruct op.
Qed.

End footprint.

(** ** The slots of a layout are distinct *)

Section slots.

Implicit Types (s : IPIntGenerator) (p : FunctionParser) (args : list TypeKind).

Lemma argumentLayout_slots args :
  forall numGPR numFPR stackOffset,
    0 <= numGPR <= 8 -> 0 <= numFPR <= 8 -> 16 <= stackOffset ->
    NoDup (argumentLayout args numGPR numFPR stackOffset) /\
    forall x, x ∈ argumentLayout args numGPR numFPR stackOffset ->
      numGPR <= x < 8 \/ 8 + numFPR <= x < 16 \/
      stackOffset <= x
        < stackOffset
          + Z.of_nat (length (stackSlots (argumentLayout args numGPR numFPR stackOffset))).
Proof.
  induction args as [|arg rest IH]; intros g f so Hg Hf Hso.
  { split; [apply NoDup_nil_2|]. intros x Hx. by apply elem_of_nil in Hx. }
  cbn [argumentLayout]. unfold stackSlots in *.
  destruct (isIntegerType arg); case_bool_decide.
  - destruct (IH (g + 1) f so ltac:(lia) Hf Hso) as [Hnd Hin].
    rewrite filter_cons_False by lia. split.
    + apply NoDup_cons_2; [|done]. intros Hx. apply Hin in Hx. lia.
    + intros x Hx. apply elem_of_cons in Hx as [->|Hx]; [lia|]. apply Hin in Hx. lia.
  - destruct (IH g f (so + 1) Hg Hf ltac:(lia)) as [Hnd Hin].
    rewrite filter_cons_True by lia. cbn [length]. split.
    + apply NoDup_cons_2; [|done]. intros Hx. apply Hin in Hx. lia.
    + intros x Hx. apply elem_of_cons in Hx as [->|Hx]; [lia|]. apply Hin in Hx. lia.
  - destruct (IH g (f + 1) so Hg ltac:(lia) Hso) as [Hnd Hin].
    rewrite filter_cons_False by lia. split.
    + apply NoDup_cons_2; [|done]. intros Hx. apply Hin in Hx. lia.
    + intros x Hx. apply elem_of_cons in Hx as [->|Hx]; [lia|]. apply Hin in Hx. lia.
  - destruct (IH g f (so + 1) Hg Hf ltac:(lia)) as [Hnd Hin].
    rewrite filter_cons_True by lia. cbn [length]. split.
    + apply NoDup_cons_2; [|done]. intros Hx. apply Hin in Hx. lia.
    + intros x Hx. apply elem_of_cons in Hx as [->|Hx]; [lia|]. apply Hin in Hx. lia.
Qed.

(** The word [getLocal] records for a local. *)
Lemma load_getLocal index p s :
  load 4 (metadata (getLocal index p s)) (metadataSize s)
  = wrap_u 32 (if bool_decide (index >= m_numArguments (m_generator s))
               then index + m_nonArgLocalOffset (m_generator s)
               else argumentLocation s index).
Proof.
  case_bool_decide.
  - rewrite getLocal_local by lia. apply load_appended_words.
  - rewrite getLocal_argument by lia. apply load_appended_words.
Qed.

End slots.

(** ** The entries of a global *)

Section globals.

Implicit Types (s : IPIntGenerator) (p : FunctionParser).

Lemma getGlobal_eq index p s g :
  globals (m_info s) !! Z.to_nat index = Some g ->
  getGlobal index p s =
  {| m_generator :=
       set_metadata
         (metadata s ++ le_bytes 4 index ++ le_bytes 2 (getCurrentInstructionLength p)
            ++ le_bytes 2 (bindingModeTag (bindingMode g))) (m_generator s);
     m_info := m_info s; m_controlStack := m_controlStack s |}.
Proof.
  intros Hg. unfold getGlobal. cbn [m_info WRITE_TO_METADATA addBlankSpace set_generator].
  rewrite Hg.
  assert (forall tag,
    WRITE_TO_METADATA (metadataSize s + 6) tag 2
      (WRITE_TO_METADATA (metadataSize s + 4) (getCurrentInstructionLength p) 2
         (WRITE_TO_METADATA (metadataSize s) index 4 (addBlankSpace 8 s)))
    = {| m_generator :=
           set_metadata
             (metadata s ++ le_bytes 4 index ++ le_bytes 2 (getCurrentInstructionLength p)
                ++ le_bytes 2 tag) (m_generator s);
         m_info := m_info s; m_controlStack := m_controlStack s |}) as H.
  { intros tag. rewrite !WRITE_TO_METADATA_eq, addBlankSpace_eq. cbn.
    rewrite !set_metadata_twice. f_equal. f_equal.
    change (replicate (Z.to_nat 8) 0)
      with (replicate 4 0 ++ replicate 2 0 ++ replicate 2 0 ++ @nil Z).
    rewrite (writeBytes_app (metadata s) (replicate 4 0) (le_bytes 4 index)); [|done..].
    rewrite (writeBytes_app_mid (metadata s) _ (replicate 2 0)
               (le_bytes 2 (getCurrentInstructionLength p)));
      [|rewrite length_le_bytes; unfold metadataSize; lia|done].
    rewrite (app_assoc (le_bytes 4 index)).
    rewrite (writeBytes_app_mid (metadata s) _ (replicate 2 0) (le_bytes 2 tag));
      [|rewrite length_app, !length_le_bytes; unfold metadataSize; lia|done].
    by rewrite <- !app_assoc, app_nil_r. }
  destruct (bindingMode g); apply H.
Qed.

Lemma setGlobal_eq index p s g :
  globals (m_info s) !! Z.to_nat index = Some g ->
  setGlobal index p s =
  {| m_generator :=
       set_metadata
         (metadata s ++ le_bytes 4 index ++ le_bytes 2 (getCurrentInstructionLength p)
            ++ le_bytes 1 (bindingModeTag (bindingMode g))
            ++ le_bytes 1 (if isRefType (globalType g) then 1 else 0)) (m_generator s);
     m_info := m_info s; m_controlStack := m_controlStack s |}.
Proof.
  intros Hg. unfold setGlobal. cbn [m_info WRITE_TO_METADATA addBlankSpace set_generator].
  rewrite Hg.
  assert (forall tag ref,
    WRITE_TO_METADATA (metadataSize s + 7) ref 1
      (WRITE_TO_METADATA (metadataSize s + 6) tag 1
         (WRITE_TO_METADATA (metadataSize s + 4) (getCurrentInstructionLength p) 2
            (WRITE_TO_METADATA (metadataSize s) index 4 (addBlankSpace 8 s))))
    = {| m_generator :=
           set_metadata
             (metadata s ++ le_bytes 4 index ++ le_bytes 2 (getCurrentInstructionLength p)
                ++ le_bytes 1 tag ++ le_bytes 1 ref) (m_generator s);
         m_info := m_info s; m_controlStack := m_controlStack s |}) as H.
  { intros tag ref. rewrite !WRITE_TO_METADATA_eq, addBlankSpace_eq. cbn.
    rewrite !set_metadata_twice. f_equal. f_equal.
    change (replicate (Z.to_nat 8) 0)
      with (replicate 4 0 ++ replicate 2 0 ++ replicate 1 0 ++ replicate 1 0 ++ @nil Z).
    rewrite (writeBytes_app (metadata s) (replicate 4 0) (le_bytes 4 index)); [|done..].
    rewrite (writeBytes_app_mid (metadata s) _ (replicate 2 0)
               (le_bytes 2 (getCurrentInstructionLength p)));
      [|rewrite length_le_bytes; unfold metadataSize; lia|done].
    rewrite (app_assoc (le_bytes 4 index)).
    rewrite (writeBytes_app_mid (metadata s) _ (replicate 1 0) (le_bytes 1 tag));
      [|rewrite length_app, !length_le_bytes; unfold metadataSize; lia|done].
    rewrite (app_assoc (le_bytes 4 index ++ _)).
    rewrite (writeBytes_app_mid (metadata s) _ (replicate 1 0) (le_bytes 1 ref));
      [|rewrite !length_app, !length_le_bytes; unfold metadataSize; lia|done].
    by rewrite <- !app_assoc, app_nil_r. }
  destruct (bindingMode g), (isRefType (globalType g)); apply H.
Qed.

End globals.

(** ** The entry of a call in closed form *)

Section calls.

Implicit Types (s : IPIntGenerator) (p : FunctionParser) (args : list TypeKind).

Lemma metadata_WRITE off v w s :
  metadata (WRITE_TO_METADATA off v w s) = writeBytes (metadata s) off (le_bytes w v).
Proof. done. Qed.

Lemma metadata_addBlankSpace n s :
  metadata (addBlankSpace n s) = metadata s ++ replicate (Z.to_nat n) 0.
Proof. done. Qed.

Lemma length_concat_words (l : list Z) :
  length (concat (le_bytes 2 <$> l)) = (2 * length l)%nat.
Proof.
  induction l as [|x l IH]; [done|].
  cbn [fmap list_fmap concat length]. rewrite length_app, length_le_bytes.
  change (length (concat (le_bytes 2 <$> l)) = (2 * length l)%nat) in IH. lia.
Qed.

Lemma concat_words_snoc (l : list Z) x :
  concat (le_bytes 2 <$> (l ++ [x])) = concat (le_bytes 2 <$> l) ++ le_bytes 2 x.
Proof. rewrite fmap_app, concat_app. cbn. by rewrite app_nil_r. Qed.

Lemma length_registerSlots (l : list Z) :
  (length l <= 8)%nat -> length (registerSlots l) = 16%nat.
Proof.
  intros Hl. unfold registerSlots.
  rewrite length_app, length_concat_words, length_replicate. lia.
Qed.

Lemma registerSlots_snoc (l : list Z) x :
  (length l < 8)%nat ->
  registerSlots l
  = concat (le_bytes 2 <$> l) ++ replicate 2 0 ++ replicate (16 - 2 * length (l ++ [x])) 0 /\
  registerSlots (l ++ [x])
  = concat (le_bytes 2 <$> l) ++ le_bytes 2 x ++ replicate (16 - 2 * length (l ++ [x])) 0.
Proof.
  intros Hl. unfold registerSlots. rewrite concat_words_snoc, length_app. cbn [length].
  split; [|by rewrite <- app_assoc].
  f_equal. rewrite <- replicate_add. f_equal. lia.
Qed.

Lemma maxGPRs_le cpu : 0 <= maxGPRs cpu <= 8.
Proof. destruct cpu; cbn; lia. Qed.

(** The loop over the arguments fills the register slots from the left and
    collects the other offsets. *)
Lemma addCallCommonDataLoop_eq cpu args :
  forall stackOffset (gs fs : list Z) locs s pre post,
    Z.of_nat (length gs) <= maxGPRs cpu -> (length fs <= 8)%nat ->
    metadata s = pre ++ registerSlots gs ++ registerSlots fs ++ post ->
    forall gprs fprs locations,
      callLayout cpu args stackOffset (Z.of_nat (length gs)) (Z.of_nat (length fs))
        = (gprs, fprs, locations) ->
      forall r,
        addCallCommonDataLoop cpu (Z.of_nat (length pre)) args stackOffset
          (Z.of_nat (length gs)) (Z.of_nat (length fs)) locs s = r ->
        r.1 = locs ++ locations /\
        metadata r.2
          = pre ++ registerSlots (gs ++ gprs) ++ registerSlots (fs ++ fprs) ++ post /\
        Z.of_nat (length (gs ++ gprs)) <= maxGPRs cpu /\
        (length (fs ++ fprs) <= 8)%nat /\
        (length gprs + length fprs + length locations = length args)%nat.
Proof.
  pose proof (maxGPRs_le cpu) as Hmax.
  induction args as [|argType rest IH];
    intros so gs fs locs s pre post Hg Hf Hm gprs fprs locations Hlay r Hr.
  { cbn in Hlay, Hr. injection Hlay as <- <- <-. subst r. cbn.
    by rewrite !app_nil_r. }
  cbn [callLayout addCallCommonDataLoop] in Hlay, Hr.
  destruct ((isI32 argType || isI64 argType)
            && negb (bool_decide (Z.of_nat (length gs) = maxGPRs cpu))) eqn:Hint.
  - apply andb_true_iff in Hint as [_ Hne]. apply negb_true_iff in Hne.
    apply bool_decide_eq_false_1 in Hne.
    assert (Hlt : (length gs < 8)%nat) by lia.
    assert (Hw : wrap_u 8 (Z.of_nat (length gs) + 1) = Z.of_nat (length (gs ++ [so]))).
    { rewrite length_app. cbn [length]. rewrite wrap_u_small; lia. }
    rewrite Hw in Hlay, Hr.
    destruct (callLayout cpu rest _ _ _) as [[gprs' fprs'] locations'] eqn:Hlay'.
    injection Hlay as <- <- <-.
    destruct (registerSlots_snoc gs so Hlt) as [Hold Hnew].
    destruct (IH (wrap_u 16 (so - 1)) (gs ++ [so]) fs locs
                (WRITE_TO_METADATA (Z.of_nat (length pre) + 2 * Z.of_nat (length gs)) so 2 s)
                pre post) with (4 := Hlay') (5 := Hr) as (H1 & H2 & H3 & H4 & H5).
    + rewrite length_app. cbn [length]. lia.
    + done.
    + rewrite metadata_WRITE, Hm, Hold, Hnew, <- !app_assoc.
      apply writeBytes_app_mid; [|done].
      rewrite length_concat_words. lia.
    + rewrite <- !app_assoc in H2, H3. cbn [app] in H2, H3.
      split_and!; [done..|]. cbn [length]. lia.
  - clear Hint.
    destruct ((isF32 argType || isF64 argType)
              && negb (bool_decide (Z.of_nat (length fs) = maxFPRs))) eqn:Hfl.
    + apply andb_true_iff in Hfl as [_ Hne]. apply negb_true_iff in Hne.
      apply bool_decide_eq_false_1 in Hne. unfold maxFPRs in Hne.
      assert (Hlt : (length fs < 8)%nat) by lia.
      assert (Hw : wrap_u 8 (Z.of_nat (length fs) + 1) = Z.of_nat (length (fs ++ [so]))).
      { rewrite length_app. cbn [length]. rewrite wrap_u_small; lia. }
      rewrite Hw in Hlay, Hr.
      destruct (callLayout cpu rest _ _ _) as [[gprs' fprs'] locations'] eqn:Hlay'.
      injection Hlay as <- <- <-.
      destruct (registerSlots_snoc fs so Hlt) as [Hold Hnew].
      destruct (IH (wrap_u 16 (so - 1)) gs (fs ++ [so]) locs
                  (WRITE_TO_METADATA
                     (Z.of_nat (length pre) + 16 + 2 * Z.of_nat (length fs)) so 2 s)
                  pre post) with (4 := Hlay') (5 := Hr) as (H1 & H2 & H3 & H4 & H5).
      * done.
      * rewrite length_app. cbn [length]. lia.
      * rewrite metadata_WRITE, Hm, Hold, Hnew.
        rewrite (app_assoc (registerSlots gs)), <- !app_assoc.
        rewrite (app_assoc (registerSlots gs)).
        rewrite (app_assoc (registerSlots gs) (concat (le_bytes 2 <$> fs)) (le_bytes 2 so ++ _)).
        apply writeBytes_app_mid; [|done].
        rewrite length_app, length_registerSlots, length_concat_words by lia. lia.
      * rewrite <- !app_assoc in H2, H4. cbn [app] in H2, H4.
        split_and!; [done..|]. cbn [length]. lia.
    + clear Hfl.
      destruct (callLayout cpu rest _ _ _) as [[gprs' fprs'] locations'] eqn:Hlay'.
      injection Hlay as <- <- <-.
      destruct (IH (wrap_u 16 (so - 1)) gs fs (locs ++ [so]) s pre post Hg Hf Hm
                  _ _ _ Hlay' _ Hr) as (H1 & H2 & H3 & H4 & H5).
      rewrite <- app_assoc in H1. cbn [app] in H1.
      split_and!; [done..|]. cbn [length]. lia.
Qed.

(** The second loop writes the collected offsets after the 6-byte header. *)
Lemma writeStackLocations_eq (locs : list Z) :
  forall (written : list Z) s pre header post,
    length header = 6%nat ->
    metadata s
      = pre ++ header ++ concat (le_bytes 2 <$> written)
          ++ replicate (2 * length locs) 0 ++ post ->
    metadata (writeStackLocations (Z.of_nat (length pre)) (Z.of_nat (length written)) locs s)
      = pre ++ header ++ concat (le_bytes 2 <$> (written ++ locs)) ++ post.
Proof.
  induction locs as [|loc rest IH]; intros written s pre header post Hh Hm.
  { cbn in *. by rewrite app_nil_r. }
  cbn [writeStackLocations].
  replace (Z.of_nat (length written) + 1) with (Z.of_nat (length (written ++ [loc])))
    by (rewrite length_app; cbn [length]; lia).
  rewrite (IH (written ++ [loc]) _ pre header post Hh).
  { by rewrite <- app_assoc. }
  rewrite metadata_WRITE, Hm, concat_words_snoc.
  replace (2 * length (loc :: rest))%nat with (2 + 2 * length rest)%nat by (cbn; lia).
  rewrite replicate_add, <- !app_assoc.
  rewrite (app_assoc header).
  rewrite (app_assoc header (concat (le_bytes 2 <$> written)) (le_bytes 2 loc ++ _)).
  apply writeBytes_app_mid; [|done].
  rewrite length_app, length_concat_words, Hh. lia.
Qed.

Lemma writeBytes_zeros buf pre (n : nat) post off :
  off = Z.of_nat (length buf) + Z.of_nat (length pre) ->
  writeBytes (buf ++ pre ++ replicate n 0 ++ post) off (replicate n 0)
  = buf ++ pre ++ replicate n 0 ++ post.
Proof. intros Hoff. apply writeBytes_app_mid; [done|]. by rewrite !length_replicate. Qed.

Lemma roundUpToMultipleOf8_ge x : x <= roundUpToMultipleOf8 x.
Proof.
  unfold roundUpToMultipleOf8.
  pose proof (Z.div_mod (x + 7) 8 ltac:(lia)).
  pose proof (Z.mod_pos_bound (x + 7) 8 ltac:(lia)). lia.
Qed.

(** [addCallCommonData] in closed form. *)
Lemma addCallCommonData_eq cpu signature s gprs fprs locations :
  callLayout cpu (argumentTypes signature) (wrap_u 16 (argumentCount signature - 1)) 0 0
    = (gprs, fprs, locations) ->
  exists returns,
    metadata (addCallCommonData cpu signature s)
      = metadata s ++ registerSlots gprs ++ registerSlots fprs
          ++ le_bytes 2 (roundUpToMultipleOf8 (Z.of_nat (length locations) * 2 + 6))
          ++ le_bytes 2 (argumentCount signature)
          ++ le_bytes 2 (Z.of_nat (length locations))
          ++ concat (le_bytes 2 <$> locations)
          ++ replicate
               (Z.to_nat (roundUpToMultipleOf8 (Z.of_nat (length locations) * 2 + 6))
                - 6 - 2 * length locations) 0
          ++ returns /\
    Z.of_nat (length returns) = roundUpToMultipleOf8 (returnCount signature + 2) /\
    Z.of_nat (length gprs) <= maxGPRs cpu /\ (length fprs <= 8)%nat /\
    (length gprs + length fprs + length locations = length (argumentTypes signature))%nat.
Proof.
  intros Hlay. unfold addCallCommonData.
  set (s4 := WRITE_TO_METADATA (metadataSize s + 24) 0 8 _).
  assert (Hm4 : metadata s4
                = metadata s ++ registerSlots [] ++ registerSlots [] ++ []).
  { subst s4. rewrite !metadata_WRITE, metadata_addBlankSpace.
    change (le_bytes 8 0) with (replicate 8 0).
    change (registerSlots [] ++ registerSlots [] ++ [])
      with (replicate 8 0 ++ replicate 8 0 ++ replicate 8 0 ++ replicate 8 0 ++ @nil Z).
    change (replicate (Z.to_nat 32) 0)
      with (replicate 8 0 ++ replicate 8 0 ++ replicate 8 0 ++ replicate 8 0 ++ @nil Z).
    rewrite <- (app_nil_l (replicate 8 0 ++ _)) at 1.
    rewrite (writeBytes_zeros (metadata s) [] 8); [|cbn; unfold metadataSize; lia].
    cbn [app].
    rewrite (writeBytes_zeros (metadata s) (replicate 8 0) 8);
      [|cbn; unfold metadataSize; lia].
    rewrite (app_assoc (replicate 8 0) (replicate 8 0)).
    rewrite (writeBytes_zeros (metadata s) (replicate 8 0 ++ replicate 8 0) 8);
      [|cbn; unfold metadataSize; lia].
    rewrite (app_assoc (replicate 8 0 ++ replicate 8 0) (replicate 8 0)).
    rewrite (writeBytes_zeros (metadata s) ((replicate 8 0 ++ replicate 8 0) ++ replicate 8 0) 8);
      [|cbn; unfold metadataSize; lia].
    by rewrite <- !app_assoc. }
  pose proof (maxGPRs_le cpu) as Hmax.
  destruct (addCallCommonDataLoop_eq cpu (argumentTypes signature)
              (wrap_u 16 (argumentCount signature - 1)) [] [] [] s4 (metadata s) []
              ltac:(cbn; lia) ltac:(cbn; lia) Hm4 gprs fprs locations Hlay _ eq_refl)
    as (Hlocs & Hm5 & Hg & Hf & Hcount).
  change (Z.of_nat (length (metadata s))) with (metadataSize s) in Hlocs, Hm5.
  change (Z.of_nat (@length Z [])) with 0 in Hlocs, Hm5.
  destruct (addCallCommonDataLoop _ _ _ _ _ _ _ s4) as [locations' s5].
  cbn [fst snd app] in Hlocs, Hm5, Hg, Hf. subst locations'.
  set (k := length locations) in *.
  set (extraSize := roundUpToMultipleOf8 (Z.of_nat k * 2 + 6)).
  assert (Hex : Z.of_nat k * 2 + 6 <= extraSize) by apply roundUpToMultipleOf8_ge.
  assert (Hs5 : metadataSize s5
                = Z.of_nat (length (metadata s ++ registerSlots gprs ++ registerSlots fprs))).
  { unfold metadataSize. by rewrite Hm5, app_nil_r. }
  set (pre := metadata s ++ registerSlots gprs ++ registerSlots fprs) in *.
  set (header := le_bytes 2 extraSize ++ le_bytes 2 (argumentCount signature)
                   ++ le_bytes 2 (Z.of_nat k)).
  set (s8 := WRITE_TO_METADATA (metadataSize s5 + 4) (Z.of_nat k) 2 _).
  assert (Hm8 : metadata s8
                = pre ++ header ++ concat (le_bytes 2 <$> [])
                    ++ replicate (2 * k) 0 ++ replicate (Z.to_nat extraSize - 6 - 2 * k) 0).
  { subst s8 header. rewrite !metadata_WRITE, metadata_addBlankSpace, Hm5, app_nil_r.
    fold pre. rewrite Hs5.
    replace (replicate (Z.to_nat extraSize) 0)
      with (replicate 2 0 ++ replicate 2 0 ++ replicate 2 0
              ++ replicate (2 * k) 0 ++ replicate (Z.to_nat extraSize - 6 - 2 * k) 0).
    2:{ rewrite <- !replicate_add. f_equal. lia. }
    rewrite (writeBytes_app pre (replicate 2 0) (le_bytes 2 extraSize)); [|done..].
    rewrite (writeBytes_app_mid pre _ (replicate 2 0)
               (le_bytes 2 (argumentCount signature)));
      [|rewrite length_le_bytes; lia|done].
    rewrite (app_assoc (le_bytes 2 extraSize)).
    rewrite (writeBytes_app_mid pre _ (replicate 2 0) (le_bytes 2 (Z.of_nat k)));
      [|rewrite length_app, !length_le_bytes; lia|done].
    by rewrite <- !app_assoc. }
  pose proof (writeStackLocations_eq locations [] s8 pre header _
                ltac:(subst header; rewrite !length_app, !length_le_bytes; lia) Hm8) as Hm9.
  cbn [app length] in Hm9. rewrite <- Hs5 in Hm9.
  change (Z.of_nat 0) with 0 in Hm9.
  set (s9 := writeStackLocations (metadataSize s5) 0 locations s8) in *.
  destruct (agreeBelow_prefix (metadata s9)
              (metadata (addReturnData (returnTypes signature) s9))) as [returns Hret].
  { apply agree_addReturnData; [done|apply agreeBelow_refl]. }
  { pose proof (metadataSize_addReturnData (returnTypes signature) s9) as Hle.
    unfold metadataSize in Hle. lia. }
  exists returns. split_and!; [|..|done|done|done].
  - rewrite Hret, Hm9. subst pre header. by rewrite <- !app_assoc.
  - pose proof (metadataSize_addReturnData_eq (returnTypes signature) s9) as Hsz.
    unfold metadataSize in Hsz. rewrite Hret, length_app in Hsz.
    unfold returnCount. lia.
Qed.

(** [stackOffsetsFrom] when the counter does not wrap. *)
Lemma stackOffsetsFrom_seq (n : nat) :
  forall stackOffset,
    Z.of_nat n - 1 <= stackOffset < 2 ^ 16 ->
    stackOffsetsFrom stackOffset n = (fun i : nat => stackOffset - Z.of_nat i) <$> seq 0 n.
Proof.
  induction n as [|n IH]; intros so Hso; [done|].
  cbn [stackOffsetsFrom seq fmap list_fmap]. f_equal; [lia|].
  destruct n as [|n]; [done|].
  rewrite IH by (rewrite wrap_u_small; lia).
  rewrite wrap_u_small by lia. rewrite <- fmap_S_seq, <- list_fmap_compose.
  apply list_fmap_ext. intros _ i _. cbn. lia.
Qed.

(** Every offset of the loop is recorded once, and each list keeps the
    order of the arguments. *)
Lemma callLayout_offsets cpu args :
  forall stackOffset gprsUsed fprsUsed gprs fprs locations,
    callLayout cpu args stackOffset gprsUsed fprsUsed = (gprs, fprs, locations) ->
    gprs ++ fprs ++ locations ≡ₚ stackOffsetsFrom stackOffset (length args) /\
    gprs `sublist_of` stackOffsetsFrom stackOffset (length args) /\
    fprs `sublist_of` stackOffsetsFrom stackOffset (length args) /\
    locations `sublist_of` stackOffsetsFrom stackOffset (length args).
Proof.
  induction args as [|argType rest IH]; intros so g f gprs fprs locations Hlay.
  { cbn in Hlay. injection Hlay as <- <- <-. done. }
  cbn [callLayout] in Hlay. cbn [length stackOffsetsFrom].
  destruct (_ && _).
  - destruct (callLayout cpu rest _ _ _) as [[gprs' fprs'] locations'] eqn:Hlay'.
    injection Hlay as <- <- <-.
    destruct (IH _ _ _ _ _ _ Hlay') as (Hp & Hg & Hf & Hl).
    split_and!.
    + cbn. by rewrite Hp.
    + by apply sublist_skip.
    + by apply sublist_cons.
    + by apply sublist_cons.
  - destruct (_ && _).
    + destruct (callLayout cpu rest _ _ _) as [[gprs' fprs'] locations'] eqn:Hlay'.
      injection Hlay as <- <- <-.
      destruct (IH _ _ _ _ _ _ Hlay') as (Hp & Hg & Hf & Hl).
      split_and!.
      * rewrite <- Hp. symmetry. apply Permutation_middle.
      * by apply sublist_cons.
      * by apply sublist_skip.
      * by apply sublist_cons.
    + destruct (callLayout cpu rest _ _ _) as [[gprs' fprs'] locations'] eqn:Hlay'.
      injection Hlay as <- <- <-.
      destruct (IH _ _ _ _ _ _ Hlay') as (Hp & Hg & Hf & Hl).
      split_and!.
      * rewrite <- Hp. rewrite (app_assoc gprs'), (app_assoc gprs').
        symmetry. apply Permutation_middle.
      * by apply sublist_cons.
      * by apply sublist_cons.
      * by apply sublist_skip.
Qed.

End calls.

Section call_locations.

Implicit Types (s : IPIntGenerator) (args : list TypeKind).

(** The offsets the loop collects do not depend on the buffer. *)
Lemma addCallCommonDataLoop_locations cpu base args :
  forall stackOffset gprsUsed fprsUsed locs s,
    (addCallCommonDataLoop cpu base args stackOffset gprsUsed fprsUsed locs s).1
    = locs ++ (callLayout cpu args stackOffset gprsUsed fprsUsed).2.
Proof.
  induction args as [|argType rest IH]; intros so g f locs s.
  { cbn. by rewrite app_nil_r. }
  cbn [addCallCommonDataLoop callLayout].
  destruct (_ && _); [|destruct (_ && _)]; rewrite IH;
    destruct (callLayout cpu rest _ _ _) as [[gprs fprs] locations]; cbn [snd]; [done..|].
  by rewrite <- app_assoc.
Qed.

End call_locations.

Section layout_kinds.

Implicit Types (args : list TypeKind).

(** An integer-typed parameter never takes a float register slot, and a
    parameter of any other type never takes an integer register slot. *)
Lemma argumentLayout_kinds args :
  forall numGPR numFPR stackOffset (i : nat) t slot,
    0 <= numGPR <= 8 -> 0 <= numFPR <= 8 -> 16 <= stackOffset ->
    args !! i = Some t ->
    argumentLayout args numGPR numFPR stackOffset !! i = Some slot ->
    (isIntegerType t = true -> numGPR <= slot < 8 \/ stackOffset <= slot) /\
    (isIntegerType t = false -> 8 + numFPR <= slot).
Proof.
  induction args as [|arg rest IH]; intros g f so i t slot Hg Hf Hso Ht Hslot; [done|].
  cbn [argumentLayout] in Hslot.
  destruct i as [|i]; cbn in Ht.
  - injection Ht as ->.
    destruct (isIntegerType t); case_bool_decide; cbn in Hslot;
      injection Hslot as <-; split; intros; try done; lia.
  - destruct (isIntegerType arg); case_bool_decide; cbn in Hslot.
    + destruct (IH (g + 1) f so i t slot ltac:(lia) Hf Hso Ht Hslot) as [H1 H2].
      split; intros Hk; [destruct (H1 Hk); lia|by apply H2].
    + destruct (IH g f (so + 1) i t slot Hg Hf ltac:(lia) Ht Hslot) as [H1 H2].
      split; intros Hk; [destruct (H1 Hk); lia|by apply H2].
    + destruct (IH g (f + 1) so i t slot Hg ltac:(lia) Hso Ht Hslot) as [H1 H2].
      split; intros Hk; [destruct (H1 Hk); lia|specialize (H2 Hk); lia].
    + destruct (IH g f (so + 1) i t slot Hg Hf ltac:(lia) Ht Hslot) as [H1 H2].
      split; intros Hk; [destruct (H1 Hk); lia|by apply H2].
Qed.

End layout_kinds.

(* ===================================================================== *)
(** ** Forward scopes                                                     *)
(* ===================================================================== *)

(** X1.  Open a block with [addBlock] and let the parser run on: whatever
    callbacks follow, the entry stays a block, and when its [end] is
    processed every offset in its awaiting list receives the PC of the
    [end] instruction (one less than the parser's position after it) and
    the size the metadata has at that moment.  The offset of every [br] or
    [br_if] entry that targets the block is in that list. *)
Theorem block_branches_resolve_to_block_end (signature : FunctionSignature)
    (p0 : FunctionParser) (s0 : IPIntGenerator)
    (calls : list (FunctionParser * Callback)) (s : IPIntGenerator)
    (pEnd : FunctionParser) :
  run calls (addBlock signature p0 s0) = Some s ->
  metadataSize s < 2 ^ 32 ->
  0 <= currentPC pEnd s - 1 < 2 ^ 32 ->
  exists b,
    m_controlStack s !! length (m_controlStack s0) = Some b /\
    m_blockType b = BlockType.Block /\
    (forall x, x ∈ m_awaitingUpdate b ->
       load 4 (metadata (addEndToUnreachable (length (m_controlStack s0)) pEnd s)) x
         = currentPC pEnd s - 1 /\
       load 4 (metadata (addEndToUnreachable (length (m_controlStack s0)) pEnd s)) (x + 4)
         = metadataSize s) /\
    (forall calls1 calls2 pb stackSize smid,
       calls = calls1 ++ (pb, CbBranch (length (m_controlStack s0)) stackSize) :: calls2 ->
       run calls1 (addBlock signature p0 s0) = Some smid ->
       metadataSize smid ∈ m_awaitingUpdate b).
Proof.
  intros Hrun Hfit Hpc.
  set (L := length (m_controlStack s0)).
  set (s1 := addBlock signature p0 s0) in *.
  set (b1 := ControlType signature BlockType.Block CatchKind.Catch).
  assert (Hb1 : m_controlStack s1 !! L = Some b1).
  { subst s1 b1 L. unfold addBlock, push_control. cbn. by apply list_lookup_middle. }
  pose proof (metadataSize_nonneg s1) as Hs1.
  pose proof (metadataSize_nonneg s) as Hs.
  destruct (keepsScope_run L calls s1 s Hrun) as [_ Hkeep].
  destruct (Hkeep Hfit b1 Hb1 eq_refl)
    as (b & new & Hb & Hkind & _ & Hpend & _ & _ & Hnew & Hsp).
  exists b. split_and!; [done|done| |].
  - intros x Hx.
    assert (Hr : readBytes (metadata (addEndToUnreachable L pEnd s)) x 8
                 = targetBytes (currentPC pEnd s - 1) (metadataSize s)).
    { apply (addEndToUnreachable_block L pEnd s b); try done.
      rewrite Hnew. cbn. eapply spaced_mono_lo; [|exact Hsp]. lia. }
    assert (0 <= x) as Hx0.
    { rewrite Hnew in Hx. cbn in Hx. destruct (spaced_elem_of _ _ _ _ Hsp Hx). lia. }
    destruct (load_targetBytes _ _ _ _ Hx0 Hr) as [Hl1 Hl2].
    rewrite Hl1, Hl2, !wrap_u_small by lia. done.
  - intros calls1 calls2 pb stackSize smid Hcalls Hrun1.
    rewrite Hcalls in Hrun.
    by apply (branch_registered L calls1 pb stackSize calls2 s1 smid s b1 b).
Qed.

(** Witness of [block_branches_resolve_to_block_end]: [block; br 0; end]
    at the start of a function body; the entry of the [br] lies at offset 8
    and is resolved to PC 4, the [end] of the block, and MC 24. *)
Lemma block_branches_resolve_to_block_end_witness :
  load 4
    (metadata
       (addEndToUnreachable 1 (parserAt 8 1 OpType_End)
          (addBranch 1 0 (parserAt 7 2 12)
             (addBlock sig_void (parserAt 5 2 2) (functionStart sig_void)))))
    8 = 4 /\
  load 4
    (metadata
       (addEndToUnreachable 1 (parserAt 8 1 OpType_End)
          (addBranch 1 0 (parserAt 7 2 12)
             (addBlock sig_void (parserAt 5 2 2) (functionStart sig_void)))))
    (8 + 4) = 24.
Proof.
  assert (Hrun : run [(parserAt 7 2 12, CbBranch 1 0)]
                   (addBlock sig_void (parserAt 5 2 2) (functionStart sig_void))
                 = Some (addBranch 1 0 (parserAt 7 2 12)
                           (addBlock sig_void (parserAt 5 2 2) (functionStart sig_void))))
    by (vm_compute; reflexivity).
  pose proof (block_branches_resolve_to_block_end sig_void (parserAt 5 2 2)
                (functionStart sig_void) _ _ (parserAt 8 1 OpType_End) Hrun) as H.
  destruct H as (b & _ & _ & Hpatch & Hreg); [by_evaluation..|].
  apply (Hpatch 8).
  exact (Hreg [] [] (parserAt 7 2 12) 0
           (addBlock sig_void (parserAt 5 2 2) (functionStart sig_void)) eq_refl eq_refl).
Defined.

(** X2.  The scope of the function itself, opened by [addTopLevel], is
    closed by the last [end]: every offset in its awaiting list receives
    the PC of that [end] and the size the metadata has before the return
    data, the length of the bytecode is set to the parser's position, and
    the return data of the function's result types is appended.  The offset
    of every [br] or [br_if] entry that targets the function scope is in
    that list. *)
Theorem function_end_resolves_branches (signature : FunctionSignature)
    (s0 : IPIntGenerator)
    (calls : list (FunctionParser * Callback)) (s : IPIntGenerator)
    (pEnd : FunctionParser) :
  run calls (addTopLevel signature s0) = Some s ->
  metadataSize s < 2 ^ 32 ->
  0 <= currentPC pEnd s - 1 < 2 ^ 32 ->
  exists b,
    m_controlStack s !! length (m_controlStack s0) = Some b /\
    m_blockType b = BlockType.TopLevel /\
    (forall x, x ∈ m_awaitingUpdate b ->
       load 4 (metadata (addEndToUnreachable (length (m_controlStack s0)) pEnd s)) x
         = currentPC pEnd s - 1 /\
       load 4 (metadata (addEndToUnreachable (length (m_controlStack s0)) pEnd s)) (x + 4)
         = metadataSize s) /\
    m_bytecodeLength (m_generator (addEndToUnreachable (length (m_controlStack s0)) pEnd s))
      = offset pEnd /\
    metadataSize (addEndToUnreachable (length (m_controlStack s0)) pEnd s)
      = metadataSize s + roundUpToMultipleOf8 (returnCount signature + 2) /\
    (forall calls1 calls2 pb stackSize smid,
       calls = calls1 ++ (pb, CbBranch (length (m_controlStack s0)) stackSize) :: calls2 ->
       run calls1 (addTopLevel signature s0) = Some smid ->
       metadataSize smid ∈ m_awaitingUpdate b).
Proof.
  intros Hrun Hfit Hpc.
  set (L := length (m_controlStack s0)).
  set (s1 := addTopLevel signature s0) in *.
  set (b1 := ControlType signature BlockType.TopLevel CatchKind.Catch).
  assert (Hb1 : m_controlStack s1 !! L = Some b1).
  { subst s1 b1 L. unfold addTopLevel, push_control. cbn. by apply list_lookup_middle. }
  pose proof (metadataSize_nonneg s1) as Hs1.
  pose proof (metadataSize_nonneg s) as Hs.
  destruct (keepsScope_run L calls s1 s Hrun) as [_ Hkeep].
  destruct (Hkeep Hfit b1 Hb1 eq_refl)
    as (b & new & Hb & Hkind & Hsig & _ & _ & _ & Hnew & Hsp).
  assert (Hsp0 : spaced 0 (m_awaitingUpdate b) (metadataSize s)).
  { rewrite Hnew. cbn. eapply spaced_mono_lo; [|exact Hsp]. lia. }
  destruct (addEndToUnreachable_topLevel L pEnd s b Hb Hkind Hsp0)
    as (Hlen & Hsize & Hpatch).
  exists b. split_and!; [done|done| |done| |].
  - intros x Hx.
    destruct (spaced_elem_of _ _ _ _ Hsp0 Hx) as [Hx0 _].
    destruct (load_targetBytes _ _ _ _ Hx0 (Hpatch x Hx)) as [Hl1 Hl2].
    rewrite Hl1, Hl2, !wrap_u_small by lia. done.
  - rewrite Hsize, branchTargetTypes_forward by (by rewrite Hkind).
    rewrite Hsig. done.
  - intros calls1 calls2 pb stackSize smid Hcalls Hrun1.
    rewrite Hcalls in Hrun.
    by apply (branch_registered L calls1 pb stackSize calls2 s1 smid s b1 b).
Qed.

(** Witness of [function_end_resolves_branches]: the body [local.get 0;
    br 0; end] of a function of type [(i32) -> (i32)]: the entry of the
    [br] lies at offset 8 and is resolved to PC 4, MC 24, and the bytecode
    ends at offset 8. *)
Lemma function_end_resolves_branches_witness :
  load 4
    (metadata
       (addEndToUnreachable 0 (parserAt 8 1 OpType_End)
          (addBranch 0 1 (parserAt 7 2 12)
             (getLocal 0 (parserAt 5 2 32) (functionStart sig_i32_i32)))))
    8 = 4 /\
  m_bytecodeLength
    (m_generator
       (addEndToUnreachable 0 (parserAt 8 1 OpType_End)
          (addBranch 0 1 (parserAt 7 2 12)
             (getLocal 0 (parserAt 5 2 32) (functionStart sig_i32_i32)))))
    = 8.
Proof.
  assert (Hrun : run [(parserAt 5 2 32, CbGetLocal 0); (parserAt 7 2 12, CbBranch 0 1)]
                   (addTopLevel sig_i32_i32
                      (didFinishParsingLocals (mkParser 3 3 0)
                         (addArguments sig_i32_i32 (newGenerator (mkModuleInformation [])))))
                 = Some (addBranch 0 1 (parserAt 7 2 12)
                           (getLocal 0 (parserAt 5 2 32) (functionStart sig_i32_i32))))
    by (vm_compute; reflexivity).
  pose proof (function_end_resolves_branches sig_i32_i32 _ _ _
                (parserAt 8 1 OpType_End) Hrun) as H.
  destruct H as (b & _ & _ & Hpatch & Hlen & _ & Hreg); [by_evaluation..|].
  split; [|exact Hlen].
  apply (Hpatch 8).
  exact (Hreg [(parserAt 5 2 32, CbGetLocal 0)] [] (parserAt 7 2 12) 1
           (getLocal 0 (parserAt 5 2 32) (functionStart sig_i32_i32)) eq_refl eq_refl).
Defined.

(** X3.  After a real [else] (the parser's current opcode is not [end]),
    whatever callbacks follow, the [end] of the scope resolves the
    placeholder that [else] allocated: the 8 bytes at the offset the
    metadata had when [else] was processed receive the PC of the [end]
    instruction and the size of the metadata at the [end]. *)
Theorem else_placeholder_resolved_at_end (block : nat) (b0 : IPIntControlType)
    (pElse : FunctionParser) (s0 : IPIntGenerator)
    (calls : list (FunctionParser * Callback)) (s : IPIntGenerator)
    (pEnd : FunctionParser) :
  m_controlStack s0 !! block = Some b0 ->
  currentOpcode pElse <> OpType_End ->
  run calls (addElseToUnreachable block pElse s0) = Some s ->
  metadataSize s < 2 ^ 31 ->
  0 <= currentPC pEnd s - 1 < 2 ^ 32 ->
  load 4 (metadata (addEndToUnreachable block pEnd s)) (metadataSize s0)
    = currentPC pEnd s - 1 /\
  load 4 (metadata (addEndToUnreachable block pEnd s)) (metadataSize s0 + 4)
    = metadataSize s /\
  metadataSize (addEndToUnreachable block pEnd s) = metadataSize s.
Proof.
  intros Hb0 Hop Hrun Hfit Hpc.
  set (s1 := addElseToUnreachable block pElse s0) in *.
  pose proof (metadataSize_nonneg s0) as Hs0.
  pose proof (metadataSize_run _ _ _ Hrun) as Hmono.
  assert (Hsize1 : metadataSize s1 = metadataSize s0 + 8).
  { subst s1. unfold addElseToUnreachable. rewrite Hb0.
    rewrite bool_decide_eq_false_2 by done.
    rewrite metadataSize_addBlankSpace by lia.
    rewrite metadataSize_set_control, !metadataSize_WRITE. lia. }
  set (b1 := set_pendingOffset (wrap_s32 (metadataSize s0))
               (ControlType (m_signature b0) BlockType.Block CatchKind.Catch)).
  assert (Hb1 : m_controlStack s1 !! block = Some b1).
  { subst s1 b1. unfold addElseToUnreachable. rewrite Hb0.
    rewrite bool_decide_eq_false_2 by done. rewrite !metadataSize_WRITE. cbn.
    apply list_lookup_insert_eq. by eapply lookup_lt_Some. }
  destruct (keepsScope_run block calls s1 s Hrun) as [_ Hkeep].
  destruct (Hkeep ltac:(lia) b1 Hb1 eq_refl)
    as (b & new & Hb & Hkind & _ & Hpend & _).
  assert (Hpend' : m_pendingOffset b = metadataSize s0).
  { rewrite Hpend. subst b1. cbn. apply wrap_s32_small. lia. }
  assert (Hr : readBytes (metadata (addEndToUnreachable block pEnd s)) (metadataSize s0) 8
               = targetBytes (currentPC pEnd s - 1) (metadataSize s)).
  { rewrite <- Hpend'. apply addEndToUnreachable_else; [done|by rewrite Hkind|lia|lia]. }
  destruct (load_targetBytes _ _ _ _ Hs0 Hr) as [Hl1 Hl2].
  rewrite Hl1, Hl2, !wrap_u_small by lia. split_and!; [done..|].
  unfold addEndToUnreachable. rewrite Hb. unfold isIf, isBlock. rewrite Hkind.
  rewrite bool_decide_eq_false_2 by done. rewrite !bool_decide_eq_true_2 by (done || lia).
  apply metadataSize_patchTarget.
Qed.

(** Witness of [else_placeholder_resolved_at_end]: the body
    [local.get 0; if; else; br 0; end]: the placeholder of the [else] lies
    at offset 24 and is resolved to PC 7, the [end], and MC 48. *)
Lemma else_placeholder_resolved_at_end_witness :
  load 4
    (metadata
       (addEndToUnreachable 1 (parserAt 11 1 OpType_End)
          (addBranch 1 0 (parserAt 10 2 12)
             (addElseToUnreachable 1 (parserAt 8 1 OpType_Else)
                (addIf sig_void (parserAt 7 2 4)
                   (getLocal 0 (parserAt 5 2 32) (functionStart sig_i32_void)))))))
    24 = 7 /\
  load 4
    (metadata
       (addEndToUnreachable 1 (parserAt 11 1 OpType_End)
          (addBranch 1 0 (parserAt 10 2 12)
             (addElseToUnreachable 1 (parserAt 8 1 OpType_Else)
                (addIf sig_void (parserAt 7 2 4)
                   (getLocal 0 (parserAt 5 2 32) (functionStart sig_i32_void)))))))
    (24 + 4) = 48.
Proof.
  assert (Hrun : run [(parserAt 10 2 12, CbBranch 1 0)]
                   (addElseToUnreachable 1 (parserAt 8 1 OpType_Else)
                      (addIf sig_void (parserAt 7 2 4)
                         (getLocal 0 (parserAt 5 2 32) (functionStart sig_i32_void))))
                 = Some (addBranch 1 0 (parserAt 10 2 12)
                           (addElseToUnreachable 1 (parserAt 8 1 OpType_Else)
                              (addIf sig_void (parserAt 7 2 4)
                                 (getLocal 0 (parserAt 5 2 32)
                                    (functionStart sig_i32_void))))))
    by (vm_compute; reflexivity).
  assert (Hb0 : m_controlStack
                  (addIf sig_void (parserAt 7 2 4)
                     (getLocal 0 (parserAt 5 2 32) (functionStart sig_i32_void))) !! 1%nat
                = Some (set_pendingOffset 8
                          (ControlType sig_void BlockType.If CatchKind.Catch)))
    by (vm_compute; reflexivity).
  assert (Hop : currentOpcode (parserAt 8 1 OpType_Else) <> OpType_End) by by_evaluation.
  pose proof (else_placeholder_resolved_at_end 1 _ (parserAt 8 1 OpType_Else) _ _ _
                (parserAt 11 1 OpType_End) Hb0 Hop Hrun) as H.
  destruct H as (H1 & H2 & _); [by_evaluation..|].
  split; [exact H1|exact H2].
Defined.

(* ===================================================================== *)
(** ** Invariants of a run                                                *)
(* ===================================================================== *)

(** X4.  A run without [else] and [end] only appends: the bytes the
    metadata held before the run are a prefix of the bytes it holds after
    it.  Only [else] and [end] overwrite what was emitted earlier. *)
Theorem run_without_patches_appends (calls : list (FunctionParser * Callback))
    (s s' : IPIntGenerator) :
  Forall (fun call => patches call.2 = false) calls ->
  run calls s = Some s' ->
  exists ext, metadata s' = metadata s ++ ext.
Proof.
  intros Hall Hrun. destruct (appends_run calls s s' Hall Hrun) as [Hagree Hsize].
  apply agreeBelow_prefix; [exact Hagree|]. unfold metadataSize in Hsize. lia.
Qed.

(** Witness of [run_without_patches_appends]: the callbacks of
    [block; br 0] after [local.get 0]. *)
Lemma run_without_patches_appends_witness :
  exists ext,
    metadata
      (addBranch 1 0 (parserAt 9 2 12)
         (addBlock sig_void (parserAt 7 2 2)
            (getLocal 0 (parserAt 5 2 32) (functionStart sig_i32_void))))
    = metadata (getLocal 0 (parserAt 5 2 32) (functionStart sig_i32_void)) ++ ext.
Proof.
  apply (run_without_patches_appends
           [(parserAt 7 2 2, CbBlock sig_void); (parserAt 9 2 12, CbBranch 1 0)]).
  - repeat (apply List.Forall_cons; [reflexivity|]). apply List.Forall_nil.
  - vm_compute. reflexivity.
Defined.

(** X5.  Whatever the parser calls, the metadata grows by a whole number of
    8-byte entries; so its size stays a multiple of 8 if it was one, as it
    is for a new generator. *)
Theorem run_keeps_metadata_aligned (calls : list (FunctionParser * Callback))
    (s s' : IPIntGenerator) :
  run calls s = Some s' ->
  (exists k, 0 <= k /\ metadataSize s' = metadataSize s + 8 * k) /\
  (metadataSize s mod 8 = 0 -> metadataSize s' mod 8 = 0).
Proof.
  intros Hrun. destruct (growsByEntries_run calls s s' Hrun) as (k & Hk & Hsize).
  split; [by exists k|]. intros Hal. rewrite Hsize.
  rewrite Z.add_mod, Hal, Z.mul_comm, Z.mod_mul by lia. done.
Qed.

(** Witness of [run_keeps_metadata_aligned]: [local.get 0; block; br 0;
    end; end] in a function of type [(i32) -> ()]. *)
Lemma run_keeps_metadata_aligned_witness :
  metadataSize
    (addEndToUnreachable 0 (parserAt 11 1 OpType_End)
       (addEndToUnreachable 1 (parserAt 10 1 OpType_End)
          (addBranch 1 0 (parserAt 9 2 12)
             (addBlock sig_void (parserAt 7 2 2)
                (getLocal 0 (parserAt 5 2 32) (functionStart sig_i32_void))))))
    mod 8 = 0.
Proof.
  assert (Hrun : run (body_block_br ++ body_block_two_ends) (functionStart sig_i32_void)
                 = Some (addEndToUnreachable 0 (parserAt 11 1 OpType_End)
                           (addEndToUnreachable 1 (parserAt 10 1 OpType_End)
                              (addBranch 1 0 (parserAt 9 2 12)
                                 (addBlock sig_void (parserAt 7 2 2)
                                    (getLocal 0 (parserAt 5 2 32)
                                       (functionStart sig_i32_void)))))))
    by (vm_compute; reflexivity).
  apply (proj2 (run_keeps_metadata_aligned _ _ _ Hrun)).
  vm_compute. reflexivity.
Defined.

(** X6.  [end] writes nowhere but at the entry's patch sites: it leaves the
    control entries as they are, it keeps every byte that does not lie in
    the 8 bytes at the pending offset or at an awaiting offset of the entry
    it closes, and unless it closes the function it keeps the size of the
    metadata. *)
Theorem end_writes_only_patch_sites (entry : nat) (p : FunctionParser)
    (s : IPIntGenerator) (b : IPIntControlType) :
  m_controlStack s !! entry = Some b ->
  m_controlStack (addEndToUnreachable entry p s) = m_controlStack s /\
  (isTopLevel b = false ->
   metadataSize (addEndToUnreachable entry p s) = metadataSize s) /\
  (forall i : nat,
     Z.of_nat i < metadataSize s ->
     Forall (fun x => Z.of_nat i < x \/ x + 8 <= Z.of_nat i) (patchSites b) ->
     metadata (addEndToUnreachable entry p s) !! i = metadata s !! i).
Proof.
  intros Hb. split_and!.
  - apply controlStack_addEndToUnreachable.
  - by apply metadataSize_addEndToUnreachable_inner.
  - intros i Hi Hall. by apply (lookup_addEndToUnreachable_outside entry p s b).
Qed.

(** Witness of [end_writes_only_patch_sites]: at the [end] of the block in
    [local.get 0; block; br 0; end], whose only patch site is the entry of
    the [br] at offset 16, the entry of [local.get] is kept. *)
Lemma end_writes_only_patch_sites_witness :
  metadata
    (addEndToUnreachable 1 (parserAt 10 1 OpType_End)
       (addBranch 1 0 (parserAt 9 2 12)
          (addBlock sig_void (parserAt 7 2 2)
             (getLocal 0 (parserAt 5 2 32) (functionStart sig_i32_void))))) !! 0%nat
  = metadata
      (addBranch 1 0 (parserAt 9 2 12)
         (addBlock sig_void (parserAt 7 2 2)
            (getLocal 0 (parserAt 5 2 32) (functionStart sig_i32_void)))) !! 0%nat.
Proof.
  assert (Hb : m_controlStack
                 (addBranch 1 0 (parserAt 9 2 12)
                    (addBlock sig_void (parserAt 7 2 2)
                       (getLocal 0 (parserAt 5 2 32) (functionStart sig_i32_void))))
                 !! 1%nat
               = Some (set_awaitingUpdate [16]
                         (ControlType sig_void BlockType.Block CatchKind.Catch)))
    by (vm_compute; reflexivity).
  destruct (end_writes_only_patch_sites 1 (parserAt 10 1 OpType_End) _ _ Hb)
    as (_ & _ & Hkeep).
  apply Hkeep.
  - vm_compute. reflexivity.
  - repeat (apply List.Forall_cons; [vm_compute; first [left; reflexivity|right; discriminate]|]).
    apply List.Forall_nil.
Defined.

(** X7.  No run changes what a branch to an open scope carries: every
    control entry stays in the store with the signature it had, and with
    the same branch arity, even when [else] or a catch clause replaces the
    entry. *)
Theorem run_keeps_branch_arity (calls : list (FunctionParser * Callback))
    (s s' : IPIntGenerator) (i : nat) (b : IPIntControlType) :
  run calls s = Some s' ->
  m_controlStack s !! i = Some b ->
  exists b', m_controlStack s' !! i = Some b' /\
    m_signature b' = m_signature b /\
    branchTargetArity b' = branchTargetArity b.
Proof.
  intros Hrun Hb.
  destruct (arity_run calls s s' i b Hrun Hb) as (b' & Hb' & Hsig & Hloop & _).
  exists b'. split_and!; [done..|].
  unfold branchTargetArity. by rewrite Hloop, Hsig.
Qed.

(** Witness of [run_keeps_branch_arity]: the [if] entry of
    [local.get 0; if; else; br 0] is replaced at the [else] and is still in
    the store. *)
Lemma run_keeps_branch_arity_witness :
  exists b',
    m_controlStack
      (addBranch 1 0 (parserAt 10 2 12)
         (addElseToUnreachable 1 (parserAt 8 1 OpType_Else)
            (addIf sig_void (parserAt 7 2 4)
               (getLocal 0 (parserAt 5 2 32) (functionStart sig_i32_void))))) !! 1%nat
    = Some b' /\
    m_signature b' = sig_void /\ branchTargetArity b' = 0.
Proof.
  assert (Hrun : run [(parserAt 8 1 OpType_Else, CbElse 1); (parserAt 10 2 12, CbBranch 1 0)]
                   (addIf sig_void (parserAt 7 2 4)
                      (getLocal 0 (parserAt 5 2 32) (functionStart sig_i32_void)))
                 = Some (addBranch 1 0 (parserAt 10 2 12)
                           (addElseToUnreachable 1 (parserAt 8 1 OpType_Else)
                              (addIf sig_void (parserAt 7 2 4)
                                 (getLocal 0 (parserAt 5 2 32)
                                    (functionStart sig_i32_void))))))
    by (vm_compute; reflexivity).
  assert (Hb : m_controlStack
                 (addIf sig_void (parserAt 7 2 4)
                    (getLocal 0 (parserAt 5 2 32) (functionStart sig_i32_void))) !! 1%nat
               = Some (set_pendingOffset 8
                         (ControlType sig_void BlockType.If CatchKind.Catch)))
    by (vm_compute; reflexivity).
  exact (run_keeps_branch_arity _ _ _ 1 _ Hrun Hb).
Defined.

(** X8.  The callbacks that emit nothing (the operand-free instructions and
    the SIMD, atomic, GC, reference, memory-size, exception-throwing,
    [return], [unreachable], [drop] and [call_ref] callbacks) take no part
    in a run: leaving them out of the sequence of callbacks gives the same
    generator, and the same verdict of the parser. *)
Theorem run_ignores_silent_callbacks (calls : list (FunctionParser * Callback))
    (s : IPIntGenerator) :
  run (filter (fun call => emitsNothing call = false) calls) s = run calls s.
Proof.
  revert s. induction calls as [|call rest IH]; intros s; [done|].
  destruct (emitsNothing call) eqn:Hq.
  - rewrite filter_cons_False by (rewrite Hq; done).
    destruct (silent_invoke call s Hq) as [Hacc Hinv].
    destruct call as [p cb]. cbn in *. by rewrite Hacc, Hinv.
  - rewrite filter_cons_True by done.
    destruct call as [p cb]. cbn. destruct (accepts cb s); [apply IH|done].
Qed.

(* ===================================================================== *)
(** ** Locals, globals, tables of branches, exception scopes              *)
(* ===================================================================== *)

(** X9.  In every state that a run reaches after [addArguments], two
    different locals never share a slot: for indices [i < j], arguments or
    not, the words that [local.get i] and [local.get j] record are
    different. *)
Theorem distinct_locals_distinct_slots (signature : FunctionSignature)
    (s0 : IPIntGenerator) (calls : list (FunctionParser * Callback))
    (s : IPIntGenerator) (i j : Z) (p p' : FunctionParser) :
  m_numArgumentsOnStack (m_generator s0) = 0 ->
  argumentCount signature + 16 < 2 ^ 32 ->
  run calls (addArguments signature s0) = Some s ->
  0 <= i < j -> j + 16 < 2 ^ 32 ->
  load 4 (metadata (getLocal i p s)) (metadataSize s)
  <> load 4 (metadata (getLocal j p' s)) (metadataSize s).
Proof.
  intros Hzero Hfit Hrun Hij Hj.
  destruct (addArguments_spec signature s0 Hzero ltac:(lia))
    as (Hloc & Hnum & Hstack & Hoff & _).
  pose proof (layoutOf_run _ _ _ Hrun) as Hkeep.
  pose proof (f_equal (fun t => t.1.1.1.1.1) Hkeep) as Hk1.
  pose proof (f_equal (fun t => t.1.1.1.2) Hkeep) as Hk3.
  pose proof (f_equal (fun t => t.1.1.2) Hkeep) as Hk4.
  cbn [layoutOf fst snd] in Hk1, Hk3, Hk4. clear Hkeep.
  set (layout := argumentLayout (argumentTypes signature) 0 0 16) in *.
  destruct (argumentLayout_slots (argumentTypes signature) 0 0 16
              ltac:(lia) ltac:(lia) ltac:(lia)) as [Hnd Hin].
  fold layout in Hnd, Hin.
  pose proof (length_stackSlots_le layout) as Hle.
  assert (Hlen : length layout = length (argumentTypes signature))
    by apply length_argumentLayout.
  assert (Harg : forall k, 0 <= k < argumentCount signature ->
            exists a, layout !! Z.to_nat k = Some a /\ argumentLocation s k = a /\
                      0 <= a < 16 + Z.of_nat (length (stackSlots layout))).
  { intros k Hk.
    assert (is_Some (layout !! Z.to_nat k)) as [a Ha].
    { apply lookup_lt_is_Some. unfold argumentCount in Hk. lia. }
    exists a. split; [done|]. split.
    - unfold argumentLocation. by rewrite Hk4, Hloc, Ha.
    - apply list_elem_of_lookup_2, Hin in Ha. lia. }
  rewrite !load_getLocal, Hk1, Hk3, Hnum, Hoff.
  unfold argumentCount in *.
  repeat case_bool_decide.
  - rewrite !wrap_u_small by lia. lia.
  - lia.
  - destruct (Harg i ltac:(lia)) as (a & _ & -> & Ha).
    rewrite !wrap_u_small by lia. lia.
  - destruct (Harg i ltac:(lia)) as (a & Hai & -> & Ha).
    destruct (Harg j ltac:(lia)) as (c & Hcj & -> & Hc).
    rewrite !wrap_u_small by lia. intros ->.
    pose proof (NoDup_lookup _ _ _ _ Hnd Hai Hcj). lia.
Qed.

(** Witness of [distinct_locals_distinct_slots]: the float parameter and
    the first further local of a function with parameters (i32, f64). *)
Lemma distinct_locals_distinct_slots_witness :
  load 4
    (metadata
       (getLocal 1 (parserAt 7 2 32)
          (getLocal 0 (parserAt 5 2 32)
             (addArguments (mkSignature [I32; F64] [])
                (newGenerator (mkModuleInformation []))))))
    8
  <> load 4
       (metadata
          (getLocal 2 (parserAt 7 2 32)
             (getLocal 0 (parserAt 5 2 32)
                (addArguments (mkSignature [I32; F64] [])
                   (newGenerator (mkModuleInformation []))))))
       8.
Proof.
  assert (Hrun : run [(parserAt 5 2 32, CbGetLocal 0)]
                   (addArguments (mkSignature [I32; F64] [])
                      (newGenerator (mkModuleInformation [])))
                 = Some (getLocal 0 (parserAt 5 2 32)
                           (addArguments (mkSignature [I32; F64] [])
                              (newGenerator (mkModuleInformation [])))))
    by (vm_compute; reflexivity).
  assert (Hfit : argumentCount (mkSignature [I32; F64] []) + 16 < 2 ^ 32) by by_evaluation.
  assert (Hj : 2 + 16 < 2 ^ 32) by by_evaluation.
  exact (distinct_locals_distinct_slots (mkSignature [I32; F64] [])
           (newGenerator (mkModuleInformation [])) _ _ 1 2 (parserAt 7 2 32)
           (parserAt 7 2 32) eq_refl Hfit Hrun ltac:(lia) Hj).
Defined.

(** X10.  The 8-byte entries of [global.get] and [global.set] hold the
    index in 4 bytes and the length of the instruction in 2; then
    [global.get] writes the binding mode (0 embedded, 1 portable) in 2
    bytes, and [global.set] writes it in 1 byte followed by 1 byte that is 1
    exactly for a global of reference type.  So the two callbacks leave the
    same generator behind exactly when the global is not a reference. *)
Theorem global_entries (index : Z) (p : FunctionParser) (s : IPIntGenerator)
    (g : GlobalInformation) :
  globals (m_info s) !! Z.to_nat index = Some g ->
  metadata (getGlobal index p s)
    = metadata s ++ le_bytes 4 index ++ le_bytes 2 (getCurrentInstructionLength p)
        ++ le_bytes 2 (bindingModeTag (bindingMode g)) /\
  metadata (setGlobal index p s)
    = metadata s ++ le_bytes 4 index ++ le_bytes 2 (getCurrentInstructionLength p)
        ++ le_bytes 1 (bindingModeTag (bindingMode g))
        ++ le_bytes 1 (if isRefType (globalType g) then 1 else 0) /\
  (setGlobal index p s = getGlobal index p s <-> isRefType (globalType g) = false).
Proof.
  intros Hg. rewrite (getGlobal_eq index p s g Hg), (setGlobal_eq index p s g Hg).
  split_and!; [done..|]. split.
  - intros Heq. apply (f_equal metadata) in Heq. cbn in Heq.
    do 3 apply app_inv_head in Heq.
    destruct (isRefType (globalType g)); [|done].
    destruct (bindingMode g); vm_compute in Heq; discriminate.
  - intros ->. do 5 f_equal. by destruct (bindingMode g).
Qed.

(** Witness of [global_entries]: a portable [externref] global; the last
    byte of the entry of [global.set] is 1, that of [global.get] is 0. *)
Lemma global_entries_witness :
  metadata
    (getGlobal 0 (parserAt 5 2 35)
       (newGenerator (mkModuleInformation [mkGlobal Portable Externref])))
    = [0; 0; 0; 0; 2; 0; 1; 0] /\
  metadata
    (setGlobal 0 (parserAt 5 2 36)
       (newGenerator (mkModuleInformation [mkGlobal Portable Externref])))
    = [0; 0; 0; 0; 2; 0; 1; 1].
Proof.
  destruct (global_entries 0 (parserAt 5 2 35)
              (newGenerator (mkModuleInformation [mkGlobal Portable Externref]))
              (mkGlobal Portable Externref) eq_refl) as (Hget & _ & _).
  destruct (global_entries 0 (parserAt 5 2 36)
              (newGenerator (mkModuleInformation [mkGlobal Portable Externref]))
              (mkGlobal Portable Externref) eq_refl) as (_ & Hset & _).
  split; [exact Hget|exact Hset].
Defined.

(** X11.  [br_table] composes [br]: [addSwitch] leaves the generator that
    results from appending the 8-byte count of targets and then calling
    [addBranch] for each target in order and for the default, with the same
    operand-stack size and at the same parser position. *)
Theorem addSwitch_is_count_then_branches (jumps : list nat) (defaultJump : nat)
    (stackSize : Z) (p : FunctionParser) (s : IPIntGenerator) :
  addSwitch jumps defaultJump stackSize p s
  = fold_left (fun s block => addBranch block stackSize p s) (jumps ++ [defaultJump])
      (addRawValue (Z.of_nat (length jumps) + 1) s).
Proof. apply addSwitch_branches. Qed.

(** X12.  Exception scopes are not compiled: after [addTry], whatever the
    parser calls, and also when catch clauses have replaced the entry, the
    [end] of the scope returns the generator as it received it.  Nothing is
    written at the offsets in the awaiting list of the scope. *)
Theorem end_of_exception_scope_changes_nothing (signature : FunctionSignature)
    (s0 : IPIntGenerator) (calls : list (FunctionParser * Callback))
    (s : IPIntGenerator) (pEnd : FunctionParser) :
  run calls (addTry signature s0) = Some s ->
  addEndToUnreachable (length (m_controlStack s0)) pEnd s = s.
Proof.
  intros Hrun.
  assert (Hb1 : m_controlStack (addTry signature s0) !! length (m_controlStack s0)
                = Some (ControlType signature BlockType.Try CatchKind.Catch)).
  { unfold addTry, push_control. cbn. by apply list_lookup_middle. }
  destruct (arity_run calls _ s _ _ Hrun Hb1) as (b & Hb & _ & _ & Hexn).
  unfold addEndToUnreachable. rewrite Hb.
  unfold isTry, isAnyCatch, isIf, isBlock, isLoop, isTopLevel in *. cbn in Hexn.
  by destruct (m_blockType b).
Qed.

(** Witness of [end_of_exception_scope_changes_nothing]: [try; br 0; catch;
    end]: the entry of the [br] at offset 0 still holds zeros after the
    [end]. *)
Lemma end_of_exception_scope_changes_nothing_witness :
  load 8
    (metadata
       (addEndToUnreachable 1 (parserAt 10 1 OpType_End)
          (addCatchToUnreachable 1
             (addBranch 1 0 (parserAt 7 2 12)
                (addTry sig_void (functionStart sig_void))))))
    0 = 0.
Proof.
  assert (Hrun : run [(parserAt 7 2 12, CbBranch 1 0); (parserAt 9 2 7, CbCatch 1)]
                   (addTry sig_void (functionStart sig_void))
                 = Some (addCatchToUnreachable 1
                           (addBranch 1 0 (parserAt 7 2 12)
                              (addTry sig_void (functionStart sig_void)))))
    by (vm_compute; reflexivity).
  pose proof (end_of_exception_scope_changes_nothing sig_void (functionStart sig_void)
                _ _ (parserAt 10 1 OpType_End) Hrun) as H.
  change (length (m_controlStack (functionStart sig_void))) with 1%nat in H.
  rewrite H. vm_compute. reflexivity.
Defined.

(* ===================================================================== *)
(** ** Calls                                                              *)
(* ===================================================================== *)

(** X13.  The common data of a call is laid out as follows: 16 bytes of
    integer-register slots and 16 bytes of float-register slots, each slot
    2 bytes, filled from the left with the stack offsets of the arguments
    passed in registers and zero elsewhere; then a block whose size is
    rounded up to 8 bytes and that holds, 2 bytes each, its own size, the
    number of arguments, the number of stack-passed arguments and their
    stack offsets; then the return data.  At most [maxGPRs] integer slots
    and 8 float slots are used, and every argument is recorded exactly once
    in one of the three places. *)
Theorem addCallCommonData_layout (cpu : CPU) (signature : FunctionSignature)
    (s : IPIntGenerator) (gprs fprs locations : list Z) :
  callLayout cpu (argumentTypes signature) (wrap_u 16 (argumentCount signature - 1)) 0 0
    = (gprs, fprs, locations) ->
  exists returns,
    metadata (addCallCommonData cpu signature s)
      = metadata s ++ registerSlots gprs ++ registerSlots fprs
          ++ le_bytes 2 (roundUpToMultipleOf8 (Z.of_nat (length locations) * 2 + 6))
          ++ le_bytes 2 (argumentCount signature)
          ++ le_bytes 2 (Z.of_nat (length locations))
          ++ concat (le_bytes 2 <$> locations)
          ++ replicate
               (Z.to_nat (roundUpToMultipleOf8 (Z.of_nat (length locations) * 2 + 6))
                - 6 - 2 * length locations) 0
          ++ returns /\
    Z.of_nat (length returns) = roundUpToMultipleOf8 (returnCount signature + 2) /\
    Z.of_nat (length gprs) <= maxGPRs cpu /\ (length fprs <= 8)%nat /\
    (length gprs + length fprs + length locations = length (argumentTypes signature))%nat.
Proof. apply addCallCommonData_eq. Qed.

(** Witness of [addCallCommonData_layout]: on x86-64, seven [i32]
    arguments and one [f64]: six integer registers, one float register,
    and the seventh integer on the stack. *)
Lemma addCallCommonData_layout_witness :
  exists returns,
    metadata
      (addCallCommonData X86_64 (mkSignature [I32; I32; I32; I32; I32; I32; I32; F64] [I32])
         (functionStart sig_void))
      = metadata (functionStart sig_void)
          ++ registerSlots [7; 6; 5; 4; 3; 2] ++ registerSlots [0]
          ++ le_bytes 2 (roundUpToMultipleOf8 (Z.of_nat (length [1]) * 2 + 6))
          ++ le_bytes 2
               (argumentCount (mkSignature [I32; I32; I32; I32; I32; I32; I32; F64] [I32]))
          ++ le_bytes 2 (Z.of_nat (length [1]))
          ++ concat (le_bytes 2 <$> [1])
          ++ replicate
               (Z.to_nat (roundUpToMultipleOf8 (Z.of_nat (length [1]) * 2 + 6))
                - 6 - 2 * length [1]) 0
          ++ returns /\
    Z.of_nat (length returns)
      = roundUpToMultipleOf8
          (returnCount (mkSignature [I32; I32; I32; I32; I32; I32; I32; F64] [I32]) + 2) /\
    Z.of_nat (length [7; 6; 5; 4; 3; 2]) <= maxGPRs X86_64 /\
    (length [0] <= 8)%nat /\
    (length [7; 6; 5; 4; 3; 2] + length [0] + length [1]
     = length (argumentTypes (mkSignature [I32; I32; I32; I32; I32; I32; I32; F64] [I32])))%nat.
Proof.
  apply (addCallCommonData_layout X86_64
           (mkSignature [I32; I32; I32; I32; I32; I32; I32; F64] [I32])
           (functionStart sig_void) [7; 6; 5; 4; 3; 2] [0] [1]).
  vm_compute. reflexivity.
Defined.

(** X14.  The offsets recorded for a call with at most 65536 arguments are
    the distances of the arguments from the top of the operand stack:
    argument [i] of [n] has offset [n - 1 - i].  The offsets in the integer
    slots, in the float slots and in the list of stack-passed arguments
    (the list the first loop of [addCallCommonData] returns) together are
    these offsets, each once, and each of the three keeps the order of the
    arguments. *)
Theorem call_arguments_recorded_once (cpu : CPU) (signature : FunctionSignature)
    (base : Z) (s : IPIntGenerator) (gprs fprs locations : list Z) :
  callLayout cpu (argumentTypes signature) (wrap_u 16 (argumentCount signature - 1)) 0 0
    = (gprs, fprs, locations) ->
  argumentCount signature <= 2 ^ 16 ->
  (addCallCommonDataLoop cpu base (argumentTypes signature)
     (wrap_u 16 (argumentCount signature - 1)) 0 0 [] s).1 = locations /\
  gprs ++ fprs ++ locations
    ≡ₚ (fun i : nat => argumentCount signature - 1 - Z.of_nat i)
         <$> seq 0 (length (argumentTypes signature)) /\
  gprs `sublist_of` (fun i : nat => argumentCount signature - 1 - Z.of_nat i)
                      <$> seq 0 (length (argumentTypes signature)) /\
  fprs `sublist_of` (fun i : nat => argumentCount signature - 1 - Z.of_nat i)
                      <$> seq 0 (length (argumentTypes signature)) /\
  locations `sublist_of` (fun i : nat => argumentCount signature - 1 - Z.of_nat i)
                           <$> seq 0 (length (argumentTypes signature)).
Proof.
  intros Hlay Hfit. split.
  { by rewrite addCallCommonDataLoop_locations, Hlay. }
  destruct (callLayout_offsets cpu _ _ _ _ _ _ _ Hlay) as (Hp & Hg & Hf & Hl).
  destruct (argumentTypes signature) as [|t rest] eqn:Hargs.
  { cbn in *. done. }
  assert (Hseq : stackOffsetsFrom (wrap_u 16 (argumentCount signature - 1))
                   (length (t :: rest))
                 = (fun i : nat => argumentCount signature - 1 - Z.of_nat i)
                     <$> seq 0 (length (t :: rest))).
  { unfold argumentCount in *. rewrite Hargs in *. cbn [length] in *.
    rewrite wrap_u_small by lia. apply stackOffsetsFrom_seq. lia. }
  by rewrite <- Hseq.
Qed.

(** Witness of [call_arguments_recorded_once]: on x86-64, seven [i32]
    arguments and one [f64]; the offsets are 7, 6, ..., 0, and the seventh
    integer, with offset 1, is the one passed on the stack. *)
Lemma call_arguments_recorded_once_witness :
  (addCallCommonDataLoop X86_64 0
     (argumentTypes (mkSignature [I32; I32; I32; I32; I32; I32; I32; F64] [I32]))
     (wrap_u 16
        (argumentCount (mkSignature [I32; I32; I32; I32; I32; I32; I32; F64] [I32]) - 1))
     0 0 [] (functionStart sig_void)).1 = [1] /\
  [7; 6; 5; 4; 3; 2] ++ [0] ++ [1] ≡ₚ [7; 6; 5; 4; 3; 2; 1; 0].
Proof.
  assert (Hlay : callLayout X86_64
                   (argumentTypes (mkSignature [I32; I32; I32; I32; I32; I32; I32; F64] [I32]))
                   (wrap_u 16
                      (argumentCount
                         (mkSignature [I32; I32; I32; I32; I32; I32; I32; F64] [I32]) - 1))
                   0 0
                 = ([7; 6; 5; 4; 3; 2], [0], [1])) by (vm_compute; reflexivity).
  assert (Hfit : argumentCount (mkSignature [I32; I32; I32; I32; I32; I32; I32; F64] [I32])
                 <= 2 ^ 16) by by_evaluation.
  destruct (call_arguments_recorded_once X86_64 _ 0 (functionStart sig_void)
              _ _ _ Hlay Hfit) as (Hlocs & Hperm & _).
  split; [exact Hlocs|exact Hperm].
Defined.

(** X15.  The entry of [call] starts with the function index and the PC
    after the instruction, 4 bytes each; that of [call_indirect] with the
    table index, the type index, 4 bytes that stay zero and the PC after
    the instruction.  In both the register slots of the common data
    follow at once. *)
Theorem call_entries (cpu : CPU) (index tableIndex typeIndex : Z)
    (signature : FunctionSignature) (p : FunctionParser) (s : IPIntGenerator)
    (gprs fprs locations : list Z) :
  callLayout cpu (argumentTypes signature) (wrap_u 16 (argumentCount signature - 1)) 0 0
    = (gprs, fprs, locations) ->
  (exists rest,
     metadata (addCall cpu index signature p s)
     = metadata s ++ le_bytes 4 index ++ le_bytes 4 (currentPC p s)
         ++ registerSlots gprs ++ registerSlots fprs ++ rest) /\
  (exists rest,
     metadata (addCallIndirect cpu tableIndex typeIndex signature p s)
     = metadata s ++ le_bytes 4 tableIndex ++ le_bytes 4 typeIndex ++ replicate 4 0
         ++ le_bytes 4 (currentPC p s)
         ++ registerSlots gprs ++ registerSlots fprs ++ rest).
Proof.
  intros Hlay. split.
  - unfold addCall. cbv zeta.
    set (s1 := WRITE_TO_METADATA (metadataSize s + 4) (currentPC p s) 4 _).
    assert (Hm1 : metadata s1 = metadata s ++ le_bytes 4 index ++ le_bytes 4 (currentPC p s)).
    { subst s1. rewrite !metadata_WRITE, metadata_addBlankSpace.
      change (replicate (Z.to_nat 8) 0) with (replicate 4 0 ++ replicate 4 0 ++ @nil Z).
      rewrite (writeBytes_app (metadata s) (replicate 4 0) (le_bytes 4 index)); [|done..].
      rewrite <- (app_nil_r (le_bytes 4 (currentPC p s))).
      apply writeBytes_app_mid; [|done]. rewrite length_le_bytes. unfold metadataSize. lia. }
    destruct (addCallCommonData_eq cpu signature s1 gprs fprs locations Hlay)
      as (returns & Hm & _).
    eexists. rewrite Hm, Hm1, <- !app_assoc. reflexivity.
  - unfold addCallIndirect. cbv zeta.
    set (s1 := WRITE_TO_METADATA (metadataSize s + 12) (currentPC p s) 4 _).
    assert (Hm1 : metadata s1
                  = metadata s ++ le_bytes 4 tableIndex ++ le_bytes 4 typeIndex
                      ++ replicate 4 0 ++ le_bytes 4 (currentPC p s)).
    { subst s1. rewrite !metadata_WRITE, metadata_addBlankSpace.
      change (replicate (Z.to_nat 16) 0)
        with (replicate 4 0 ++ replicate 4 0 ++ replicate 4 0 ++ replicate 4 0 ++ @nil Z).
      rewrite (writeBytes_app (metadata s) (replicate 4 0) (le_bytes 4 tableIndex));
        [|done..].
      rewrite (writeBytes_app_mid (metadata s) _ (replicate 4 0) (le_bytes 4 typeIndex));
        [|rewrite length_le_bytes; unfold metadataSize; lia|done].
      rewrite (app_assoc (le_bytes 4 tableIndex)).
      rewrite (app_assoc (le_bytes 4 tableIndex ++ le_bytes 4 typeIndex)).
      rewrite (writeBytes_app_mid (metadata s) _ (replicate 4 0)
                 (le_bytes 4 (currentPC p s)));
        [|rewrite !length_app, !length_le_bytes, length_replicate;
          unfold metadataSize; lia|done].
      by rewrite <- !app_assoc, app_nil_r. }
    destruct (addCallCommonData_eq cpu signature s1 gprs fprs locations Hlay)
      as (returns & Hm & _).
    eexists. rewrite Hm, Hm1, <- !app_assoc. reflexivity.
Qed.

(** Witness of [call_entries]: [call 5] with two [i32] arguments on ARM64,
    at the start of a function body. *)
Lemma call_entries_witness :
  exists rest,
    metadata (addCall ARM64 5 (mkSignature [I32; I32] []) (parserAt 5 2 16)
                (functionStart sig_void))
    = metadata (functionStart sig_void) ++ le_bytes 4 5
        ++ le_bytes 4 (currentPC (parserAt 5 2 16) (functionStart sig_void))
        ++ registerSlots [1; 0] ++ registerSlots [] ++ rest.
Proof.
  apply (call_entries ARM64 5 0 0 (mkSignature [I32; I32] []) (parserAt 5 2 16)
           (functionStart sig_void) [1; 0] [] []).
  vm_compute. reflexivity.
Defined.

(* ===================================================================== *)
(** ** Tables                                                             *)
(* ===================================================================== *)

(** X16.  [table.init] and [table.copy] append one 16-byte entry: the two
    indices in the order of the callback's arguments, each cut to 4 bytes,
    then the length of the instruction in 8 bytes.  Nothing else of the
    generator changes, the bytes emitted before stay, and the two callbacks
    lay out their entry in the same way. *)
Theorem table_entries (a b : Z) (p : FunctionParser) (s : IPIntGenerator) :
  addTableInit a b p s
  = {| m_generator :=
         set_metadata
           (metadata s ++ le_bytes 4 a ++ le_bytes 4 b
              ++ le_bytes 8 (getCurrentInstructionLength p)) (m_generator s);
       m_info := m_info s; m_controlStack := m_controlStack s |} /\
  addTableCopy a b p s = addTableInit a b p s /\
  load 4 (metadata (addTableInit a b p s)) (metadataSize s) = wrap_u 32 a /\
  load 4 (metadata (addTableInit a b p s)) (metadataSize s + 4) = wrap_u 32 b /\
  load 8 (metadata (addTableInit a b p s)) (metadataSize s + 8)
    = wrap_u 64 (getCurrentInstructionLength p).
Proof.
  assert (Heq : addTableInit a b p s
    = {| m_generator :=
           set_metadata
             (metadata s ++ le_bytes 4 a ++ le_bytes 4 b
                ++ le_bytes 8 (getCurrentInstructionLength p)) (m_generator s);
         m_info := m_info s; m_controlStack := m_controlStack s |}).
  { unfold addTableInit. rewrite !WRITE_TO_METADATA_eq, addBlankSpace_eq. cbn.
    rewrite !set_metadata_twice. f_equal. f_equal.
    change (replicate (Z.to_nat 16) 0)
      with (replicate 4 0 ++ replicate 4 0 ++ replicate 8 0 ++ @nil Z).
    rewrite (writeBytes_app (metadata s) (replicate 4 0) (le_bytes 4 a)); [|done..].
    rewrite (writeBytes_app_mid (metadata s) _ (replicate 4 0) (le_bytes 4 b));
      [|rewrite length_le_bytes; unfold metadataSize; lia|done].
    rewrite (app_assoc (le_bytes 4 a)).
    rewrite (writeBytes_app_mid (metadata s) _ (replicate 8 0)
               (le_bytes 8 (getCurrentInstructionLength p)));
      [|rewrite length_app, !length_le_bytes; unfold metadataSize; lia|done].
    by rewrite <- !app_assoc, app_nil_r. }
  split_and!; [exact Heq|reflexivity|..]; rewrite Heq; cbn; unfold load, metadataSize.
  - rewrite (readBytes_app_r (metadata s) (le_bytes 4 a)) by done.
    apply (le_value_le_bytes 4).
  - rewrite (app_assoc (metadata s)).
    rewrite (readBytes_app_r _ (le_bytes 4 b)) by (rewrite length_app, length_le_bytes; lia).
    apply (le_value_le_bytes 4).
  - rewrite (app_assoc (metadata s)), (app_assoc (metadata s ++ _)).
    rewrite <- (app_nil_r (le_bytes 8 _)).
    rewrite (readBytes_app_r _ (le_bytes 8 _))
      by (rewrite !length_app, !length_le_bytes; lia).
    apply (le_value_le_bytes 8).
Qed.

(* ===================================================================== *)
(** ** Parameters of any type                                             *)
(* ===================================================================== *)

(** X17.  For parameters of any types, [addArguments] leaves the layout
    that tests only for [i32] and [i64]: every other parameter, a [v128] or
    a reference as well as a float, is treated as a float.  No two
    parameters share a slot; an integer-typed parameter gets an integer
    register slot (0..7) or a stack slot (16 and up), a parameter of any
    other type a float register slot or a stack slot (8 and up); and the
    metadata bytes are not touched. *)
Theorem addArguments_places_every_type (signature : FunctionSignature)
    (s : IPIntGenerator) :
  m_numArgumentsOnStack (m_generator s) = 0 ->
  argumentCount signature < 2 ^ 32 ->
  m_argumentLocations (m_generator (addArguments signature s))
    = argumentLayout (argumentTypes signature) 0 0 16 /\
  NoDup (m_argumentLocations (m_generator (addArguments signature s))) /\
  (forall (i : nat) t slot,
     argumentTypes signature !! i = Some t ->
     m_argumentLocations (m_generator (addArguments signature s)) !! i = Some slot ->
     (isIntegerType t = true -> 0 <= slot < 8 \/ 16 <= slot) /\
     (isIntegerType t = false -> 8 <= slot)) /\
  metadata (addArguments signature s) = metadata s.
Proof.
  intros Hzero Hfit.
  destruct (addArguments_spec signature s Hzero Hfit) as (Hloc & _ & _ & _ & Hm).
  rewrite Hloc. split_and!; [done| | |done].
  - apply (argumentLayout_slots (argumentTypes signature) 0 0 16); lia.
  - intros i t slot Ht Hslot.
    destruct (argumentLayout_kinds (argumentTypes signature) 0 0 16 i t slot
                ltac:(lia) ltac:(lia) ltac:(lia) Ht Hslot) as [H1 H2].
    split; intros Hk; [by apply H1|specialize (H2 Hk); lia].
Qed.

(** Witness of [addArguments_places_every_type]: parameters
    (i32, externref, v128): the reference and the vector take the float
    register slots 8 and 9. *)
Lemma addArguments_places_every_type_witness :
  m_argumentLocations
    (m_generator
       (addArguments (mkSignature [I32; Externref; V128] [])
          (newGenerator (mkModuleInformation []))))
  = [0; 8; 9].
Proof.
  destruct (addArguments_places_every_type (mkSignature [I32; Externref; V128] [])
              (newGenerator (mkModuleInformation [])) eq_refl) as (Hloc & _).
  - by_evaluation.
  - exact Hloc.
Defined.

(* ===================================================================== *)
(** ** The origin of the PCs                                              *)
(* ===================================================================== *)

(** X18.  [didFinishParsingLocals] fixes the origin of every PC the
    generator records: it leaves the metadata bytes alone, and in every
    state that a run reaches afterwards the current PC is the parser's
    offset minus the offset the parser had when the locals were done.  No
    callback moves that origin. *)
Theorem pc_is_relative_to_first_instruction (p0 : FunctionParser) (s0 : IPIntGenerator)
    (calls : list (FunctionParser * Callback)) (s : IPIntGenerator) (p : FunctionParser) :
  run calls (didFinishParsingLocals p0 s0) = Some s ->
  currentPC p s = offset p - offset p0 /\
  metadata (didFinishParsingLocals p0 s0) = metadata s0.
Proof.
  intros Hrun. split; [|done].
  pose proof (layoutOf_run _ _ _ Hrun) as Hkeep.
  pose proof (f_equal (fun t => t.1.2) Hkeep) as Hoff.
  cbn [layoutOf fst snd] in Hoff. unfold currentPC. by rewrite Hoff.
Qed.

(** Witness of [pc_is_relative_to_first_instruction]: a function whose
    first instruction is at offset 3; after [local.get 0; block] the parser
    is at offset 7 and the PC is 4. *)
Lemma pc_is_relative_to_first_instruction_witness :
  currentPC (parserAt 7 2 2)
    (addBlock sig_void (parserAt 7 2 2)
       (getLocal 0 (parserAt 5 2 32)
          (didFinishParsingLocals (mkParser 3 3 0)
             (addArguments sig_i32_void (newGenerator (mkModuleInformation []))))))
  = 7 - 3.
Proof.
  assert (Hrun : run [(parserAt 5 2 32, CbGetLocal 0); (parserAt 7 2 2, CbBlock sig_void)]
                   (didFinishParsingLocals (mkParser 3 3 0)
                      (addArguments sig_i32_void (newGenerator (mkModuleInformation []))))
                 = Some (addBlock sig_void (parserAt 7 2 2)
                           (getLocal 0 (parserAt 5 2 32)
                              (didFinishParsingLocals (mkParser 3 3 0)
                                 (addArguments sig_i32_void
                                    (newGenerator (mkModuleInformation [])))))))
    by (vm_compute; reflexivity).
  exact (proj1 (pc_is_relative_to_first_instruction (mkParser 3 3 0) _ _ _
                  (parserAt 7 2 2) Hrun)).
Defined.
